(** * The filesystem tool server ([server/fs_server.py])

    A shallow embedding of the path resolver, the filesystem operation set
    and the action dispatcher of [fs_server.py], with the properties the
    specification states about them, and further properties of the same
    code, of [_extract_json] and of [process_query] of [llm_handler.py].

    Conventions.
    - A Python [str] is a list of code points ([pystr]); [py "..."] turns an
      ASCII literal into one.
    - A [pathlib.Path] that went through [resolve()] is the list of its
      components below ["/"] ([path]); [str_path] is Python's [str(p)].
    - The filesystem is a finite map from canonical paths to inodes (regular
      file with its bytes, directory, symbolic link with its target).
    - An operation is a function from the filesystem to a result (a value or
      a raised exception) and the filesystem it leaves behind: an exception
      does not undo what was done before it was raised.
    - What Python and the operating system decide (codecs, [str.lower],
      [repr], the size reported for a directory, the environment) is gathered
      in a [platform] record over which everything is parametric.  The model
      is POSIX, without permissions, hard links, special files or concurrent
      writers. *)

From Stdlib Require Import Ascii String.
From Stdlib.Strings Require Import Byte.
From stdpp Require Import gmap list strings sorting lexico pretty.

Set Default Proof Using "Type".
Set Warnings "-register-all,-notation-for-abbreviation,-clear-no-such-hyp".
Local Open Scope N_scope.

(** ** Python strings *)

Notation pystr := (list N).

(** An ASCII literal as a Python string. *)
Definition py (s : string) : pystr :=
  N_of_ascii <$> list_ascii_of_string s.

(** [str(n)] for a natural number. *)
Definition str_of_nat (n : nat) : pystr := py (pretty n).

(** [s.startswith(p)]. *)
Fixpoint startswith (s p : pystr) {struct p} : bool :=
  match p, s with
  | [], _ => true
  | _ :: _, [] => false
  | a :: p', b :: s' => (a =? b) && startswith s' p'
  end.

(** [needle in hay]: literal substring test. *)
Fixpoint contains (needle hay : pystr) : bool :=
  startswith hay needle ||
  match hay with
  | [] => false
  | _ :: hay' => contains needle hay'
  end.

(** [s.split(c)]: the pieces of [s] between occurrences of [c]. *)
Fixpoint split_on (c : N) (s : pystr) : list pystr :=
  match s with
  | [] => [[]]
  | x :: s' =>
      if x =? c then [] :: split_on c s'
      else match split_on c s' with
           | h :: t => (x :: h) :: t
           | [] => [[x]]
           end
  end.

(** [sep.join(l)]. *)
Fixpoint join (sp : pystr) (l : list pystr) : pystr :=
  match l with
  | [] => []
  | [x] => x
  | x :: l' => x ++ sp ++ join sp l'
  end.

(** [s.replace("\n", " ")]. *)
Definition replace_newlines (s : pystr) : pystr :=
  (λ c, if c =? 10 then 32 else c) <$> s.

(** ** Paths *)

Notation path := (list pystr).

Definition sep : N := 47.
Definition curdir : pystr := py ".".
Definition pardir : pystr := py "..".

(** [str(p)] of an absolute path. *)
Definition str_path (p : path) : pystr :=
  match p with
  | [] => [sep]
  | _ => concat ((λ c, sep :: c) <$> p)
  end.

(** [p.parent]; the parent of ["/"] is ["/"]. *)
Definition parent (p : path) : path := removelast p.

(** [p.name]; the name of ["/"] is the empty string. *)
Definition name (p : path) : pystr := List.last p [].

(** [Path(s).is_absolute()]. *)
Definition is_absolute (s : pystr) : bool :=
  match s with
  | c :: _ => c =? sep
  | [] => false
  end.

(** ** Exceptions and results *)

Inductive exn_kind :=
  | ValueError | TypeError | AttributeError | LookupError | UnicodeError
  | RuntimeError | FileNotFoundError | FileExistsError | NotADirectoryError
  | IsADirectoryError | OSError | ShutilError.

Record exn := Exn { kind : exn_kind; message : pystr }.

(** [str(e)]. *)
Definition str_exn (e : exn) : pystr := message e.

Inductive result (A : Type) :=
  | Ok (a : A)
  | Raise (e : exn).
Arguments Ok {A} a.
Arguments Raise {A} e.

(** An [OSError] raised by a system call on [p]:
    ["[Errno n] text: 'p'"]. *)
Definition os_error (k : exn_kind) (errno : nat) (text : string) (p : path) : exn :=
  Exn k (py "[Errno " ++ str_of_nat errno ++ py "] " ++ py text ++ py ": '"
         ++ str_path p ++ py "'").

Definition ENOENT (p : path) := os_error FileNotFoundError 2 "No such file or directory" p.
Definition EEXIST (p : path) := os_error FileExistsError 17 "File exists" p.
Definition ENOTDIR (p : path) := os_error NotADirectoryError 20 "Not a directory" p.
Definition EISDIR (p : path) := os_error IsADirectoryError 21 "Is a directory" p.
Definition ENOTEMPTY (p : path) := os_error OSError 39 "Directory not empty" p.
Definition EBUSY (p : path) := os_error OSError 16 "Device or resource busy" p.

(** ** Python values crossing the dispatcher

    The values a decoded JSON document can hold.  (A JSON float behaves like
    [VNum] at every place the code looks at an argument: it is not a string
    and it is false exactly when it is zero.  Only the interpreter tells the
    two apart, when it names the type of arguments that are no mapping.) *)

Inductive pyval :=
  | VNone
  | VBool (b : bool)
  | VNum (z : Z)
  | VStr (s : pystr)
  | VList (l : list pyval)
  | VDict (d : list (pystr * pyval)).

(** [bool(v)]. *)
Definition truthy (v : pyval) : bool :=
  match v with
  | VNone => false
  | VBool b => b
  | VNum z => negb (z =? 0)%Z
  | VStr s => negb (bool_decide (s = []))
  | VList l => negb (bool_decide (l = []))
  | VDict d => match d with [] => false | _ => true end
  end.

(** ** The filesystem *)

Inductive inode :=
  | Reg (data : list byte)
  | Dir
  | Lnk (target : pystr).

Global Instance byte_eq_dec : EqDecision byte := Byte.byte_eq_dec.

Global Instance inode_eq_dec : EqDecision inode.
Proof. solve_decision. Defined.

Notation fsys := (gmap path inode).

Definition is_lnk (o : option inode) : bool :=
  match o with Some (Lnk _) => true | _ => false end.

(** A component that can name a directory entry. *)
Definition valid_name (n : pystr) : Prop :=
  n ≠ [] ∧ n ≠ curdir ∧ n ≠ pardir ∧ (sep ∉ n) ∧ (0 ∉ n).

Global Instance valid_name_dec n : Decision (valid_name n).
Proof. unfold valid_name. apply _. Defined.

(** Well-formed filesystems: ["/"] is a directory, and every other entry
    has a valid name and lives in a directory. *)
Definition wf_entry (fs : fsys) (p : path) : Prop :=
  match p with
  | [] => fs !! p = Some Dir
  | _ => valid_name (name p) ∧ fs !! parent p = Some Dir
  end.

Global Instance wf_entry_dec fs p : Decision (wf_entry fs p).
Proof. unfold wf_entry. destruct p; apply _. Defined.

Definition wf (fs : fsys) : Prop :=
  fs !! [] = Some Dir ∧ map_Forall (λ p _, wf_entry fs p) fs.

Global Instance wf_dec fs : Decision (wf fs).
Proof. unfold wf. apply _. Defined.

(** ** What the operations return *)

(** The dict built by [_format_entry]; [e_exists] is the key that only
    [get_file_info] adds. *)
Record entry := Entry {
  e_path : pystr;
  e_name : pystr;
  e_is_dir : bool;
  e_size : option nat;
  e_exists : option bool;
}.

(** The dict [{"path": ...}] of [search_in_files]. *)
Record hit := Hit { hit_path : pystr }.

Inductive opresult :=
  | REntries (l : list entry)
  | RPaths (l : list pystr)
  | RHits (l : list hit)
  | RInfo (e : entry)
  | RStr (s : pystr).

(** ** The platform *)

Record platform := Platform {
  (** [os.getenv("FS_ROOT")] *)
  env_FS_ROOT : option pystr;
  (** [os.getcwd()], a canonical path *)
  cwd : path;
  (** how many symbolic links one resolution may expand before it is
      reported as a loop *)
  symloop_max : nat;
  (** [s.lower()] *)
  str_lower : pystr → pystr;
  (** [s.encode(encoding)] *)
  str_encode : pyval → pystr → result (list byte);
  (** the bytes that the text layer of [open(..., encoding=encoding)] writes
      for [s] on a stream that is not at its start: [s.encode(encoding)]
      without the byte-order mark of a codec that begins with one *)
  str_encode_continued : pyval → pystr → result (list byte);
  (** decoding of a file's bytes by [read_text(encoding=...)] *)
  bytes_decode : pyval → list byte → result pystr;
  (** [st_size] of the directory at a path *)
  dir_st_size : gmap path inode → path → nat;
  (** whether the file system refuses a name as too long ([NAME_MAX]: more
      than 255 bytes of [os.fsencode(name)] on Linux) *)
  name_too_long : pystr → bool;
  (** whether the system refuses the text of a path as too long ([PATH_MAX]:
      4096 bytes on Linux, the closing NUL included) *)
  path_too_long : pystr → bool;
  (** [str(v)] of a list or dict *)
  str_container : pyval → pystr;
  (** [json.dumps(r, ensure_ascii=False)] *)
  json_dumps : opresult → pystr;
  (** what the interpreter prints before the name of a function when it
      reports a call [f( **args )] on something that is no mapping: the name
      of the function's module and a dot (nothing up to Python 3.8) *)
  func_prefix : pystr;
}.

(** [str(v)], as an f-string formats a value. *)
Definition str_val (P : platform) (v : pyval) : pystr :=
  match v with
  | VNone => py "None"
  | VBool true => py "True"
  | VBool false => py "False"
  | VNum z => py (pretty z)
  | VStr s => s
  | _ => str_container P v
  end.

(** ** [Path.resolve()]

    [os.path.realpath] walks the components left to right over the path
    resolved so far: empty and ["."] components are dropped, [".."] steps to
    the parent, a component naming a symbolic link is replaced by the link's
    target (restarting from ["/"] when the target is absolute), and anything
    else, existing or not, is appended.  [None] is the symlink loop that
    [resolve()] reports as an error. *)

Fixpoint realpath (fuel : nat) (fs : fsys) : path → list pystr → option path :=
  fix walk (cur : path) (rest : list pystr) {struct rest} : option path :=
    match rest with
    | [] => Some cur
    | c :: rest' =>
        if bool_decide (c = [] ∨ c = curdir) then walk cur rest'
        else if bool_decide (c = pardir) then walk (parent cur) rest'
        else
          match fs !! (cur ++ [c]) with
          | Some (Lnk t) =>
              match fuel with
              | O => None
              | S fuel' =>
                  realpath fuel' fs (if is_absolute t then [] else cur)
                           (split_on sep t ++ rest')
              end
          | _ => walk (cur ++ [c]) rest'
          end
    end.

(** ** Operations as state transformers *)

Definition M (A : Type) : Type := fsys → result A * fsys.

Definition ret {A} (a : A) : M A := λ fs, (Ok a, fs).
Definition raise {A} (e : exn) : M A := λ fs, (Raise e, fs).
Definition bind {A B} (m : M A) (k : A → M B) : M B := λ fs,
  match m fs with
  | (Ok a, fs') => k a fs'
  | (Raise e, fs') => (Raise e, fs')
  end.
(** The filesystem as it is now. *)
Definition get : M fsys := λ fs, (Ok fs, fs).
(** A computation that only reads the filesystem. *)
Definition reading {A} (r : fsys → result A) : M A := λ fs, (r fs, fs).
(** [try: m  except Exception as e: h e]. *)
Definition try_except {A} (m : M A) (h : exn → M A) : M A := λ fs,
  match m fs with
  | (Raise e, fs') => h e fs'
  | r => r
  end.

Notation "'let*' x ':=' m 'in' k" := (bind m (λ x, k))
  (at level 10, x name, m at level 100, k at level 200, only parsing).
Notation "m ';;' k" := (bind m (λ _, k))
  (at level 100, k at level 200, right associativity, only parsing).

(** The same for computations that only read. *)
Definition rbind {A B} (r : result A) (k : A → result B) : result B :=
  match r with
  | Ok a => k a
  | Raise e => Raise e
  end.

Notation "'let?' x ':=' r 'in' k" := (rbind r (λ x, k))
  (at level 10, x name, r at level 100, k at level 200, only parsing).

Global Instance exn_kind_eq_dec : EqDecision exn_kind.
Proof. solve_decision. Defined.

Section Server.

Context (P : platform).

(** [Path(s).resolve()] for a string [s] naming an absolute path, or
    [(base / s).resolve()] with [base] in place of [start]: the text is
    resolved from ["/"].  A string with a NUL makes the system calls raise
    [ValueError].

    A loop is what Python up to 3.12 raises [RuntimeError] on.  The model
    bounds the links of one resolution by [symloop_max], the bound of the
    [os.stat] of the kernel, where [os.path.realpath] remembers the links it
    has entered: a path that the model resolves is resolved by the code to
    the same result, but a chain of more than [symloop_max] links that ends
    is a loop to the model only, and the message of the model quotes the
    text given where the code quotes the path it reached.  No statement
    below depends on the error of a loop. *)
Definition resolve (fs : fsys) (start : path) (s : pystr) : result path :=
  if bool_decide (0 ∈ s) then Raise (Exn ValueError (py "embedded null byte"))
  else
    match realpath (symloop_max P) fs [] (start ++ split_on sep s) with
    | Some p => Ok p
    | None => Raise (Exn RuntimeError (py "Symlink loop from '" ++ s ++ py "'"))
    end.

(** [_get_fs_root]: [FS_ROOT] when set and not empty, else the working
    directory; a relative [FS_ROOT] is resolved against the working
    directory. *)
Definition _get_fs_root (fs : fsys) : result path :=
  let root :=
    match env_FS_ROOT P with
    | Some (c :: r) => c :: r
    | _ => str_path (cwd P)
    end in
  resolve fs (if is_absolute root then [] else cwd P) root.

(** [_resolve_safe]: the resolved target, unless its text does not start
    with the text of the root. *)
Definition _resolve_safe (fs : fsys) (path_ : pyval) : result path :=
  match _get_fs_root fs with
  | Raise e => Raise e
  | Ok base =>
      match path_ with
      | VStr s =>
          match resolve fs (if is_absolute s then [] else base) s with
          | Raise e => Raise e
          | Ok target =>
              if negb (startswith (str_path target) (str_path base)) then
                Raise (Exn ValueError (py "Path escapes FS_ROOT: " ++ str_path target))
              else Ok target
          end
      | _ =>
          Raise (Exn TypeError (py "expected str, bytes or os.PathLike object"))
      end
  end.


(** ** Queries: [stat], [exists], [is_dir], [is_file] *)

(** [os.stat(p)]: the inode [p] leads to, following symbolic links;
    [None] when there is none (or on a loop).  These are the failures that
    [Path.exists()], [is_dir()] and [is_file()] answer with [False]; the
    file system of the model has no other: it refuses no path for its
    length ([within_limits] below) and none for its permissions, where the
    three methods raise the [OSError] of the system call. *)
Definition stat (fs : fsys) (p : path) : option inode :=
  realpath (symloop_max P) fs [] p ≫= λ q, fs !! q.

Definition exists_ (fs : fsys) (p : path) : bool :=
  match stat fs p with Some _ => true | None => false end.

Definition is_dir (fs : fsys) (p : path) : bool :=
  match stat fs p with Some Dir => true | _ => false end.

Definition is_file (fs : fsys) (p : path) : bool :=
  match stat fs p with Some (Reg _) => true | _ => false end.

(** [st_size] of the inode found at [p]. *)
Definition st_size (fs : fsys) (p : path) (i : inode) : nat :=
  match i with
  | Reg data => length data
  | Dir => dir_st_size P fs p
  | Lnk t => length t
  end.

(** The entries of the filesystem strictly below [d]. *)
Definition below (d q : path) : Prop := d `prefix_of` q ∧ q ≠ d.

Global Instance below_dec d q : Decision (below d q).
Proof. unfold below. apply _. Defined.

(** [d.iterdir()]: the immediate children of [d], in the order the system
    lists them. *)
Definition iterdir (fs : fsys) (d : path) : list path :=
  filter (λ q, q ≠ [] ∧ parent q = d) (map_to_list fs).*1.

(** [d.rglob("*")]: every entry below [d]. *)
Definition rglob (fs : fsys) (d : path) : list path :=
  filter (below d) (map_to_list fs).*1.

(** The order of [sorted] on paths: component by component, each by code
    points. *)
Definition path_le (p q : path) : Prop := ¬ lexico q p.

Global Instance path_le_dec : RelDecision path_le.
Proof. intros p q. unfold path_le. apply _. Defined.

Definition sorted (l : list path) : list path := merge_sort path_le l.

(** Universal newlines on reading: ["\r\n"] and ["\r"] become ["\n"]. *)
Fixpoint universal_newlines (s : pystr) : pystr :=
  match s with
  | [] => []
  | c :: s' =>
      if c =? 13 then
        10 :: match s' with
              | d :: s'' => if d =? 10 then universal_newlines s''
                            else universal_newlines s'
              | [] => []
              end
      else c :: universal_newlines s'
  end.

(** [p.read_text(encoding=encoding)]. *)
Definition read_text (fs : fsys) (p : path) (encoding : pyval) : result pystr :=
  match stat fs p with
  | Some (Reg data) =>
      let? s := bytes_decode P encoding data in Ok (universal_newlines s)
  | Some Dir => Raise (EISDIR p)
  | _ => Raise (ENOENT p)
  end.

(** ** System calls that change the filesystem

    They are given canonical paths only: every path that reaches them is a
    result of [_resolve_safe], the parent of one, or an entry of one. *)

(** [os.mkdir(p)]. *)
Definition os_mkdir (p : path) : M unit := λ fs,
  match fs !! p with
  | Some _ => (Raise (EEXIST p), fs)
  | None =>
      match fs !! parent p with
      | Some Dir => (Ok (), <[p := Dir]> fs)
      | Some _ => (Raise (ENOTDIR p), fs)
      | None => (Raise (ENOENT p), fs)
      end
  end.

(** What [Path.mkdir] does with the outcome of [os.mkdir] when the error is
    not [FileNotFoundError]: swallow it if [exist_ok] and the path is a
    directory. *)
Definition mkdir_exists (p : path) (exist_ok : bool) (e : exn) : M unit := λ fs,
  if negb exist_ok || negb (is_dir fs p) then (Raise e, fs) else (Ok (), fs).

(** [p.mkdir(parents=False, exist_ok=exist_ok)]. *)
Definition mkdir_single (p : path) (exist_ok : bool) : M unit :=
  try_except (os_mkdir p) (λ e,
    if decide (kind e = FileNotFoundError) then raise e
    else mkdir_exists p exist_ok e).

(** [p.mkdir(parents=True, exist_ok=exist_ok)], on the components of [p]
    from the last to the first. *)
Fixpoint mkdir_parents (rp : list pystr) (exist_ok : bool) : M unit :=
  let p := reverse rp in
  try_except (os_mkdir p) (λ e,
    if decide (kind e = FileNotFoundError) then
      match rp with
      | [] => raise e
      | _ :: rq =>
          mkdir_parents rq true ;;
          mkdir_single p exist_ok
      end
    else mkdir_exists p exist_ok e).

Definition mkdir (p : path) (parents exist_ok : bool) : M unit :=
  if parents then mkdir_parents (reverse p) exist_ok
  else mkdir_single p exist_ok.

(** [open(p, "a" or "w").write(...)] with the bytes [b]: the file a final
    symbolic link leads to is the one written. *)
Definition write_bytes (p : path) (append : bool) (b : list byte) : M unit := λ fs,
  match (if is_lnk (fs !! p) then realpath (symloop_max P) fs [] p else Some p) with
  | None => (Raise (os_error OSError 40 "Too many levels of symbolic links" p), fs)
  | Some q =>
      match fs !! q with
      | Some (Reg old) => (Ok (), <[q := Reg (if append then old ++ b else b)]> fs)
      | Some Dir => (Raise (EISDIR p), fs)
      | Some (Lnk _) => (Raise (os_error OSError 40 "Too many levels of symbolic links" p), fs)
      | None =>
          match fs !! parent q with
          | Some Dir => (Ok (), <[q := Reg b]> fs)
          | Some _ => (Raise (ENOTDIR p), fs)
          | None => (Raise (ENOENT p), fs)
          end
      end
  end.

(** [p.unlink()]. *)
Definition os_unlink (p : path) : M unit := λ fs,
  match fs !! p with
  | Some Dir => (Raise (EISDIR p), fs)
  | Some _ => (Ok (), delete p fs)
  | None => (Raise (ENOENT p), fs)
  end.

(** [p.rmdir()]: only an empty directory, and never ["/"]. *)
Definition os_rmdir (p : path) : M unit := λ fs,
  match fs !! p with
  | Some Dir =>
      if decide (p = []) then (Raise (EBUSY p), fs)
      else if decide (iterdir fs p = []) then (Ok (), delete p fs)
      else (Raise (ENOTEMPTY p), fs)
  | Some _ => (Raise (ENOTDIR p), fs)
  | None => (Raise (ENOENT p), fs)
  end.

(** [shutil.rmtree(p)] on a directory: everything below it goes, then the
    directory itself. *)
Definition rmtree (p : path) : M unit := λ fs,
  match fs !! p with
  | Some Dir => os_rmdir p (filter (λ kv, ¬ below p kv.1) fs)
  | Some _ => (Raise (ENOTDIR p), fs)
  | None => (Raise (ENOENT p), fs)
  end.

(** [shutil.copyfile] and [shutil.copy2] (metadata is not modelled). *)

Definition samefile (fs : fsys) (a b : path) : bool :=
  match realpath (symloop_max P) fs [] a, realpath (symloop_max P) fs [] b with
  | Some x, Some y => bool_decide (x = y) && bool_decide (is_Some (fs !! x))
  | _, _ => false
  end.

Definition read_bytes (fs : fsys) (p : path) : result (list byte) :=
  match stat fs p with
  | Some (Reg data) => Ok data
  | Some Dir => Raise (EISDIR p)
  | _ => Raise (ENOENT p)
  end.

(** [repr] of the text of a path and of a [Path] object.  (The text is put
    between single quotes as it is: no name of the statements holds a quote,
    a backslash or an unprintable character.) *)
Definition repr_str (p : path) : pystr := py "'" ++ str_path p ++ py "'".

Definition repr_path (p : path) : pystr := py "PosixPath(" ++ repr_str p ++ py ")".

(** [shutil.copyfile(s, dst)]; [shown_s] and [shown_dst] are the [repr] of
    the two arguments, which the error of a copy onto itself quotes. *)
Definition copyfile (s dst : path) (shown_s shown_dst : pystr) : M unit :=
  let* fs := get in
  if samefile fs s dst then
    raise (Exn ShutilError (shown_s ++ py " and " ++ shown_dst
                            ++ py " are the same file"))
  else
    let* data := reading (λ fs, read_bytes fs s) in
    write_bytes dst false data.

(** [shutil.copy2(s, d)], called on [Path] objects ([objects]) or on their
    texts: a destination that is a directory is replaced by the text
    [os.path.join(d, os.path.basename(s))]. *)
Definition copy2 (objects : bool) (s d : path) : M unit :=
  let shown := if objects then repr_path else repr_str in
  let* fs := get in
  copyfile s (if is_dir fs d then d ++ [name s] else d)
           (shown s) (if is_dir fs d then repr_str (d ++ [name s]) else shown d).

(** ** The operation set *)

Definition _format_entry (fs : fsys) (p : path) : entry :=
  match stat fs p with
  | Some i => Entry (str_path p) (name p) (is_dir fs p) (Some (st_size fs p i)) None
  | None => Entry (str_path p) (name p) (is_dir fs p) None None
  end.

Definition list_directory (fs : fsys) (path_ : pyval) : result (list entry) :=
  let? directory := _resolve_safe fs path_ in
  if negb (exists_ fs directory) || negb (is_dir fs directory) then
    Raise (Exn FileNotFoundError (py "Not a directory: " ++ str_path directory))
  else Ok (_format_entry fs <$> sorted (iterdir fs directory)).

Definition read_file (fs : fsys) (path_ encoding : pyval) : result pystr :=
  let? file_path := _resolve_safe fs path_ in
  if negb (exists_ fs file_path) || negb (is_file fs file_path) then
    Raise (Exn FileNotFoundError (py "File not found: " ++ str_path file_path))
  else read_text fs file_path encoding.

(** [len(v)]. *)
Definition py_len (v : pyval) : result nat :=
  match v with
  | VStr s => Ok (length s)
  | VList l => Ok (length l)
  | VDict d => Ok (length d)
  | _ => Raise (Exn TypeError (py "object has no len()"))
  end.

(** [v.encode(encoding)]. *)
Definition py_encode (v encoding : pyval) : result (list byte) :=
  match v with
  | VStr s => str_encode P encoding s
  | _ => Raise (Exn AttributeError (py "object has no attribute 'encode'"))
  end.

(** The confirmation string of [write_file]. *)
Definition write_report (append : bool) (file_path : path) (char_count byte_count : nat) : pystr :=
  (if append then py "Appended" else py "Created") ++ py " file at " ++ str_path file_path
  ++ py " | Characters written: " ++ str_of_nat char_count
  ++ py " | Bytes written: " ++ str_of_nat byte_count.

(** [f.write(content)] on a stream that is not at its start. *)
Definition py_encode_continued (v encoding : pyval) : result (list byte) :=
  match v with
  | VStr s => str_encode_continued P encoding s
  | _ => Raise (Exn TypeError (py "write() argument must be str"))
  end.

(** The bytes that [with file_path.open(mode, encoding=encoding) as f:
    f.write(content)] puts into the file.  The text layer starts a stream
    that is at its start (mode ["w"], or mode ["a"] on an empty file) as
    [content.encode(encoding)] does; a file that holds something is appended
    to from its end, where the encoder writes no byte-order mark.  (On POSIX
    no line end is translated on writing.  Codecs with shift states, whose
    closing sequence the text layer never writes, are not modelled.) *)
Definition text_write (fs : fsys) (p : path) (append : bool)
    (content encoding : pyval) : result (list byte) :=
  if append then
    match read_bytes fs p with
    | Ok (_ :: _) => py_encode_continued content encoding
    | _ => py_encode content encoding
    end
  else py_encode content encoding.

(** The byte count of the report is that of [content.encode(encoding)],
    computed before the file is opened. *)
Definition write_file (path_ content encoding : pyval) : M pystr :=
  let* file_path := reading (λ fs, _resolve_safe fs path_) in
  mkdir (parent file_path) true true ;;
  let* fs := get in
  if exists_ fs file_path && negb (is_file fs file_path) then
    raise (Exn FileExistsError (py "Target exists and is not a file: " ++ str_path file_path))
  else
    let append := exists_ fs file_path in
    let* char_count := reading (λ _, py_len content) in
    let* encoded := reading (λ _, py_encode content encoding) in
    let* written := reading (λ fs, text_write fs file_path append content encoding) in
    write_bytes file_path append written ;;
    ret (write_report append file_path char_count (length encoded)).

Definition not_a_directory (root : path) : exn :=
  Exn FileNotFoundError (py "Not a directory: " ++ str_path root).

(** [(name_contains or "").lower()]. *)
Definition needle_of (name_contains : pyval) : result pystr :=
  match (if truthy name_contains then name_contains else VStr []) with
  | VStr s => Ok (str_lower P s)
  | _ => Raise (Exn AttributeError (py "object has no attribute 'lower'"))
  end.

Definition search_files (fs : fsys) (path_ name_contains : pyval) : result (list pystr) :=
  let? root := _resolve_safe fs path_ in
  if negb (exists_ fs root) || negb (is_dir fs root) then Raise (not_a_directory root)
  else
    let? needle := needle_of name_contains in
    Ok (str_path <$>
          filter (λ p, is_file fs p && contains needle (str_lower P (name p)))
                 (rglob fs root)).

(** [text in content]. *)
Definition py_in (text : pyval) (content : pystr) : result bool :=
  match text with
  | VStr t => Ok (contains t content)
  | _ => Raise (Exn TypeError (py "'in <string>' requires string as left operand"))
  end.

(** The loop of [search_in_files] over the paths [rglob] yields. *)
Fixpoint scan (fs : fsys) (text encoding : pyval) (ps : list path) : result (list hit) :=
  match ps with
  | [] => Ok []
  | p :: ps' =>
      if is_file fs p then
        match read_text fs p encoding with
        | Raise _ => scan fs text encoding ps'
        | Ok content =>
            let? found := py_in text content in
            let? out := scan fs text encoding ps' in
            Ok (if found then Hit (str_path p) :: out else out)
        end
      else scan fs text encoding ps'
  end.

Definition search_in_files (fs : fsys) (path_ text encoding : pyval) : result (list hit) :=
  let? root := _resolve_safe fs path_ in
  if negb (exists_ fs root) || negb (is_dir fs root) then Raise (not_a_directory root)
  else if negb (truthy text) then Ok []
  else scan fs text encoding (rglob fs root).

Definition get_file_info (fs : fsys) (path_ : pyval) : result entry :=
  let? p := _resolve_safe fs path_ in
  if negb (exists_ fs p) then
    Raise (Exn FileNotFoundError (py "Not found: " ++ str_path p))
  else
    let info := _format_entry fs p in
    Ok (Entry (e_path info) (e_name info) (e_is_dir info) (e_size info) (Some true)).

Definition create_directory (path_ exist_ok : pyval) : M pystr :=
  let* p := reading (λ fs, _resolve_safe fs path_) in
  mkdir p true (truthy exist_ok) ;;
  ret (py "Created directory: " ++ str_path p).

Definition delete_file (path_ recursive : pyval) : M pystr :=
  let* p := reading (λ fs, _resolve_safe fs path_) in
  let* fs := get in
  if negb (exists_ fs p) then ret (py "Already gone: " ++ str_path p)
  else if is_dir fs p then
    if truthy recursive then
      rmtree p ;; ret (py "Removed directory tree: " ++ str_path p)
    else
      os_rmdir p ;; ret (py "Removed directory: " ++ str_path p)
  else
    os_unlink p ;; ret (py "Removed file: " ++ str_path p).

Definition copy_file (src dst overwrite : pyval) : M pystr :=
  let* s := reading (λ fs, _resolve_safe fs src) in
  let* d := reading (λ fs, _resolve_safe fs dst) in
  let* fs := get in
  if negb (exists_ fs s) || negb (is_file fs s) then
    raise (Exn FileNotFoundError (py "Source file not found: " ++ str_path s))
  else
    mkdir (parent d) true true ;;
    let* fs1 := get in
    if exists_ fs1 d && negb (truthy overwrite) then
      raise (Exn FileExistsError (py "Destination exists: " ++ str_path d))
    else
      copy2 true s d ;;
      ret (py "Copied " ++ str_path s ++ py " -> " ++ str_path d).

(** [os.rename(src, dst)]. *)

(** The entries at and below [src], moved to [dst]; what was at and below
    [dst] is replaced. *)
Definition relocate (src dst : path) (fs : fsys) : fsys :=
  list_to_map ((λ kv : path * inode, (dst ++ drop (length src) kv.1, kv.2)) <$>
               filter (λ kv : path * inode, src `prefix_of` kv.1) (map_to_list fs))
  ∪ filter (λ kv : path * inode, ¬ src `prefix_of` kv.1 ∧ ¬ dst `prefix_of` kv.1) fs.

Definition rename_onto (src dst : path) (i : inode) : M unit := λ fs,
  match fs !! dst with
  | None =>
      match fs !! parent dst with
      | Some Dir => (Ok (), relocate src dst fs)
      | Some _ => (Raise (ENOTDIR dst), fs)
      | None => (Raise (ENOENT dst), fs)
      end
  | Some Dir =>
      match i with
      | Dir => if decide (iterdir fs dst = []) then (Ok (), relocate src dst fs)
               else (Raise (ENOTEMPTY dst), fs)
      | _ => (Raise (EISDIR dst), fs)
      end
  | Some _ =>
      match i with
      | Dir => (Raise (ENOTDIR dst), fs)
      | _ => (Ok (), relocate src dst fs)
      end
  end.

Definition os_rename (src dst : path) : M unit := λ fs,
  match fs !! src with
  | None => (Raise (ENOENT src), fs)
  | Some i =>
      if decide (src = [] ∨ dst = []) then (Raise (EBUSY src), fs)
      else if decide (src = dst) then (Ok (), fs)
      else if decide (src `prefix_of` dst) then
        (Raise (os_error OSError 22 "Invalid argument" src), fs)
      else rename_onto src dst i fs
  end.

(** [shutil.copytree(s, real_dst, symlinks=True)]: the destination must not
    exist. *)
Definition copytree (s real_dst : path) : M unit :=
  mkdir real_dst true false ;;
  (λ fs,
     (Ok (),
      list_to_map ((λ kv : path * inode, (real_dst ++ drop (length s) kv.1, kv.2)) <$>
                   filter (λ kv : path * inode, below s kv.1) (map_to_list fs))
      ∪ fs)).

(** [shutil.move(s, d)]. *)
Definition shutil_move (s d : path) : M unit :=
  let* fs := get in
  if is_dir fs d && samefile fs s d then os_rename s d
  else
    let real_dst := if is_dir fs d then d ++ [name s] else d in
    if is_dir fs d && exists_ fs real_dst then
      raise (Exn ShutilError (py "Destination path '" ++ str_path real_dst
                              ++ py "' already exists"))
    else
      try_except (os_rename s real_dst) (λ e,
        let* fs' := get in
        match fs' !! s with
        | Some (Lnk t) =>
            (λ fs'', match fs'' !! real_dst with
                     | Some _ => (Raise (EEXIST real_dst), fs'')
                     | None => (Ok (), <[real_dst := Lnk t]> fs'')
                     end) ;;
            os_unlink s
        | _ =>
            if is_dir fs' s then
              if decide (s `prefix_of` d) then
                raise (Exn ShutilError (py "Cannot move a directory '" ++ str_path s
                                        ++ py "' into itself '" ++ str_path d ++ py "'."))
              else copytree s real_dst ;; rmtree s
            else copy2 false s real_dst ;; os_unlink s
        end).

Definition move_file (src dst overwrite : pyval) : M pystr :=
  let* s := reading (λ fs, _resolve_safe fs src) in
  let* d := reading (λ fs, _resolve_safe fs dst) in
  let* fs := get in
  if negb (exists_ fs s) then
    raise (Exn FileNotFoundError (py "Source not found: " ++ str_path s))
  else
    mkdir (parent d) true true ;;
    let* fs1 := get in
    if exists_ fs1 d && negb (truthy overwrite) then
      raise (Exn FileExistsError (py "Destination exists: " ++ str_path d))
    else
      shutil_move s d ;;
      ret (py "Moved " ++ str_path s ++ py " -> " ++ str_path d).

(** ** The action dispatcher: the end of [nl_command]

    From the parsed command to the summary string.  The extraction of the
    command from the answer of the planner is [_extract_json] further down;
    the call of the language model is not part of the model. *)

(** [d.get(key)]. *)
Fixpoint dict_get (key : pystr) (d : list (pystr * pyval)) : option pyval :=
  match d with
  | [] => None
  | (k, v) :: d' => if decide (k = key) then Some v else dict_get key d'
  end.

(** [v == "literal"]. *)
Definition is_str (v : pyval) (s : string) : bool :=
  match v with
  | VStr t => bool_decide (t = py s)
  | _ => false
  end.

(** [type(v).__name__]. *)
Definition type_name (v : pyval) : pystr :=
  match v with
  | VNone => py "NoneType"
  | VBool _ => py "bool"
  | VNum _ => py "int"
  | VStr _ => py "str"
  | VList _ => py "list"
  | VDict _ => py "dict"
  end.

(** The names of the parameters a call lacks, as the interpreter lists them:
    ['a'], ['a' and 'b'], ['a', 'b', and 'c']. *)
Definition quoted (p : string) : pystr := py "'" ++ py p ++ py "'".

Definition names_listed (l : list string) : pystr :=
  match reverse l with
  | [] => []
  | [a] => quoted a
  | [b; a] => quoted a ++ py " and " ++ quoted b
  | c :: b :: rest =>
      join (py ", ") (quoted <$> reverse rest) ++ py ", " ++ quoted b
      ++ py ", and " ++ quoted c
  end.

(** The keyword arguments of a call [f( **args )] of a function with the
    parameters [params], of which [required] have no default.  [args] must
    be a mapping; the first of its keys that is no parameter is reported;
    then the parameters without default that it does not hold are, all in
    one message. *)
Definition keywords (f : string) (params required : list string) (args : pyval)
    : result (list (pystr * pyval)) :=
  match args with
  | VDict d =>
      match filter (λ kv : pystr * pyval, kv.1 ∉ py <$> params) d with
      | (k, _) :: _ =>
          Raise (Exn TypeError (py f ++ py "() got an unexpected keyword argument '"
                                ++ k ++ py "'"))
      | [] =>
          match filter (λ p, dict_get (py p) d = None) required with
          | [] => Ok d
          | missing =>
              Raise (Exn TypeError
                       (py f ++ py "() missing " ++ str_of_nat (length missing)
                        ++ py " required positional argument"
                        ++ (if decide (length missing = 1%nat) then [] else py "s")
                        ++ py ": " ++ names_listed missing))
          end
      end
  | _ =>
      Raise (Exn TypeError (func_prefix P ++ py f
                            ++ py "() argument after ** must be a mapping, not "
                            ++ type_name args))
  end.

(** The value bound to a parameter: the keyword argument, else the default.
    ([keywords] has checked that the arguments hold every parameter that has
    no default.) *)
Definition parameter (d : list (pystr * pyval)) (p : string) (default_ : option pyval)
    : pyval :=
  match dict_get (py p) d, default_ with
  | Some v, _ => v
  | None, Some v => v
  | None, None => VNone
  end.

(** The [if/elif] chain on [action]: the call it selects, if any. *)
Definition invoke (action args : pyval) : option (M opresult) :=
  if is_str action "list_directory" then Some (
    let* d := reading (λ _, keywords "list_directory" ["path"] [] args) in
    let path_ := parameter d "path" (Some (VStr (py "."))) in
    let* r := reading (λ fs, list_directory fs path_) in
    ret (REntries r))
  else if is_str action "read_file" then Some (
    let* d := reading (λ _, keywords "read_file" ["path"; "encoding"] ["path"] args) in
    let path_ := parameter d "path" None in
    let encoding := parameter d "encoding" (Some (VStr (py "utf-8"))) in
    let* r := reading (λ fs, read_file fs path_ encoding) in
    ret (RStr r))
  else if is_str action "write_file" then Some (
    let* d := reading (λ _,
          keywords "write_file" ["path"; "content"; "encoding"] ["path"; "content"] args) in
    let path_ := parameter d "path" None in
    let content := parameter d "content" None in
    let encoding := parameter d "encoding" (Some (VStr (py "utf-8"))) in
    let* r := write_file path_ content encoding in
    ret (RStr r))
  else if is_str action "create_directory" then Some (
    let* d := reading (λ _, keywords "create_directory" ["path"; "exist_ok"] ["path"] args) in
    let path_ := parameter d "path" None in
    let exist_ok := parameter d "exist_ok" (Some (VBool true)) in
    let* r := create_directory path_ exist_ok in
    ret (RStr r))
  else if is_str action "delete_file" then Some (
    let* d := reading (λ _, keywords "delete_file" ["path"; "recursive"] ["path"] args) in
    let path_ := parameter d "path" None in
    let recursive := parameter d "recursive" (Some (VBool false)) in
    let* r := delete_file path_ recursive in
    ret (RStr r))
  else if is_str action "copy_file" then Some (
    let* d := reading (λ _,
          keywords "copy_file" ["src"; "dst"; "overwrite"] ["src"; "dst"] args) in
    let src := parameter d "src" None in
    let dst := parameter d "dst" None in
    let overwrite := parameter d "overwrite" (Some (VBool true)) in
    let* r := copy_file src dst overwrite in
    ret (RStr r))
  else if is_str action "move_file" then Some (
    let* d := reading (λ _,
          keywords "move_file" ["src"; "dst"; "overwrite"] ["src"; "dst"] args) in
    let src := parameter d "src" None in
    let dst := parameter d "dst" None in
    let overwrite := parameter d "overwrite" (Some (VBool true)) in
    let* r := move_file src dst overwrite in
    ret (RStr r))
  else if is_str action "search_files" then Some (
    let* d := reading (λ _, keywords "search_files" ["path"; "name_contains"] [] args) in
    let path_ := parameter d "path" (Some (VStr (py "."))) in
    let name_contains := parameter d "name_contains" (Some VNone) in
    let* r := reading (λ fs, search_files fs path_ name_contains) in
    ret (RPaths r))
  else if is_str action "search_in_files" then Some (
    let* d := reading (λ _, keywords "search_in_files" ["path"; "text"; "encoding"] [] args) in
    let path_ := parameter d "path" (Some (VStr (py "."))) in
    let text := parameter d "text" (Some (VStr [])) in
    let encoding := parameter d "encoding" (Some (VStr (py "utf-8"))) in
    let* r := reading (λ fs, search_in_files fs path_ text encoding) in
    ret (RHits r))
  else if is_str action "get_file_info" then Some (
    let* d := reading (λ _, keywords "get_file_info" ["path"] ["path"] args) in
    let path_ := parameter d "path" None in
    let* r := reading (λ fs, get_file_info fs path_) in
    ret (RInfo r))
  else None.

(** [ar.get(key, default)], as an f-string shows it; [ar] is a dict when
    the call went through. *)
Definition arg_or (ar : pyval) (key : string) (default_ : pystr) : pystr :=
  match ar with
  | VDict d =>
      match dict_get (py key) d with
      | Some v => str_val P v
      | None => default_
      end
  | _ => default_
  end.

(** ["" if count <= 10 else f" (and {count-10} more)"]. *)
Definition and_more (count : nat) : pystr :=
  if decide (count ≤ 10)%nat then []
  else py " (and " ++ str_of_nat (count - 10) ++ py " more)".

(** [Path(p).name] of the text of a path. *)
Definition basename (p : pystr) : pystr :=
  List.last (filter (λ c, c ≠ [] ∧ c ≠ curdir) (split_on sep p)) [].

Definition is_list (r : opresult) : bool :=
  match r with
  | REntries _ | RPaths _ | RHits _ => true
  | _ => false
  end.

Definition is_dict (r : opresult) : bool :=
  match r with RInfo _ => true | _ => false end.

Definition is_string (r : opresult) : bool :=
  match r with RStr _ => true | _ => false end.

(** A result of a shape the branch cannot handle: Python raises on it.  No
    operation returns such a shape for the action of the branch. *)
Definition wrong_shape : result pystr :=
  Raise (Exn TypeError (py "unexpected result shape")).

(** [summarize(a, ar, r)]. *)
Definition summarize (a ar : pyval) (r : opresult) : result pystr :=
  if is_str a "list_directory" && is_list r then
    match r with
    | REntries l =>
        Ok (py "Found " ++ str_of_nat (length l) ++ py " item(s) in "
            ++ arg_or ar "path" (py ".") ++ py ": "
            ++ join (py ", ")
                 ((λ e, match e_name e with [] => py "?" | n => n end) <$> take 10 l)
            ++ and_more (length l) ++ py ".")
    | _ => wrong_shape
    end
  else if is_str a "search_files" && is_list r then
    match r with
    | RPaths l =>
        Ok (py "Found " ++ str_of_nat (length l) ++ py " file(s) matching '"
            ++ arg_or ar "name_contains" [] ++ py "': "
            ++ join (py ", ") (basename <$> take 10 l)
            ++ and_more (length l) ++ py ".")
    | _ => wrong_shape
    end
  else if is_str a "search_in_files" && is_list r then
    match r with
    | RHits l =>
        Ok (py "Found '" ++ arg_or ar "text" [] ++ py "' in " ++ str_of_nat (length l)
            ++ py " file(s): "
            ++ join (py ", ") ((λ h, basename (hit_path h)) <$> take 10 l)
            ++ and_more (length l) ++ py ".")
    | _ => wrong_shape
    end
  else if is_str a "get_file_info" && is_dict r then
    match r with
    | RInfo e =>
        Ok (e_name e ++ py " is a " ++ (if e_is_dir e then py "folder" else py "file")
            ++ py " (size: "
            ++ match e_size e with Some n => str_of_nat n | None => py "None" end
            ++ py " bytes).")
    | _ => wrong_shape
    end
  else if is_str a "read_file" && is_string r then
    match r with
    | RStr s =>
        Ok (py "Read file successfully. First 200 chars: "
            ++ replace_newlines (take 200 s)
            ++ (if decide (200 < length s)%nat then [8230] else []))
    | _ => wrong_shape
    end
  else
    match r with
    | RStr s => Ok s
    | _ => Ok (json_dumps P r)
    end.

(** [cmd.get("action")]. *)
Definition action_of (cmd : list (pystr * pyval)) : pyval :=
  default VNone (dict_get (py "action") cmd).

(** [cmd.get("args") or {}]. *)
Definition args_of (cmd : list (pystr * pyval)) : pyval :=
  match dict_get (py "args") cmd with
  | Some v => if truthy v then v else VDict []
  | None => VDict []
  end.

(** [nl_command] from line 262 on: [text] is the answer of the planner and
    [cmd] what [_extract_json] made of it ([VNone] when it found no JSON). *)
Definition nl_command (text : pystr) (cmd : pyval) : M pystr :=
  match cmd with
  | VDict d =>
      let action := action_of d in
      let args := args_of d in
      try_except
        (match invoke action args with
         | Some call =>
             let* r := call in
             reading (λ _, summarize action args r)
         | None => ret (py "Unsupported action: " ++ str_val P action)
         end)
        (λ e, ret (py "Execution error: " ++ str_exn e))
  | _ => ret (py "Could not parse model output as JSON command: " ++ take 200 text)
  end.

End Server.

Arguments realpath : simpl never.
Arguments stat : simpl never.
Arguments py : simpl never.

(** * Predicates of the statements *)

(** A path that the file system looks up, whatever it finds: neither its
    text nor one of its names is refused as too long.  The file system of
    the model refuses no lookup, so that [exists_], [is_dir] and [is_file]
    answer on every path; [os.stat] fails with [ENAMETOOLONG] on a path
    outside these limits, an error that [Path.exists()] raises again.  Within
    the limits the two agree. *)
Definition within_limits (P : platform) (t : path) : bool :=
  negb (path_too_long P (str_path t)) && forallb (λ c, negb (name_too_long P c)) t.

(** A component that resolution appends as it is. *)
Definition ordinary (c : pystr) : Prop := c ≠ [] ∧ c ≠ curdir ∧ c ≠ pardir.

(** A canonical path: ordinary components, none of which is a symbolic
    link. *)
Definition canonical (fs : fsys) (p : path) : Prop :=
  Forall ordinary p ∧ ∀ q, q `prefix_of` p → q ≠ [] → is_lnk (fs !! q) = false.

(** The symbolic link stored at a path, if any. *)
Definition link_at (fs : fsys) (p : path) : option pystr :=
  match fs !! p with Some (Lnk t) => Some t | _ => None end.

(** Two filesystems with the same symbolic links. *)
Definition same_links (fs fs' : fsys) : Prop := ∀ p, link_at fs p = link_at fs' p.

(** The state [mkdir(parents=True, exist_ok=True)] leaves on [p]: every
    prefix of [p] is a directory, the rest is as in [fs]. *)
Definition dirs_added (p : path) (fs fs' : fsys) : Prop :=
  ∀ q, fs' !! q = if decide (q `prefix_of` p) then Some Dir else fs !! q.

(** Nothing but directories, or nothing at all, at [p] and above it. *)
Definition only_dirs_on (fs : fsys) (p : path) : Prop :=
  ∀ q, q `prefix_of` p → fs !! q = None ∨ fs !! q = Some Dir.

(** The prefixes of a path, shortest first. *)
Fixpoint prefixes (p : path) : list path :=
  [] :: match p with
        | [] => []
        | c :: p' => (c ::.) <$> prefixes p'
        end.

(** [only_dirs_on] as a test. *)
Definition only_dirs_onb (fs : fsys) (p : path) : bool :=
  forallb (λ q, match fs !! q with None | Some Dir => true | _ => false end)
          (prefixes p).

(** What is left once [t] and everything below it are gone. *)
Definition tree_removed (t : path) (fs fs' : fsys) : Prop :=
  ∀ q, fs' !! q = if decide (t `prefix_of` q) then None else fs !! q.

(** What a [mkdir] on [p] can have done, whether it succeeded or not: made
    directories at prefixes of [p] where there was nothing. *)
Definition grown_on (p : path) (fs fs' : fsys) : Prop :=
  ∀ q, fs' !! q = fs !! q ∨
       (q `prefix_of` p ∧ q ≠ [] ∧ fs !! q = None ∧ fs' !! q = Some Dir).

(** What the loop of [search_in_files] keeps, for a text that is a
    string. *)
Definition holds_text (P : platform) (fs : fsys) (text : pystr) (encoding : pyval) (p : path) : bool :=
  is_file P fs p &&
  match read_text P fs p encoding with
  | Ok content => contains text content
  | Raise _ => false
  end.

(** What the text layer appends for the content [c] to a file that holds
    [old]: the encoded content when the file is empty, the encoded content
    without its byte-order mark when it is not. *)
Definition appended (P : platform) (enc : pyval) (old : list byte) (c : pystr)
    : result (list byte) :=
  match old with
  | [] => str_encode P enc c
  | _ => str_encode_continued P enc c
  end.

(** The names of the operations. *)
Definition catalog : list string :=
  [ "list_directory"; "read_file"; "write_file"; "create_directory"; "delete_file";
    "copy_file"; "move_file"; "search_files"; "search_in_files"; "get_file_info" ]%string.

(** * A concrete platform

    UTF-8 (with and without a byte-order mark) and ASCII codecs, ASCII
    lower-casing: enough of Python to run the operations on concrete
    filesystems. *)

Definition byte_of_N (n : N) : byte := default x00 (Byte.of_N n).

(** The UTF-8 encoding of one code point; surrogates and code points past
    U+10FFFF have none. *)
Definition utf8_encode_char (c : N) : option (list byte) :=
  if c <? 128 then Some [byte_of_N c]
  else if c <? 2048 then
    Some [byte_of_N (192 + c / 64); byte_of_N (128 + c mod 64)]
  else if c <? 65536 then
    if (55296 <=? c) && (c <? 57344) then None
    else Some [byte_of_N (224 + c / 4096); byte_of_N (128 + (c / 64) mod 64);
               byte_of_N (128 + c mod 64)]
  else if c <? 1114112 then
    Some [byte_of_N (240 + c / 262144); byte_of_N (128 + (c / 4096) mod 64);
          byte_of_N (128 + (c / 64) mod 64); byte_of_N (128 + c mod 64)]
  else None.

Fixpoint utf8_encode (s : pystr) : option (list byte) :=
  match s with
  | [] => Some []
  | c :: s' =>
      match utf8_encode_char c, utf8_encode s' with
      | Some b, Some bs => Some (b ++ bs)
      | _, _ => None
      end
  end.

(** The payload of a continuation byte [10xxxxxx]. *)
Definition utf8_cont (b : byte) : option N :=
  let n := Byte.to_N b in
  if (128 <=? n) && (n <? 192) then Some (n - 128) else None.

(** Strict UTF-8 decoding: no overlong forms, no surrogates. *)
Fixpoint utf8_decode (b : list byte) : option pystr :=
  match b with
  | [] => Some []
  | b0 :: r =>
      let n := Byte.to_N b0 in
      if n <? 128 then cons n <$> utf8_decode r
      else if n <? 192 then None
      else if n <? 224 then
        match r with
        | b1 :: r1 =>
            match utf8_cont b1 with
            | Some x1 =>
                let c := (n - 192) * 64 + x1 in
                if c <? 128 then None else cons c <$> utf8_decode r1
            | None => None
            end
        | _ => None
        end
      else if n <? 240 then
        match r with
        | b1 :: b2 :: r2 =>
            match utf8_cont b1, utf8_cont b2 with
            | Some x1, Some x2 =>
                let c := (n - 224) * 4096 + x1 * 64 + x2 in
                if (c <? 2048) || ((55296 <=? c) && (c <? 57344)) then None
                else cons c <$> utf8_decode r2
            | _, _ => None
            end
        | _ => None
        end
      else
        match r with
        | b1 :: b2 :: b3 :: r3 =>
            match utf8_cont b1, utf8_cont b2, utf8_cont b3 with
            | Some x1, Some x2, Some x3 =>
                let c := (n - 240) * 262144 + x1 * 4096 + x2 * 64 + x3 in
                if (c <? 65536) || (1114112 <=? c) then None
                else cons c <$> utf8_decode r3
            | _, _, _ => None
            end
        | _ => None
        end
  end.

Definition ascii_encode (s : pystr) : option (list byte) :=
  if forallb (λ c, c <? 128) s then Some (byte_of_N <$> s) else None.

Definition ascii_decode (b : list byte) : option pystr :=
  if forallb (λ x, Byte.to_N x <? 128) b then Some (Byte.to_N <$> b) else None.

Definition codec_result {A} (o : option A) (what : string) : result A :=
  match o with
  | Some a => Ok a
  | None => Raise (Exn UnicodeError (py what))
  end.

(** The byte-order mark of [utf-8-sig]. *)
Definition utf8_bom : list byte := [xef; xbb; xbf].

(** Encoding, at the start of a stream ([mark]) or further on: [utf-8-sig]
    begins a stream with its mark. *)
Definition posix_encode_at (mark : bool) (encoding : pyval) (s : pystr)
    : result (list byte) :=
  match encoding with
  | VStr e =>
      if bool_decide (e = py "utf-8") then
        codec_result (utf8_encode s) "'utf-8' codec can't encode character"
      else if bool_decide (e = py "utf-8-sig") then
        codec_result ((λ b, if mark then utf8_bom ++ b else b) <$> utf8_encode s)
                     "'utf-8' codec can't encode character"
      else if bool_decide (e = py "ascii") then
        codec_result (ascii_encode s) "'ascii' codec can't encode character"
      else Raise (Exn LookupError (py "unknown encoding: " ++ e))
  | _ => Raise (Exn TypeError (py "encode() argument 'encoding' must be str"))
  end.

Definition posix_encode : pyval → pystr → result (list byte) := posix_encode_at true.

Definition posix_encode_continued : pyval → pystr → result (list byte) :=
  posix_encode_at false.

(** [utf-8-sig] drops a mark that begins the bytes. *)
Definition drop_bom (b : list byte) : list byte :=
  match b with
  | x1 :: x2 :: x3 :: r => if bool_decide ([x1; x2; x3] = utf8_bom) then r else b
  | _ => b
  end.

Definition posix_decode (encoding : pyval) (b : list byte) : result pystr :=
  match encoding with
  | VNone => codec_result (utf8_decode b) "'utf-8' codec can't decode byte"
  | VStr e =>
      if bool_decide (e = py "utf-8") then
        codec_result (utf8_decode b) "'utf-8' codec can't decode byte"
      else if bool_decide (e = py "utf-8-sig") then
        codec_result (utf8_decode (drop_bom b)) "'utf-8' codec can't decode byte"
      else if bool_decide (e = py "ascii") then
        codec_result (ascii_decode b) "'ascii' codec can't decode byte"
      else Raise (Exn LookupError (py "unknown encoding: " ++ e))
  | _ => Raise (Exn TypeError (py "open() argument 'encoding' must be str or None"))
  end.

(** [len(os.fsencode(s))]. *)
Definition utf8_length (s : pystr) : nat :=
  match utf8_encode s with Some b => length b | None => 0%nat end.

Definition ascii_lower (s : pystr) : pystr :=
  (λ c, if (65 <=? c) && (c <=? 90) then c + 32 else c) <$> s.

(** The platform of a server started in [wd] with [FS_ROOT] set to [root],
    on Linux, the module being run as a script (its name is [__main__]). *)
Definition posix (root : option pystr) (wd : path) : platform :=
  {| env_FS_ROOT := root;
     cwd := wd;
     symloop_max := 40%nat;
     str_lower := ascii_lower;
     str_encode := posix_encode;
     str_encode_continued := posix_encode_continued;
     bytes_decode := posix_decode;
     dir_st_size := λ _ _, 4096%nat;
     name_too_long := λ s, (255 <? utf8_length s)%nat;
     path_too_long := λ s, (4095 <? utf8_length s)%nat;
     str_container := λ _, py "[...]";
     json_dumps := λ _, py "{...}";
     func_prefix := py "__main__." |}.

(** The bytes of an ASCII literal. *)
Definition bytes (s : string) : list byte := byte_of_N <$> py s.

(** A root [/srv/root] next to a directory [/srv/root2]:
<<
    /srv/root/a.txt        "hello"
    /srv/root/sub/         (empty)
    /srv/root/docs/b.bin   the byte ff
    /srv/root/docs/Report.md  "x"
    /srv/root2/secret.txt  "secret"
>> *)
Definition srv : platform := posix (Some (py "/srv/root")) [py "srv"; py "root"].

Definition disk : fsys :=
  list_to_map
    [ ([], Dir);
      ([py "srv"], Dir);
      ([py "srv"; py "root"], Dir);
      ([py "srv"; py "root"; py "a.txt"], Reg (bytes "hello"));
      ([py "srv"; py "root"; py "sub"], Dir);
      ([py "srv"; py "root"; py "docs"], Dir);
      ([py "srv"; py "root"; py "docs"; py "b.bin"], Reg [xff]);
      ([py "srv"; py "root"; py "docs"; py "Report.md"], Reg (bytes "x"));
      ([py "srv"; py "root2"], Dir);
      ([py "srv"; py "root2"; py "secret.txt"], Reg (bytes "secret")) ].

(** The same with two symbolic links in the root: [out] to [/etc] and [peer]
    to [../root2]. *)
Definition linked : fsys :=
  <[ [py "srv"; py "root"; py "out"] := Lnk (py "/etc") ]>
  (<[ [py "srv"; py "root"; py "peer"] := Lnk (py "../root2") ]> disk).


(** A root holding [w.txt], a line [a], a carriage return and a line feed,
    and [b]. *)
Definition dos : fsys :=
  list_to_map
    [ ([], Dir);
      ([py "srv"], Dir);
      ([py "srv"; py "root"], Dir);
      ([py "srv"; py "root"; py "w.txt"], Reg [x61; x0d; x0a; x62]) ].

(** A root holding [report1.txt], [REPORT_final.csv] and [notes.md]. *)
Definition reports : fsys :=
  list_to_map
    [ ([], Dir);
      ([py "srv"], Dir);
      ([py "srv"; py "root"], Dir);
      ([py "srv"; py "root"; py "report1.txt"], Reg []);
      ([py "srv"; py "root"; py "REPORT_final.csv"], Reg []);
      ([py "srv"; py "root"; py "notes.md"], Reg []) ].


(** * Predicates of the further statements *)

(** A component without a separator. *)
Definition nosep (c : pystr) : Prop := sep ∉ c.

(** A path next to [base] whose name continues the name of [base], or a
    path below such a one. *)
Definition continues_name (base t : path) : Prop :=
  ∃ x rest, x ≠ [] ∧ base ≠ [] ∧ t = parent base ++ [name base ++ x] ++ rest.

(** No symbolic link at [d] or below it. *)
Definition no_links_below (fs : fsys) (d : path) : Prop :=
  map_Forall (λ (q : path) (i : inode), d `prefix_of` q → is_lnk (Some i) = false) fs.

Global Instance no_links_below_dec fs d : Decision (no_links_below fs d).
Proof. unfold no_links_below. apply _. Defined.

(** The names of all the parameters of the operations. *)
Definition all_parameters : list string :=
  [ "path"; "encoding"; "content"; "exist_ok"; "recursive"; "src"; "dst";
    "overwrite"; "name_contains"; "text" ]%string.

(** * The answer of the planner: [_extract_json]

    The part of [nl_command] between the call of the language model and the
    dispatcher.  [json.loads] is a parameter: [None] stands for any exception
    it raises. *)

(** [c.isspace()]: the code points that [str.strip()] removes. *)
Definition isspace (c : N) : bool :=
  ((9 <=? c) && (c <=? 13)) || ((28 <=? c) && (c <=? 32)) || (c =? 133) || (c =? 160)
  || (c =? 5760) || ((8192 <=? c) && (c <=? 8202)) || (c =? 8232) || (c =? 8233)
  || (c =? 8239) || (c =? 8287) || (c =? 12288).

(** [s.lstrip()], [s.rstrip()], [s.strip()]. *)
Fixpoint lstrip (s : pystr) : pystr :=
  match s with
  | c :: s' => if isspace c then lstrip s' else s
  | [] => []
  end.

Definition rstrip (s : pystr) : pystr := reverse (lstrip (reverse s)).

Definition strip (s : pystr) : pystr := rstrip (lstrip s).

(** The class [[a-zA-Z]]. *)
Definition isletter (c : N) : bool :=
  ((65 <=? c) && (c <=? 90)) || ((97 <=? c) && (c <=? 122)).

Fixpoint skip_letters (s : pystr) : pystr :=
  match s with
  | c :: s' => if isletter c then skip_letters s' else s
  | [] => []
  end.

Definition fence : pystr := [96; 96; 96].

(** [s.endswith(p)]. *)
Definition endswith (s p : pystr) : bool := startswith (reverse s) (reverse p).

(** [re.sub(r"^```[a-zA-Z]*", "", s)]: a fence that opens the text goes,
    with the letters after it. *)
Definition sub_opening_fence (s : pystr) : pystr :=
  if startswith s fence then skip_letters (drop 3 s) else s.

(** [re.sub(r"```$", "", s)]: a fence that closes the text goes; [$] is the
    end of the text, or the place before a line feed that ends it. *)
Definition sub_closing_fence (s : pystr) : pystr :=
  if endswith s fence then take (length s - 3) s
  else if endswith s (fence ++ [10]) then take (length s - 4) s ++ [10]
  else s.

(** The rest of [s] from the first [c] on. *)
Fixpoint from_first (c : N) (s : pystr) : option pystr :=
  match s with
  | [] => None
  | x :: s' => if x =? c then Some s else from_first c s'
  end.

(** [s] up to the last [c]. *)
Definition upto_last (c : N) (s : pystr) : option pystr :=
  reverse <$> from_first c (reverse s).

(** [re.search(r"\{[\s\S]*\}", s)]: from the first opening brace to the last
    closing brace after it. *)
Definition brace_span (s : pystr) : option pystr :=
  match from_first 123 s with
  | Some (b :: t) => cons b <$> upto_last 125 t
  | _ => None
  end.

(** [_extract_json(s)]; Python's [None] is [VNone]. *)
Definition _extract_json (json_loads : pystr → option pyval) (s : pystr) : pyval :=
  let s := strip s in
  let s := strip (sub_opening_fence s) in
  let s := strip (sub_closing_fence s) in
  match json_loads s with
  | Some v => v
  | None =>
      match brace_span s with
      | Some m => default VNone (json_loads m)
      | None => VNone
      end
  end.

(** [nl_command] from line 243 on: from the answer of the planner to the
    summary. *)
Definition nl_command_answer (json_loads : pystr → option pyval) (P : platform)
    (text : pystr) : M pystr :=
  nl_command P text (_extract_json json_loads text).

(** A text with a white space at neither end. *)
Definition tight (s : pystr) : Prop := lstrip s = s ∧ lstrip (reverse s) = reverse s.

(** [m] is a piece of [s]. *)
Definition piece_of (m s : pystr) : Prop := ∃ a b, s = a ++ m ++ b.

(** * The planner of the chat application ([llm_handler.py])

    [process_query] from the answer of the language model on: the content of
    the answer is a string, and [json.loads] is a parameter. *)

(** [self.available_tools]. *)
Definition available_tools : list string :=
  [ "list_directory"; "read_file"; "write_file"; "create_directory";
    "delete_file"; "search_files"; "search_in_files"; "get_file_info";
    "copy_file"; "move_file" ]%string.

(** [s.find(c)]: the index of the first [c], or [-1]. *)
Fixpoint find_from (c : N) (s : pystr) (i : Z) : Z :=
  match s with
  | [] => (-1)%Z
  | x :: s' => if x =? c then i else find_from c s' (i + 1)%Z
  end.

Definition find (c : N) (s : pystr) : Z := find_from c s 0.

(** [s.rfind(c)]: the index of the last [c], or [-1]. *)
Fixpoint rfind_from (c : N) (s : pystr) (i found : Z) : Z :=
  match s with
  | [] => found
  | x :: s' => rfind_from c s' (i + 1)%Z (if x =? c then i else found)
  end.

Definition rfind (c : N) (s : pystr) : Z := rfind_from c s 0 (-1).

(** [s[i:j]] for indices that are not negative. *)
Definition slice (s : pystr) (i j : Z) : pystr :=
  drop (Z.to_nat i) (take (Z.to_nat j) s).

(** The outcome of [json.loads]: a value, a [JSONDecodeError], or another
    exception. *)
Inductive loaded :=
  | Loaded (v : pyval)
  | JSONDecodeError (msg : pystr)
  | OtherError (msg : pystr).

(** [return "error", {}, explanation]. *)
Definition error_reply (explanation : pystr) : pyval * pyval * pyval :=
  (VStr (py "error"), VDict [], VStr explanation).

(** What [process_query] makes of the outcome of [json.loads]: the tool, its
    arguments and the explanation.  (A parsed value that is not a dict has no
    [get]: the [AttributeError] ends in the outer handler.) *)
Definition tool_call (P : platform) (l : loaded) : pyval * pyval * pyval :=
  match l with
  | Loaded (VDict d) =>
      let tool_name := default (VStr []) (dict_get (py "tool") d) in
      let arguments := default (VDict []) (dict_get (py "arguments") d) in
      let explanation := default (VStr []) (dict_get (py "explanation") d) in
      if negb (existsb (is_str tool_name) available_tools) then
        error_reply (py "Invalid tool '" ++ str_val P tool_name
                     ++ py "'. Available tools: "
                     ++ join (py ", ") (py <$> available_tools))
      else (tool_name, arguments, explanation)
  | Loaded _ =>
      error_reply (py "Error processing query with Gemini: "
                   ++ py "object has no attribute 'get'")
  | JSONDecodeError msg => error_reply (py "Failed to parse JSON response: " ++ msg)
  | OtherError msg => error_reply (py "Error processing query with Gemini: " ++ msg)
  end.

(** [process_query], from [response.content] on. *)
Definition process_query (P : platform) (json_loads : pystr → loaded)
    (content : pystr) : pyval * pyval * pyval :=
  let response_text := strip content in
  let start_idx := find 123 response_text in
  let end_idx := (rfind 125 response_text + 1)%Z in
  if negb (start_idx =? -1)%Z && negb (end_idx =? -1)%Z then
    tool_call P (json_loads (slice response_text start_idx end_idx))
  else error_reply (py "Could not find JSON response in LLM output").

(** * Strings *)

Lemma startswith_spec (s p : pystr) :
  startswith s p = true ↔ ∃ b, s = p ++ b.
Proof.
  revert s. induction p as [|a p IH]; intros s; simpl.
  - split; [by exists s|done].
  - destruct s as [|c s].
    + split; [done|]. by intros [b Hb].
    + rewrite andb_true_iff, N.eqb_eq, IH. split.
      * intros [-> [b ->]]. by exists b.
      * intros [b [= -> ->]]. split; [done|by exists b].
Qed.

(** [contains] is the literal substring test. *)
Lemma contains_spec (needle hay : pystr) :
  contains needle hay = true ↔ ∃ a b, hay = a ++ needle ++ b.
Proof.
  induction hay as [|x hay IH]; simpl; rewrite orb_true_iff, startswith_spec.
  - split.
    + intros [[b Hb]|?]; [|done]. by exists [], b.
    + intros (a & b & Hab). left. exists b.
      symmetry in Hab. apply app_eq_nil in Hab as [-> Hab]. done.
  - rewrite IH. split.
    + intros [[b Hb]|(a & b & ->)]; [by exists [], b|by exists (x :: a), b].
    + intros ([|y a] & b & Hab); [left; by exists b|].
      right. injection Hab as -> ->. by exists a, b.
Qed.

Lemma contains_nil (hay : pystr) : contains [] hay = true.
Proof. apply contains_spec. by exists [], hay. Qed.

(** * Properties of path resolution *)

Section Resolution.

Context (P : platform).

Lemma realpath_nil (n : nat) (fs : fsys) cur : realpath n fs cur [] = Some cur.
Proof. by destruct n. Qed.

Lemma realpath_cons (n : nat) (fs : fsys) cur c rest :
  realpath n fs cur (c :: rest) =
    if bool_decide (c = [] ∨ c = curdir) then realpath n fs cur rest
    else if bool_decide (c = pardir) then realpath n fs (parent cur) rest
    else match fs !! (cur ++ [c]) with
         | Some (Lnk t) =>
             match n with
             | O => None
             | S n' => realpath n' fs (if is_absolute t then [] else cur)
                                (split_on sep t ++ rest)
             end
         | _ => realpath n fs (cur ++ [c]) rest
         end.
Proof. by destruct n. Qed.

Lemma canonical_nil fs : canonical fs [].
Proof.
  split; [constructor|]. intros q Hq Hne.
  apply prefix_nil_inv in Hq. congruence.
Qed.

Lemma parent_snoc (p : path) c : parent (p ++ [c]) = p.
Proof. unfold parent. apply removelast_last. Qed.

Lemma name_snoc (p : path) c : name (p ++ [c]) = c.
Proof. unfold name. apply last_last. Qed.

Lemma parent_prefix (p : path) : parent p `prefix_of` p.
Proof.
  destruct p as [|c p _] using rev_ind; [done|].
  rewrite parent_snoc. by apply prefix_app_r.
Qed.

Lemma path_snoc_inv (p : path) : p ≠ [] → p = parent p ++ [name p].
Proof.
  destruct p as [|c p _] using rev_ind; [done|].
  intros _. by rewrite parent_snoc, name_snoc.
Qed.

Lemma prefix_snoc_inv (q p : path) c :
  q `prefix_of` p ++ [c] → q = p ++ [c] ∨ q `prefix_of` p.
Proof.
  intros [k Hk]. destruct k as [|x k _] using rev_ind.
  - left. by rewrite app_nil_r in Hk.
  - right. rewrite app_assoc in Hk. apply app_inj_tail in Hk as [-> _].
    by apply prefix_app_r.
Qed.

Lemma canonical_prefix fs (q p : path) :
  canonical fs p → q `prefix_of` p → canonical fs q.
Proof.
  intros [Ho Hl] Hq. split.
  - destruct Hq as [k ->]. by apply Forall_app in Ho as [? _].
  - intros r Hr. apply Hl. by etrans.
Qed.

Lemma canonical_parent fs p : canonical fs p → canonical fs (parent p).
Proof. intros H. eapply canonical_prefix; [done|apply parent_prefix]. Qed.

Lemma canonical_snoc fs p c :
  canonical fs p → ordinary c → is_lnk (fs !! (p ++ [c])) = false →
  canonical fs (p ++ [c]).
Proof.
  intros [Ho Hl] Hc Hn. split.
  - apply Forall_app. split; [done|by constructor].
  - intros q [->|Hq]%prefix_snoc_inv; auto.
Qed.

Lemma is_lnk_false_match {A} (o : option inode) (f : pystr → A) (a : A) :
  is_lnk o = false →
  match o with Some (Lnk t) => f t | _ => a end = a.
Proof. by destruct o as [[]|]. Qed.

(** Resolution ends on a canonical path. *)
Lemma realpath_canonical (n : nat) fs : ∀ rest cur p,
  realpath n fs cur rest = Some p → canonical fs cur → canonical fs p.
Proof.
  induction n as [|n IHn];
    (induction rest as [|c rest IH]; intros cur p;
     [rewrite realpath_nil; by intros [= ->]|]);
    rewrite realpath_cons; repeat case_bool_decide; eauto using canonical_parent.
  - destruct (fs !! (cur ++ [c])) as [[| |t]|] eqn:E; try done;
      intros Hr Hc; apply (IH _ _ Hr); apply canonical_snoc; rewrite ?E;
      try done; unfold ordinary; naive_solver.
  - destruct (fs !! (cur ++ [c])) as [[| |t]|] eqn:E.
    2,1,4: intros Hr Hc; apply (IH _ _ Hr); apply canonical_snoc; rewrite ?E;
      try done; unfold ordinary; naive_solver.
    intros Hr Hc. apply (IHn _ _ _ Hr).
    destruct (is_absolute t); [apply canonical_nil|done].
Qed.

(** A canonical path resolves to itself. *)
Lemma realpath_id (n : nat) fs : ∀ rest cur,
  canonical fs (cur ++ rest) → realpath n fs cur rest = Some (cur ++ rest).
Proof.
  induction rest as [|c rest IH]; intros cur Hc.
  - by rewrite realpath_nil, app_nil_r.
  - rewrite realpath_cons.
    assert (ordinary c) as (Hc1 & Hc2 & Hc3).
    { destruct Hc as [Ho _]. apply Forall_app in Ho as [_ Ho]. by inv Ho. }
    rewrite bool_decide_eq_false_2 by (by intros [?|?]).
    rewrite bool_decide_eq_false_2 by done.
    rewrite is_lnk_false_match.
    + rewrite (IH (cur ++ [c])); by rewrite <-app_assoc.
    + apply Hc; [|by destruct cur].
      exists rest. by rewrite <-app_assoc.
Qed.

Lemma stat_canonical fs p : canonical fs p → stat P fs p = fs !! p.
Proof.
  intros Hc. unfold stat. by rewrite (realpath_id _ _ p []).
Qed.

Lemma same_links_refl fs : same_links fs fs.
Proof. done. Qed.

Lemma same_links_trans fs1 fs2 fs3 :
  same_links fs1 fs2 → same_links fs2 fs3 → same_links fs1 fs3.
Proof. intros H1 H2 p. by rewrite H1. Qed.

Lemma same_links_insert fs p i :
  link_at fs p = None → (∀ t, i ≠ Lnk t) → same_links fs (<[p := i]> fs).
Proof.
  intros Hp Hi q. unfold link_at in *.
  destruct (decide (p = q)) as [<-|].
  - rewrite lookup_insert_eq. rewrite Hp. destruct i; naive_solver.
  - by rewrite lookup_insert_ne.
Qed.

Lemma same_links_canonical fs fs' p :
  same_links fs fs' → canonical fs p → canonical fs' p.
Proof.
  intros Hl [Ho Hc]. split; [done|]. intros q Hq Hne.
  specialize (Hc q Hq Hne). specialize (Hl q). unfold link_at in Hl.
  destruct (fs !! q) as [[]|], (fs' !! q) as [[]|]; naive_solver.
Qed.

(** Resolution looks at the filesystem only to find symbolic links. *)
Lemma realpath_same_links (n : nat) fs fs' :
  same_links fs fs' →
  ∀ rest cur, realpath n fs cur rest = realpath n fs' cur rest.
Proof.
  intros Hl. induction n as [|n IHn];
    (induction rest as [|c rest IH]; intros cur;
     [by rewrite !realpath_nil|]);
    rewrite !realpath_cons; repeat case_bool_decide; auto;
    specialize (Hl (cur ++ [c])); unfold link_at in Hl;
    destruct (fs !! (cur ++ [c])) as [[]|], (fs' !! (cur ++ [c])) as [[]|];
    naive_solver.
Qed.

Lemma resolve_same_links fs fs' start s :
  same_links fs fs' → resolve P fs start s = resolve P fs' start s.
Proof. intros Hl. unfold resolve. by rewrite (realpath_same_links _ fs fs'). Qed.

Lemma _resolve_safe_same_links fs fs' v :
  same_links fs fs' → _resolve_safe P fs v = _resolve_safe P fs' v.
Proof.
  intros Hl. unfold _resolve_safe, _get_fs_root.
  rewrite (resolve_same_links fs fs') by done.
  destruct (resolve P fs' _ _); [|done]. destruct v; try done.
  by rewrite (resolve_same_links fs fs').
Qed.

Lemma resolve_canonical fs start s p :
  resolve P fs start s = Ok p → canonical fs p.
Proof.
  unfold resolve. case_bool_decide; [done|].
  destruct (realpath _ _ _ _) eqn:E; [|done]. intros [= <-].
  eapply realpath_canonical; [done|apply canonical_nil].
Qed.

(** What [_resolve_safe] returns is canonical. *)
Lemma _resolve_safe_canonical fs v p :
  _resolve_safe P fs v = Ok p → canonical fs p.
Proof.
  unfold _resolve_safe. destruct (_get_fs_root P fs); [|done].
  destruct v; try done.
  destruct (resolve P fs _ s) eqn:E; [|done].
  destruct (negb _); [done|]. intros [= <-]. by eapply resolve_canonical.
Qed.

End Resolution.

(** The codecs of the concrete platform on ["hé€😀"], and bytes that are not
    UTF-8. *)
Example utf8_codec :
  utf8_encode [104; 233; 8364; 128512] =
    Some [x68; xc3; xa9; xe2; x82; xac; xf0; x9f; x98; x80] ∧
  utf8_decode [x68; xc3; xa9; xe2; x82; xac; xf0; x9f; x98; x80] =
    Some [104; 233; 8364; 128512] ∧
  utf8_decode [xff] = None ∧
  utf8_decode [xc0; x80] = None ∧
  utf8_decode [xed; xa0; x80] = None ∧
  utf8_encode [55296] = None.
Proof. repeat split. Qed.

Example universal_newlines_crlf :
  universal_newlines (py "a" ++ [13; 10] ++ py "b" ++ [13] ++ py "c" ++ [10])
    = py "a" ++ [10] ++ py "b" ++ [10] ++ py "c" ++ [10].
Proof. reflexivity. Qed.

(** * The codecs of the concrete platform *)

Lemma to_N_byte_of_N (n : N) : n < 256 → Byte.to_N (byte_of_N n) = n.
Proof.
  intros Hn. unfold byte_of_N. destruct (Byte.of_N n) as [b|] eqn:E.
  - by apply Byte.to_of_N.
  - apply Byte.of_N_None_iff in E. lia.
Qed.

Lemma utf8_cont_byte (x : N) : x < 64 → utf8_cont (byte_of_N (128 + x)) = Some x.
Proof.
  intros Hx. unfold utf8_cont. rewrite to_N_byte_of_N by lia.
  assert ((128 <=? 128 + x) && (128 + x <? 192) = true) as ->.
  { apply andb_true_iff. split; [apply N.leb_le|apply N.ltb_lt]; lia. }
  f_equal. lia.
Qed.

(** Quotient and remainder of a division by a constant, for [lia]. *)
Ltac euclid c k :=
  let H1 := fresh in let H2 := fresh in
  pose proof (N.div_mod' c k) as H1;
  assert (c mod k < k) as H2 by (apply N.mod_lt; lia);
  generalize dependent (c / k); generalize dependent (c mod k); intros.

Ltac euclid_lia :=
  repeat match goal with
  | |- context [?x / 262144] =>
      replace (x / 262144) with (x / 64 / 64 / 64) by (by rewrite !N.Div0.div_div)
  | |- context [?x / 4096] =>
      replace (x / 4096) with (x / 64 / 64) by (by rewrite N.Div0.div_div)
  end;
  repeat match goal with
  | |- context [?x / 64] => euclid x 64
  | |- context [?x mod 64] => euclid x 64
  | H : context [?x / 64] |- _ => euclid x 64
  | H : context [?x mod 64] |- _ => euclid x 64
  end;
  lia.

Ltac decide_ltb :=
  repeat match goal with
  | |- context [?a <? ?b] =>
      first [ replace (a <? b) with true by (symmetry; apply N.ltb_lt; euclid_lia)
            | replace (a <? b) with false by (symmetry; apply N.ltb_ge; euclid_lia) ]
  | |- context [?a <=? ?b] =>
      first [ replace (a <=? b) with true by (symmetry; apply N.leb_le; euclid_lia)
            | replace (a <=? b) with false by (symmetry; apply N.leb_gt; euclid_lia) ]
  end.

(** Decoding reads back the code point that was encoded. *)
Lemma utf8_decode_char (c : N) (b r : list byte) :
  utf8_encode_char c = Some b →
  utf8_decode (b ++ r) = cons c <$> utf8_decode r.
Proof.
  unfold utf8_encode_char. intros Hb.
  destruct (c <? 128) eqn:E1; [apply N.ltb_lt in E1|apply N.ltb_ge in E1].
  { injection Hb as <-. cbn [app utf8_decode].
    rewrite to_N_byte_of_N by lia. by decide_ltb. }
  destruct (c <? 2048) eqn:E2; [apply N.ltb_lt in E2|apply N.ltb_ge in E2].
  { injection Hb as <-. cbn [app utf8_decode].
    rewrite to_N_byte_of_N by euclid_lia. rewrite utf8_cont_byte by euclid_lia.
    decide_ltb. cbv zeta.
    replace ((192 + c / 64 - 192) * 64 + c mod 64) with c by euclid_lia.
    by decide_ltb. }
  destruct (c <? 65536) eqn:E3; [apply N.ltb_lt in E3|apply N.ltb_ge in E3].
  { destruct ((55296 <=? c) && (c <? 57344)) eqn:E4; [done|].
    injection Hb as <-. cbn [app utf8_decode].
    rewrite to_N_byte_of_N by euclid_lia. rewrite !utf8_cont_byte by euclid_lia.
    decide_ltb. cbv zeta.
    replace ((224 + c / 4096 - 224) * 4096 + (c / 64) mod 64 * 64 + c mod 64)
      with c by euclid_lia.
    rewrite E4. by decide_ltb. }
  destruct (c <? 1114112) eqn:E5; [apply N.ltb_lt in E5|done].
  injection Hb as <-. cbn [app utf8_decode].
  rewrite to_N_byte_of_N by euclid_lia. rewrite !utf8_cont_byte by euclid_lia.
  decide_ltb. cbv zeta.
  replace ((240 + c / 262144 - 240) * 262144 + (c / 4096) mod 64 * 4096
           + (c / 64) mod 64 * 64 + c mod 64) with c by euclid_lia.
  by decide_ltb.
Qed.

Lemma utf8_decode_encode (s : pystr) (b : list byte) :
  utf8_encode s = Some b → utf8_decode b = Some s.
Proof.
  revert b. induction s as [|c s IH]; intros b; simpl.
  - by intros [= <-].
  - destruct (utf8_encode_char c) as [bc|] eqn:Ec; [|done].
    destruct (utf8_encode s) as [bs|]; [|done]. intros [= <-].
    rewrite (utf8_decode_char c bc bs Ec), (IH bs eq_refl). done.
Qed.

Lemma utf8_encode_app (s1 s2 : pystr) (b1 b2 : list byte) :
  utf8_encode s1 = Some b1 → utf8_encode s2 = Some b2 →
  utf8_encode (s1 ++ s2) = Some (b1 ++ b2).
Proof.
  revert b1. induction s1 as [|c s1 IH]; intros b1; simpl.
  - by intros [= <-].
  - destruct (utf8_encode_char c) as [bc|]; [|done].
    destruct (utf8_encode s1) as [bs|]; [|done]. intros [= <-] H2.
    rewrite (IH bs eq_refl H2). by rewrite app_assoc.
Qed.

Lemma ascii_decode_encode (s : pystr) (b : list byte) :
  ascii_encode s = Some b → ascii_decode b = Some s.
Proof.
  unfold ascii_encode, ascii_decode.
  destruct (forallb _ s) eqn:E; [|done]. intros [= <-].
  rewrite forallb_forall in E.
  assert (∀ c, c ∈ s → c < 128) as Hs.
  { intros c Hc. apply N.ltb_lt, E. by apply list_elem_of_In. }
  clear E.
  assert (Byte.to_N <$> (byte_of_N <$> s) = s) as Hid.
  { induction s as [|c s IH]; [done|]. cbn [fmap list_fmap].
    rewrite to_N_byte_of_N.
    - rewrite IH; [done|]. intros x Hx. apply Hs. by right.
    - pose proof (Hs c ltac:(left)). lia. }
  rewrite Hid.
  assert (forallb (λ x, Byte.to_N x <? 128) (byte_of_N <$> s) = true) as ->; [|done].
  apply forallb_forall. intros x Hx. apply list_elem_of_In in Hx.
  apply list_elem_of_fmap in Hx as (c & -> & Hc).
  pose proof (Hs c Hc). rewrite to_N_byte_of_N by lia. by apply N.ltb_lt.
Qed.

Lemma ascii_encode_app (s1 s2 : pystr) (b1 b2 : list byte) :
  ascii_encode s1 = Some b1 → ascii_encode s2 = Some b2 →
  ascii_encode (s1 ++ s2) = Some (b1 ++ b2).
Proof.
  unfold ascii_encode. rewrite forallb_app.
  destruct (forallb _ s1); [|done]. destruct (forallb _ s2); [|done].
  intros [= <-] [= <-]. by rewrite fmap_app.
Qed.

(** Under the codecs of the concrete platform, what [write_file] leaves of
    two contents, the second written by the text layer after the first,
    decodes to the first followed by the second. *)
Lemma posix_text_layer_decodes root wd (e : string) (c1 c2 : pystr) (b1 w2 : list byte) :
  str_encode (posix root wd) (VStr (py e)) c1 = Ok b1 →
  appended (posix root wd) (VStr (py e)) b1 c2 = Ok w2 →
  bytes_decode (posix root wd) (VStr (py e)) (b1 ++ w2) = Ok (c1 ++ c2).
Proof.
  unfold appended. cbn [str_encode str_encode_continued bytes_decode posix].
  unfold posix_encode, posix_encode_continued, posix_encode_at, posix_decode.
  case_bool_decide as E1.
  - intros H1 H2.
    destruct (utf8_encode c1) as [u1|] eqn:Eu1; [|done]. injection H1 as <-.
    assert (utf8_encode c2 = Some w2) as Eu2.
    { destruct u1, (utf8_encode c2); simpl in H2; congruence. }
    by rewrite (utf8_decode_encode _ _ (utf8_encode_app _ _ _ _ Eu1 Eu2)).
  - case_bool_decide as E2.
    + intros H1 H2.
      destruct (utf8_encode c1) as [u1|] eqn:Eu1; [|done]. injection H1 as <-.
      assert (utf8_encode c2 = Some w2) as Eu2.
      { simpl in H2. destruct (utf8_encode c2); simpl in H2; congruence. }
      change (drop_bom (_ ++ w2)) with (u1 ++ w2).
      by rewrite (utf8_decode_encode _ _ (utf8_encode_app _ _ _ _ Eu1 Eu2)).
    + case_bool_decide as E3; [|done].
      intros H1 H2.
      destruct (ascii_encode c1) as [u1|] eqn:Eu1; [|done]. injection H1 as <-.
      assert (ascii_encode c2 = Some w2) as Eu2.
      { destruct u1, (ascii_encode c2); simpl in H2; congruence. }
      by rewrite (ascii_decode_encode _ _ (ascii_encode_app _ _ _ _ Eu1 Eu2)).
Qed.

Lemma disk_wf : wf disk.
Proof. apply (bool_decide_unpack _). by vm_compute. Qed.

(** * The path resolver *)

Section PathResolver.

Context (P : platform).

Lemma startswith_app (a b : pystr) : startswith (a ++ b) a = true.
Proof. induction a as [|x a IH]; [by destruct b|]. simpl. by rewrite N.eqb_refl. Qed.

Lemma str_path_app (p k : path) :
  p ≠ [] → str_path (p ++ k) = str_path p ++ concat ((λ c, sep :: c) <$> k).
Proof.
  intros Hp. unfold str_path. destruct p as [|c p]; [done|].
  simpl. by rewrite fmap_app, concat_app, <-app_assoc.
Qed.

(** A path inside the root passes the textual check. *)
Lemma startswith_within (base target : path) :
  base `prefix_of` target → startswith (str_path target) (str_path base) = true.
Proof.
  intros [k ->]. destruct base as [|c base].
  - by destruct k.
  - rewrite str_path_app by done. apply startswith_app.
Qed.

(** For every path that stays within the root, [_resolve_safe] succeeds. *)
Lemma _resolve_safe_within fs s base target :
  _get_fs_root P fs = Ok base →
  resolve P fs (if is_absolute s then [] else base) s = Ok target →
  base `prefix_of` target →
  _resolve_safe P fs (VStr s) = Ok target.
Proof.
  intros Hb Ht Hin. unfold _resolve_safe. rewrite Hb, Ht.
  by rewrite startswith_within.
Qed.

(** It fails with the escape error exactly when the text of the target does
    not start with the text of the root. *)
Lemma _resolve_safe_escape fs s base target :
  _get_fs_root P fs = Ok base →
  resolve P fs (if is_absolute s then [] else base) s = Ok target →
  _resolve_safe P fs (VStr s) =
    (if startswith (str_path target) (str_path base) then Ok target
     else Raise (Exn ValueError (py "Path escapes FS_ROOT: " ++ str_path target))).
Proof.
  intros Hb Ht. unfold _resolve_safe. rewrite Hb, Ht.
  by destruct (startswith _ _).
Qed.

(** A path next to the root whose name continues the name of the root passes
    the textual check as well. *)
Lemma startswith_sibling (base rest : path) (c x : pystr) :
  startswith (str_path (base ++ [c ++ x] ++ rest)) (str_path (base ++ [c])) = true.
Proof.
  apply startswith_spec. unfold str_path.
  destruct (base ++ [c ++ x] ++ rest) eqn:E1; [by destruct base|]. rewrite <-E1.
  destruct (base ++ [c]) eqn:E2; [by destruct base|]. rewrite <-E2.
  rewrite !fmap_app, !concat_app. simpl. rewrite app_nil_r.
  eexists. rewrite <-!app_assoc. simpl. by rewrite <-app_assoc.
Qed.

Lemma _resolve_safe_accepts_sibling fs s (base rest : path) (c x : pystr) :
  _get_fs_root P fs = Ok (base ++ [c]) →
  resolve P fs (if is_absolute s then [] else base ++ [c]) s
    = Ok (base ++ [c ++ x] ++ rest) →
  _resolve_safe P fs (VStr s) = Ok (base ++ [c ++ x] ++ rest).
Proof.
  intros Hb Ht. rewrite (_resolve_safe_escape fs s _ _ Hb Ht).
  by rewrite startswith_sibling.
Qed.

End PathResolver.

(** What the check does stop: [..] past the root, an absolute path elsewhere,
    a symbolic link that leads elsewhere. *)
Example _resolve_safe_rejects :
  _resolve_safe srv disk (VStr (py "../../etc/passwd")) =
    Raise (Exn ValueError (py "Path escapes FS_ROOT: /etc/passwd")) ∧
  _resolve_safe srv disk (VStr (py "/etc/passwd")) =
    Raise (Exn ValueError (py "Path escapes FS_ROOT: /etc/passwd")) ∧
  _resolve_safe srv linked (VStr (py "out/passwd")) =
    Raise (Exn ValueError (py "Path escapes FS_ROOT: /etc/passwd")).
Proof. split; [reflexivity|split; reflexivity]. Qed.

(** What it lets through. *)
Example _resolve_safe_accepts :
  _resolve_safe srv disk (VStr (py "docs/../a.txt")) = Ok [py "srv"; py "root"; py "a.txt"] ∧
  _resolve_safe srv disk (VStr (py "/srv/root/docs")) = Ok [py "srv"; py "root"; py "docs"] ∧
  _resolve_safe srv linked (VStr (py "peer/secret.txt")) =
    Ok [py "srv"; py "root2"; py "secret.txt"].
Proof. split; [reflexivity|split; reflexivity]. Qed.

(** C1, on the code: with the root [/srv/root], the relative path
    [../root2/secret.txt] and the absolute path [/srv/root2/secret.txt]
    both resolve to [/srv/root2/secret.txt], which lies outside the root, and
    [_resolve_safe] returns it instead of failing: the check compares the
    texts of the two paths, and ["/srv/root2/secret.txt"] starts with
    ["/srv/root"].  [read_file] then returns the content of that file. *)
Theorem _resolve_safe_sibling_escapes :
  let root := [py "srv"; py "root"] in
  let outside := [py "srv"; py "root2"; py "secret.txt"] in
  _get_fs_root srv disk = Ok root ∧
  ¬ root `prefix_of` outside ∧
  _resolve_safe srv disk (VStr (py "../root2/secret.txt")) = Ok outside ∧
  _resolve_safe srv disk (VStr (py "/srv/root2/secret.txt")) = Ok outside ∧
  read_file srv disk (VStr (py "../root2/secret.txt")) (VStr (py "utf-8"))
    = Ok (py "secret").
Proof.
  split; [reflexivity|]. split; [|split; [reflexivity|split; reflexivity]].
  intros [k Hk]. discriminate Hk.
Qed.

(** * Well-formed filesystems and [mkdir] *)

Section Mkdir.

Context (P : platform).

Lemma wf_lookup fs (p : path) c x :
  wf fs → fs !! (p ++ [c]) = Some x → valid_name c ∧ fs !! p = Some Dir.
Proof.
  intros [_ Hwf] Hp. specialize (Hwf _ _ Hp). unfold wf_entry in Hwf.
  rewrite name_snoc, parent_snoc in Hwf. by destruct (p ++ [c]) eqn:E; [destruct p|].
Qed.

(** Whatever exists lives below directories only. *)
Lemma wf_ancestors fs : wf fs → ∀ (p q : path) x,
  fs !! p = Some x → q `prefix_of` p → q ≠ p → fs !! q = Some Dir.
Proof.
  intros Hwf. induction p as [|c p IH] using rev_ind; intros q x Hp Hq Hne.
  - apply prefix_nil_inv in Hq. congruence.
  - apply prefix_snoc_inv in Hq as [->|Hq]; [done|].
    apply (wf_lookup _ _ _ _ Hwf) in Hp as [_ Hp].
    destruct (decide (q = p)) as [->|]; [done|]. by eapply IH.
Qed.

Lemma valid_name_ordinary c : valid_name c → ordinary c.
Proof. intros (? & ? & ? & _). by repeat split. Qed.

Lemma wf_ordinary fs : wf fs → ∀ (p : path) x, fs !! p = Some x → Forall ordinary p.
Proof.
  intros Hwf. induction p as [|c p IH] using rev_ind; intros x Hp; [constructor|].
  pose proof (wf_lookup _ _ _ _ Hwf Hp) as [Hc Hd].
  apply Forall_app. split; [by eapply IH|]. constructor; [|constructor].
  by apply valid_name_ordinary.
Qed.

(** In a well-formed filesystem the parent of anything that exists is
    canonical. *)
Lemma wf_canonical_parent fs (p : path) x :
  wf fs → fs !! p = Some x → canonical fs (parent p).
Proof.
  intros Hwf Hp. destruct p as [|c p _] using rev_ind; [apply canonical_nil|].
  rewrite parent_snoc. pose proof (wf_lookup _ _ _ _ Hwf Hp) as [_ Hd]. split.
  - by eapply wf_ordinary.
  - intros q Hq _. destruct (decide (q = p)) as [->|]; [by rewrite Hd|].
    by rewrite (wf_ancestors _ Hwf p q Dir).
Qed.

Lemma wf_canonical fs (p : path) x :
  wf fs → fs !! p = Some x → (∀ t, x ≠ Lnk t) → canonical fs p.
Proof.
  intros Hwf Hp Hx. destruct p as [|c p _] using rev_ind; [apply canonical_nil|].
  apply canonical_snoc.
  - rewrite <-(parent_snoc p c). by eapply wf_canonical_parent.
  - apply valid_name_ordinary. by eapply wf_lookup.
  - rewrite Hp. destruct x; naive_solver.
Qed.

Lemma is_dir_canonical fs p :
  canonical fs p → is_dir P fs p = bool_decide (fs !! p = Some Dir).
Proof.
  intros Hc. unfold is_dir. rewrite stat_canonical by done.
  case_bool_decide as H; [by rewrite H|]. by destruct (fs !! p) as [[]|].
Qed.

Lemma exists_canonical fs p :
  canonical fs p → exists_ P fs p = bool_decide (is_Some (fs !! p)).
Proof.
  intros Hc. unfold exists_. rewrite stat_canonical by done.
  destruct (fs !! p); [by rewrite bool_decide_eq_true_2|].
  rewrite bool_decide_eq_false_2; [done|]. by intros [? ?].
Qed.

Lemma is_file_canonical fs p :
  canonical fs p →
  is_file P fs p = match fs !! p with Some (Reg _) => true | _ => false end.
Proof. intros Hc. unfold is_file. by rewrite stat_canonical. Qed.

Lemma mkdir_parents_cons c rq exist_ok :
  mkdir_parents P (c :: rq) exist_ok =
    try_except (os_mkdir (reverse (c :: rq))) (λ e,
      if decide (kind e = FileNotFoundError) then
        (mkdir_parents P rq true ;; mkdir_single P (reverse (c :: rq)) exist_ok)
      else mkdir_exists P (reverse (c :: rq)) exist_ok e).
Proof. done. Qed.

(** A directory that is there already: [mkdir] leaves the filesystem as it
    is. *)
Lemma mkdir_present fs p :
  canonical fs p → fs !! p = Some Dir → mkdir P p true true fs = (Ok (), fs).
Proof.
  intros Hc Hp. unfold mkdir.
  assert (∀ rp, os_mkdir (reverse rp) fs = (Raise (EEXIST (reverse rp)), fs) →
                is_dir P fs (reverse rp) = true →
                mkdir_parents P rp true fs = (Ok (), fs)) as Hgo.
  { intros rp Hos Hd. destruct rp; simpl; unfold try_except; rewrite Hos;
      simpl; unfold mkdir_exists; by rewrite Hd. }
  apply Hgo; rewrite reverse_involutive.
  - unfold os_mkdir. by rewrite Hp.
  - rewrite is_dir_canonical by done. by rewrite bool_decide_eq_true_2.
Qed.

Lemma os_mkdir_new (fs : fsys) p :
  fs !! p = None → fs !! parent p = Some Dir →
  os_mkdir p fs = (Ok (), <[p := Dir]> fs).
Proof. intros Hp Hd. unfold os_mkdir. by rewrite Hp, Hd. Qed.

Lemma os_mkdir_noent (fs : fsys) p :
  fs !! p = None → fs !! parent p = None →
  os_mkdir p fs = (Raise (ENOENT p), fs).
Proof. intros Hp Hd. unfold os_mkdir. by rewrite Hp, Hd. Qed.

Lemma os_mkdir_exist (fs : fsys) p x :
  fs !! p = Some x → os_mkdir p fs = (Raise (EEXIST p), fs).
Proof. intros Hp. unfold os_mkdir. by rewrite Hp. Qed.

Lemma not_prefix_snoc (p : path) c : ¬ p ++ [c] `prefix_of` p.
Proof.
  intros Hpre%prefix_length. rewrite length_app in Hpre. simpl in Hpre. lia.
Qed.

(** [mkdir(parents=True, exist_ok=True)] succeeds when nothing but
    directories lies on the way, and then the whole way is directories and
    nothing else has changed. *)
Lemma mkdir_parents_spec fs : wf fs → ∀ rp,
  Forall ordinary rp →
  (∀ q, q `prefix_of` reverse rp → fs !! q = None ∨ fs !! q = Some Dir) →
  ∃ fs', mkdir_parents P rp true fs = (Ok (), fs') ∧
    ∀ q, fs' !! q = if decide (q `prefix_of` reverse rp) then Some Dir else fs !! q.
Proof.
  intros Hwf. induction rp as [|c rq IH]; intros Ho Hq.
  - exists fs. split.
    + apply (mkdir_present fs []); [apply canonical_nil|apply Hwf].
    + intros q. case_decide as Hp; [|done].
      apply prefix_nil_inv in Hp as ->. apply Hwf.
  - inv Ho. rewrite mkdir_parents_cons. rewrite reverse_cons in *.
    remember (reverse rq ++ [c]) as p eqn:Ep.
    assert (parent p = reverse rq) as Epar by (subst p; apply parent_snoc).
    assert (reverse rq `prefix_of` p) as Hrq by (subst p; by apply prefix_app_r).
    assert (∀ q, q `prefix_of` p → q = p ∨ q `prefix_of` reverse rq) as Hinv.
    { intros q. subst p. apply prefix_snoc_inv. }
    assert (¬ p `prefix_of` reverse rq) as Hnp.
    { subst p. apply not_prefix_snoc. }
    assert (canonical fs p) as Hcan.
    { split.
      - subst p. apply Forall_app. split; [by apply Forall_reverse|].
        constructor; [done|constructor].
      - intros q Hpre _. by destruct (Hq q Hpre) as [-> | ->]. }
    clear Ep.
    destruct (Hq p) as [Hp|Hp]; [done| |].
    2:{ exists fs. split.
        - unfold try_except. rewrite (os_mkdir_exist _ _ _ Hp). simpl.
          unfold mkdir_exists. rewrite is_dir_canonical by done.
          by rewrite bool_decide_eq_true_2.
        - intros q. case_decide as Hpre; [|done].
          destruct (decide (q = p)) as [->|]; [done|].
          by eapply wf_ancestors. }
    destruct (Hq (reverse rq)) as [Hpar|Hpar]; [done| |].
    + destruct IH as (fs1 & Hrun & Hfs1); [done| |].
      { intros q Hpre. apply Hq. by etrans. }
      exists (<[p := Dir]> fs1). split.
      * unfold try_except. rewrite os_mkdir_noent by (by rewrite ?Epar).
        simpl. unfold bind. rewrite Hrun.
        unfold mkdir_single, try_except. rewrite os_mkdir_new; [done| |].
        -- by rewrite Hfs1, decide_False.
        -- by rewrite Epar, Hfs1, decide_True.
      * intros q. destruct (decide (q = p)) as [->|Hne].
        { rewrite lookup_insert_eq. by rewrite decide_True. }
        rewrite lookup_insert_ne by done. rewrite Hfs1.
        destruct (decide (q `prefix_of` reverse rq)) as [Hpre|Hpre].
        -- rewrite decide_True; [done|by etrans].
        -- rewrite decide_False; [done|]. by intros [?|?]%Hinv.
    + exists (<[p := Dir]> fs). split.
      * unfold try_except. by rewrite os_mkdir_new by (by rewrite ?Epar).
      * intros q. destruct (decide (q = p)) as [->|Hne].
        { rewrite lookup_insert_eq. by rewrite decide_True. }
        rewrite lookup_insert_ne by done. case_decide as Hpre; [|done].
        apply Hinv in Hpre as [?|Hpre]; [done|].
        destruct (decide (q = reverse rq)) as [->|]; [done|].
        by eapply wf_ancestors.
Qed.

End Mkdir.

(** * [write_file] *)

Section WriteFile.

Context (P : platform).

Lemma elem_of_prefixes (p q : path) : q `prefix_of` p → q ∈ prefixes p.
Proof.
  revert q. induction p as [|c p IH]; intros q Hq.
  - apply prefix_nil_inv in Hq as ->. by left.
  - destruct q as [|d q]; [by left|]. right.
    apply prefix_cons_inv_1 in Hq as Hd. subst d.
    apply prefix_cons_inv_2 in Hq. apply list_elem_of_fmap. eauto.
Qed.

Lemma only_dirs_onb_true fs p : only_dirs_onb fs p = true → only_dirs_on fs p.
Proof.
  intros H q Hq. unfold only_dirs_onb in H. rewrite forallb_forall in H.
  specialize (H q). rewrite <-list_elem_of_In in H.
  specialize (H (elem_of_prefixes _ _ Hq)).
  destruct (fs !! q) as [[]|]; auto; discriminate.
Qed.

Lemma mkdir_spec fs p :
  wf fs → Forall ordinary p → only_dirs_on fs p →
  ∃ fs', mkdir P p true true fs = (Ok (), fs') ∧ dirs_added p fs fs'.
Proof.
  intros Hwf Ho Hq. unfold mkdir, dirs_added.
  destruct (mkdir_parents_spec P fs Hwf (reverse p)) as (fs' & Hrun & Hfs').
  - by apply Forall_reverse.
  - by rewrite reverse_involutive.
  - rewrite reverse_involutive in Hfs'. by exists fs'.
Qed.

Lemma dirs_added_same_links fs fs' p :
  only_dirs_on fs p → dirs_added p fs fs' → same_links fs fs'.
Proof.
  intros Hq Hfs' q. unfold link_at. rewrite Hfs'. case_decide as Hpre; [|done].
  by destruct (Hq q Hpre) as [-> | ->].
Qed.

Lemma only_dirs_on_prefix fs (p q : path) :
  only_dirs_on fs p → q `prefix_of` p → only_dirs_on fs q.
Proof. intros Hp Hq r Hr. apply Hp. by etrans. Qed.

Lemma write_bytes_new (fs : fsys) p b append :
  fs !! p = None → fs !! parent p = Some Dir →
  write_bytes P p append b fs = (Ok (), <[p := Reg b]> fs).
Proof. intros Hp Hd. unfold write_bytes. by rewrite Hp; simpl; rewrite Hp, Hd. Qed.

Lemma write_bytes_old (fs : fsys) p b append old :
  fs !! p = Some (Reg old) →
  write_bytes P p append b fs =
    (Ok (), <[p := Reg (if append then old ++ b else b)]> fs).
Proof. intros Hp. unfold write_bytes. by rewrite Hp; simpl; rewrite Hp. Qed.

Lemma nonroot_not_prefix_parent (t : path) : t ≠ [] → ¬ t `prefix_of` parent t.
Proof.
  intros Ht. rewrite (path_snoc_inv t Ht) at 1.
  rewrite <-(parent_snoc (parent t) (name t)) at 2.
  rewrite parent_snoc. apply not_prefix_snoc.
Qed.



(** Whatever exists has its parent directory. *)
Lemma wf_parent fs (t : path) x : wf fs → fs !! t = Some x → fs !! parent t = Some Dir.
Proof.
  intros Hwf Ht. destruct (decide (t = [])) as [->|Hne]; [apply Hwf|].
  eapply wf_ancestors; [done..|apply parent_prefix|].
  intros Heq. apply (nonroot_not_prefix_parent t Hne). by rewrite Heq.
Qed.

(** A target that exists and is not a regular file: the call fails, and by
    then it has changed nothing, the parent of something that exists being
    there already. *)
Lemma write_file_not_a_file fs path_ t content enc :
  wf fs → _resolve_safe P fs path_ = Ok t →
  exists_ P fs t = true → is_file P fs t = false →
  write_file P path_ content enc fs =
    (Raise (Exn FileExistsError
              (py "Target exists and is not a file: " ++ str_path t)), fs).
Proof.
  intros Hwf Hres Hex Hnf.
  pose proof (_resolve_safe_canonical _ _ _ _ Hres) as Hcan.
  assert (is_Some (fs !! t)) as [x Hx].
  { rewrite exists_canonical in Hex by done. by apply bool_decide_eq_true in Hex. }
  unfold write_file, bind, reading, get. rewrite Hres.
  rewrite mkdir_present; [|by apply canonical_parent|by eapply wf_parent].
  by rewrite Hex, Hnf.
Qed.

(** A content that cannot be encoded: the call fails after the missing
    directories were made, and they stay. *)
Lemma write_file_encode_fails fs path_ t c enc e :
  wf fs → _resolve_safe P fs path_ = Ok t →
  fs !! t = None → only_dirs_on fs t →
  str_encode P enc c = Raise e →
  ∃ fs1, dirs_added (parent t) fs fs1 ∧
    write_file P path_ (VStr c) enc fs = (Raise e, fs1).
Proof.
  intros Hwf Hres Ht Hdirs Henc.
  pose proof (_resolve_safe_canonical _ _ _ _ Hres) as Hcan.
  assert (t ≠ []) as Hne. { intros ->. destruct Hwf as [Hr _]. congruence. }
  destruct (mkdir_spec fs (parent t)) as (fs1 & Hmk & Hfs1); [done| | |].
  { apply (canonical_parent _ _ Hcan). }
  { eapply only_dirs_on_prefix; [done|apply parent_prefix]. }
  assert (same_links fs fs1) as Hl.
  { eapply dirs_added_same_links; [|done].
    eapply only_dirs_on_prefix; [done|apply parent_prefix]. }
  assert (fs1 !! t = None) as Ht1.
  { rewrite Hfs1, decide_False; [done|by apply nonroot_not_prefix_parent]. }
  exists fs1. split; [done|].
  unfold write_file, bind, reading, get. rewrite Hres, Hmk.
  rewrite exists_canonical by (by eapply same_links_canonical).
  rewrite bool_decide_eq_false_2 by (rewrite Ht1; by intros [? ?]).
  simpl. by rewrite Henc.
Qed.

End WriteFile.



(** C10, as stated, fails: the write to the directory [sub] fails because
    the target exists and is not a regular file, and the filesystem after
    the call is the filesystem before it. *)
Lemma write_file_on_directory_changes_nothing :
  write_file srv (VStr (py "sub")) (VStr (py "text")) (VStr (py "utf-8")) disk =
    (Raise (Exn FileExistsError (py "Target exists and is not a file: /srv/root/sub")),
     disk).
Proof. reflexivity. Qed.

(** C10, amended: [write_file] makes the missing parent directories before
    it looks at the target and before it encodes the content.  When it fails
    because the target exists and is not a regular file, the parents of the
    target were there already and the call has changed nothing; when it
    fails on encoding the content for a target that does not exist, the
    directories it made stay. *)
Theorem write_file_failures (P : platform) (fs : fsys) (path_ : pyval) (t : path) :
  wf fs → _resolve_safe P fs path_ = Ok t →
  (exists_ P fs t = true → is_file P fs t = false →
   ∀ content enc,
     write_file P path_ content enc fs =
       (Raise (Exn FileExistsError
                 (py "Target exists and is not a file: " ++ str_path t)), fs)) ∧
  (fs !! t = None → only_dirs_on fs t →
   ∀ c enc e, str_encode P enc c = Raise e →
     ∃ fs1, dirs_added (parent t) fs fs1 ∧
       write_file P path_ (VStr c) enc fs = (Raise e, fs1)).
Proof.
  intros Hwf Hres. split.
  - intros Hex Hnf content enc. by apply write_file_not_a_file.
  - intros Ht Hdirs c enc e Henc. by apply write_file_encode_fails.
Qed.

(** The amended statement under [/srv/root]: a write to the directory [sub],
    and a write of ["é"] in ASCII to [new/dir/f.txt], after which [new] and
    [new/dir] exist. *)
Lemma write_file_failures_witness :
  write_file srv (VStr (py "sub")) (VStr (py "text")) (VStr (py "utf-8")) disk =
    (Raise (Exn FileExistsError (py "Target exists and is not a file: /srv/root/sub")),
     disk) ∧
  ∃ fs1,
    write_file srv (VStr (py "new/dir/f.txt")) (VStr [233]) (VStr (py "ascii")) disk =
      (Raise (Exn UnicodeError (py "'ascii' codec can't encode character")), fs1) ∧
    disk !! [py "srv"; py "root"; py "new"; py "dir"] = None ∧
    fs1 !! [py "srv"; py "root"; py "new"; py "dir"] = Some Dir.
Proof.
  split.
  - destruct (write_file_failures srv disk (VStr (py "sub"))
                [py "srv"; py "root"; py "sub"] disk_wf eq_refl) as (Hdir & _).
    apply (Hdir eq_refl eq_refl).
  - destruct (write_file_failures srv disk (VStr (py "new/dir/f.txt"))
                [py "srv"; py "root"; py "new"; py "dir"; py "f.txt"]
                disk_wf eq_refl) as (_ & Henc).
    destruct (Henc eq_refl
                (only_dirs_onb_true disk
                   [py "srv"; py "root"; py "new"; py "dir"; py "f.txt"] eq_refl)
                [233] (VStr (py "ascii"))
                (Exn UnicodeError (py "'ascii' codec can't encode character"))
                eq_refl) as (fs1 & Hfs1 & Hrun).
    exists fs1. split; [done|]. split; [done|].
    by rewrite (Hfs1 [py "srv"; py "root"; py "new"; py "dir"]).
Defined.

(** * Listing: [iterdir] and [rglob] *)

Section Listing.

Context (P : platform).

Lemma elem_of_keys (fs : fsys) (q : path) :
  q ∈ (map_to_list fs).*1 ↔ is_Some (fs !! q).
Proof.
  rewrite list_elem_of_fmap. split.
  - intros ([q' x] & -> & Hx). apply elem_of_map_to_list in Hx. by exists x.
  - intros [x Hx]. exists (q, x). split; [done|]. by apply elem_of_map_to_list.
Qed.

(** [iterdir] yields the entries whose parent is [d]. *)
Lemma elem_of_iterdir fs d q :
  q ∈ iterdir fs d ↔ q ≠ [] ∧ parent q = d ∧ is_Some (fs !! q).
Proof. unfold iterdir. rewrite list_elem_of_filter, elem_of_keys. tauto. Qed.

(** [rglob] yields the entries below [d]. *)
Lemma elem_of_rglob fs d q :
  q ∈ rglob fs d ↔ below d q ∧ is_Some (fs !! q).
Proof. unfold rglob. by rewrite list_elem_of_filter, elem_of_keys. Qed.

Lemma NoDup_iterdir fs d : NoDup (iterdir fs d).
Proof. apply NoDup_filter, NoDup_fst_map_to_list. Qed.

Lemma NoDup_rglob fs d : NoDup (rglob fs d).
Proof. apply NoDup_filter, NoDup_fst_map_to_list. Qed.

Lemma child_below (d : path) c : below d (d ++ [c]).
Proof.
  split; [by apply prefix_app_r|].
  intros Heq. apply (not_prefix_snoc d c). by rewrite Heq.
Qed.

Lemma iterdir_empty fs (d : path) :
  (∀ c, fs !! (d ++ [c]) = None) → iterdir fs d = [].
Proof.
  intros Hd. apply elem_of_nil_inv. intros q (Hne & Hpar & [x Hx])%elem_of_iterdir.
  rewrite (path_snoc_inv q Hne), Hpar, Hd in Hx. done.
Qed.

End Listing.

(** * [delete_file] *)

Section DeleteFile.

Context (P : platform).

Lemma rmtree_spec fs t :
  fs !! t = Some Dir → t ≠ [] →
  ∃ fs', rmtree t fs = (Ok (), fs') ∧ tree_removed t fs fs'.
Proof.
  intros Ht Hne. unfold rmtree, os_rmdir. rewrite Ht.
  assert (filter (λ kv : path * inode, ¬ below t kv.1) fs !! t = Some Dir) as Hft.
  { apply map_lookup_filter_Some_2; [done|]. simpl. by intros [_ ?]. }
  rewrite Hft. rewrite decide_False by done. rewrite decide_True.
  - eexists. split; [done|]. intros q. destruct (decide (q = t)) as [->|Hq].
    + by rewrite lookup_delete_eq, decide_True.
    + rewrite lookup_delete_ne by done. rewrite map_lookup_filter.
      case_decide as Hpre.
      * destruct (fs !! q); [|done]. simpl.
        rewrite option_guard_False; [done|]. simpl. intros Hn. by apply Hn.
      * destruct (fs !! q); [|done]. simpl.
        rewrite option_guard_True; [done|]. simpl. by intros [? _].
  - apply iterdir_empty. intros c. apply map_lookup_filter_None_2.
    right. intros x _ Hn. apply Hn. apply child_below.
Qed.

End DeleteFile.




(** A name of 256 letters is past the limits of [/srv/root]: the amended
    statement is silent on it, and [Path.exists()] raises on it. *)
Example within_limits_name_of_256 :
  _resolve_safe srv disk (VStr (replicate 256 120)) =
    Ok [py "srv"; py "root"; replicate 256 120] ∧
  disk !! [py "srv"; py "root"; replicate 256 120] = None ∧
  within_limits srv [py "srv"; py "root"; replicate 256 120] = false ∧
  within_limits srv [py "srv"; py "root"; replicate 255 120] = true.
Proof. split; [|split; [|split]]; by vm_compute. Qed.

(** C5: on an existing directory (other than ["/"], which the system never
    removes), [delete_file] without [recursive] fails with the
    directory-not-empty error when the directory lists an entry and removes
    it when it lists none; with [recursive] it removes the directory and
    everything below it. *)
Theorem delete_file_directory (P : platform) (fs : fsys) (path_ recursive : pyval)
    (t : path) :
  _resolve_safe P fs path_ = Ok t →
  is_dir P fs t = true → t ≠ [] →
  (truthy recursive = false → iterdir fs t ≠ [] →
   delete_file P path_ recursive fs = (Raise (ENOTEMPTY t), fs)) ∧
  (truthy recursive = false → iterdir fs t = [] →
   delete_file P path_ recursive fs =
     (Ok (py "Removed directory: " ++ str_path t), delete t fs)) ∧
  (truthy recursive = true →
   ∃ fs', tree_removed t fs fs' ∧
     delete_file P path_ recursive fs =
       (Ok (py "Removed directory tree: " ++ str_path t), fs')).
Proof.
  intros Hres Hdir Hne.
  pose proof (_resolve_safe_canonical _ _ _ _ Hres) as Hcan.
  assert (fs !! t = Some Dir) as Ht.
  { rewrite is_dir_canonical in Hdir by done. by apply bool_decide_eq_true in Hdir. }
  assert (exists_ P fs t = true) as Hex.
  { rewrite exists_canonical by done. by rewrite bool_decide_eq_true_2. }
  repeat split.
  - intros Hrec Hfull. unfold delete_file, bind, reading, get.
    rewrite Hres, Hex, Hdir, Hrec. simpl. unfold os_rmdir. rewrite Ht.
    rewrite decide_False by done. by rewrite decide_False.
  - intros Hrec Hempty. unfold delete_file, bind, reading, get.
    rewrite Hres, Hex, Hdir, Hrec. simpl. unfold os_rmdir. rewrite Ht.
    rewrite decide_False by done. by rewrite decide_True.
  - intros Hrec. destruct (rmtree_spec fs t Ht Hne) as (fs' & Hrun & Hfs').
    exists fs'. split; [done|]. unfold delete_file, bind, reading, get.
    rewrite Hres, Hex, Hdir, Hrec. cbn [negb]. by rewrite Hrun.
Qed.

(** C5 under [/srv/root]: [docs] holds two files, [sub] is empty. *)
Lemma delete_file_directory_witness :
  delete_file srv (VStr (py "docs")) (VBool false) disk =
    (Raise (ENOTEMPTY [py "srv"; py "root"; py "docs"]), disk) ∧
  delete_file srv (VStr (py "sub")) (VBool false) disk =
    (Ok (py "Removed directory: /srv/root/sub"),
     delete [py "srv"; py "root"; py "sub"] disk) ∧
  ∃ fs', delete_file srv (VStr (py "docs")) (VBool true) disk =
           (Ok (py "Removed directory tree: /srv/root/docs"), fs') ∧
         fs' !! [py "srv"; py "root"; py "docs"] = None ∧
         fs' !! [py "srv"; py "root"; py "docs"; py "b.bin"] = None ∧
         fs' !! [py "srv"; py "root"; py "a.txt"] = Some (Reg (bytes "hello")).
Proof.
  split; [|split].
  - destruct (delete_file_directory srv disk (VStr (py "docs")) (VBool false)
                [py "srv"; py "root"; py "docs"] eq_refl eq_refl) as (Hfull & _ & _);
      [done|].
    apply (Hfull eq_refl). vm_compute. discriminate.
  - destruct (delete_file_directory srv disk (VStr (py "sub")) (VBool false)
                [py "srv"; py "root"; py "sub"] eq_refl eq_refl) as (_ & Hempty & _);
      [done|].
    apply (Hempty eq_refl). vm_compute. reflexivity.
  - destruct (delete_file_directory srv disk (VStr (py "docs")) (VBool true)
                [py "srv"; py "root"; py "docs"] eq_refl eq_refl) as (_ & _ & Htree);
      [done|].
    destruct (Htree eq_refl) as (fs' & Hfs' & Hrun).
    exists fs'. split; [done|]. rewrite !Hfs'. repeat split; reflexivity.
Defined.

(** * [list_directory] *)

Section ListDirectory.

Context (P : platform).

Global Instance path_le_total : Total path_le.
Proof.
  intros p q. unfold path_le.
  destruct (trichotomy lexico p q) as [H|[->|H]].
  - left. intros H'. by apply (irreflexivity lexico p); trans q.
  - left. apply (irreflexivity lexico q).
  - right. intros H'. by apply (irreflexivity lexico p); trans q.
Qed.

Global Instance path_le_trans : Transitive path_le.
Proof.
  intros p q r Hpq Hqr Hrp. unfold path_le in *.
  destruct (trichotomy lexico p q) as [H|[->|H]]; [|done..].
  apply Hqr. by trans p.
Qed.

(** Two entries of one directory compare as their names do. *)
Lemma lexico_sibling (d : path) (a b : pystr) :
  lexico (d ++ [a]) (d ++ [b]) ↔ lexico a b.
Proof.
  induction d as [|c d IH]; simpl.
  - unfold lexico at 1. simpl. unfold lexico at 1, prod_lexico. simpl. split.
    + intros [?|[_ []]]. done.
    + by left.
  - unfold lexico at 1. simpl. unfold lexico at 1, prod_lexico. simpl. split.
    + intros [H|[_ H]]; [by apply (irreflexivity lexico) in H|by apply IH].
    + intros H. right. split; [done|by apply IH].
Qed.

(** A sorted listing of distinct entries of [d] has its names in strictly
    increasing order. *)
Lemma sorted_names (d : path) (l : list path) :
  (∀ q, q ∈ l → q ≠ [] ∧ parent q = d) → NoDup l →
  StronglySorted path_le l → StronglySorted lexico (name <$> l).
Proof.
  induction l as [|q l IH]; intros Hd Hnd Hs; [constructor|].
  apply StronglySorted_inv in Hs as [Hs Hq].
  apply NoDup_cons in Hnd as [Hnin Hnd].
  simpl. constructor.
  - apply IH; [|done..]. intros q' Hq'. apply Hd. by right.
  - apply Forall_fmap. rewrite Forall_forall in Hq |- *. intros q' Hq'. simpl.
    destruct (Hd q) as [Hne Hpar]; [by left|].
    destruct (Hd q') as [Hne' Hpar']; [by right|].
    specialize (Hq q' Hq'). unfold path_le in Hq.
    rewrite (path_snoc_inv q Hne), (path_snoc_inv q' Hne'), Hpar, Hpar' in Hq.
    destruct (trichotomy lexico (name q) (name q')) as [H|[H|H]]; [done| |].
    + exfalso. apply Hnin.
      rewrite (path_snoc_inv q Hne), Hpar, H, <-Hpar', <-(path_snoc_inv q' Hne').
      done.
    + exfalso. apply Hq. by apply lexico_sibling.
Qed.

(** What [_format_entry] says of a path that is canonical. *)
Lemma _format_entry_canonical fs q i :
  canonical fs q → fs !! q = Some i →
  _format_entry P fs q =
    Entry (str_path q) (name q) (bool_decide (i = Dir)) (Some (st_size P fs q i)) None.
Proof.
  intros Hc Hq. unfold _format_entry.
  rewrite is_dir_canonical, stat_canonical by done. rewrite Hq.
  f_equal. apply bool_decide_ext. split; congruence.
Qed.

Lemma list_directory_not_a_directory fs path_ d :
  _resolve_safe P fs path_ = Ok d → is_dir P fs d = false →
  list_directory P fs path_ = Raise (not_a_directory d).
Proof.
  intros Hres Hd. unfold list_directory, rbind. rewrite Hres, Hd.
  by rewrite orb_true_r.
Qed.

Lemma is_dir_exists fs d : is_dir P fs d = true → exists_ P fs d = true.
Proof. unfold is_dir, exists_. by destruct (stat P fs d). Qed.

Lemma list_directory_listing fs path_ d :
  _resolve_safe P fs path_ = Ok d → is_dir P fs d = true →
  list_directory P fs path_ = Ok (_format_entry P fs <$> sorted (iterdir fs d)).
Proof.
  intros Hres Hd. unfold list_directory, rbind.
  by rewrite Hres, Hd, (is_dir_exists _ _ Hd).
Qed.

End ListDirectory.

(** C8: [list_directory] fails on a path that is missing or not a directory.
    On a directory it returns one entry for each immediate child and for
    nothing else (none for an empty directory), in strictly increasing order
    of name; the entry of a child that is a regular file has [is_dir] false
    and the number of its bytes as size, the entry of a child that is a
    directory has [is_dir] true and the size the system reports for it, and
    the entry of a symbolic link describes what the link leads to. *)
Theorem list_directory_sorted_entries (P : platform) (fs : fsys) (path_ : pyval)
    (d : path) :
  wf fs → _resolve_safe P fs path_ = Ok d →
  (is_dir P fs d = false →
   list_directory P fs path_ =
     Raise (Exn FileNotFoundError (py "Not a directory: " ++ str_path d))) ∧
  (is_dir P fs d = true →
   ∃ children,
     list_directory P fs path_ = Ok (_format_entry P fs <$> children) ∧
     (∀ q, q ∈ children ↔ q ≠ [] ∧ parent q = d ∧ is_Some (fs !! q)) ∧
     NoDup children ∧
     StronglySorted lexico (name <$> children) ∧
     length children = length (iterdir fs d) ∧
     ∀ q, q ∈ children →
       match fs !! q with
       | Some (Reg data) =>
           _format_entry P fs q =
             Entry (str_path q) (name q) false (Some (length data)) None
       | Some Dir =>
           _format_entry P fs q =
             Entry (str_path q) (name q) true (Some (dir_st_size P fs q)) None
       | _ =>
           _format_entry P fs q =
             Entry (str_path q) (name q) (is_dir P fs q)
                   (st_size P fs q <$> stat P fs q) None
       end).
Proof.
  intros Hwf Hres. split.
  - intros Hd. by apply list_directory_not_a_directory.
  - intros Hd. exists (sorted (iterdir fs d)).
    pose proof (merge_sort_Permutation path_le (iterdir fs d)) as Hperm.
    fold (sorted (iterdir fs d)) in Hperm.
    assert (∀ q, q ∈ sorted (iterdir fs d) ↔
                 q ≠ [] ∧ parent q = d ∧ is_Some (fs !! q)) as Hin.
    { intros q. rewrite Hperm. apply elem_of_iterdir. }
    assert (NoDup (sorted (iterdir fs d))) as Hnd.
    { rewrite Hperm. apply NoDup_iterdir. }
    split; [by apply list_directory_listing|]. split; [done|]. split; [done|].
    split; [|split].
    + apply (sorted_names d); [|done|apply StronglySorted_merge_sort; apply _].
      intros q Hq. apply Hin in Hq. tauto.
    + by rewrite Hperm.
    + intros q (Hne & Hpar & [i Hi])%Hin. rewrite Hi.
      pose proof (_resolve_safe_canonical _ _ _ _ Hres) as Hcan.
      destruct i as [data| |t].
      * rewrite (_format_entry_canonical P fs q (Reg data)); [done| |done].
        by apply (wf_canonical fs q (Reg data)).
      * rewrite (_format_entry_canonical P fs q Dir); [done| |done].
        by apply (wf_canonical fs q Dir).
      * unfold _format_entry. by destruct (stat P fs q).
Qed.

(** C8 under [/srv/root]: the root lists three children; [sub] lists nothing;
    [a.txt] and [ghost] cannot be listed. *)
Lemma list_directory_sorted_entries_witness :
  (∃ children,
     list_directory srv disk (VStr (py ".")) = Ok (_format_entry srv disk <$> children) ∧
     StronglySorted lexico (name <$> children) ∧
     length children = 3%nat) ∧
  list_directory srv disk (VStr (py "sub")) = Ok [] ∧
  list_directory srv disk (VStr (py "a.txt")) =
    Raise (Exn FileNotFoundError (py "Not a directory: /srv/root/a.txt")) ∧
  list_directory srv disk (VStr (py "ghost")) =
    Raise (Exn FileNotFoundError (py "Not a directory: /srv/root/ghost")).
Proof.
  split; [|split; [|split]].
  - destruct (list_directory_sorted_entries srv disk (VStr (py "."))
                [py "srv"; py "root"] disk_wf eq_refl) as (_ & Hlist).
    destruct (Hlist eq_refl) as (children & Hrun & _ & _ & Hs & Hlen & _).
    exists children. split; [done|]. split; [done|]. rewrite Hlen. reflexivity.
  - destruct (list_directory_sorted_entries srv disk (VStr (py "sub"))
                [py "srv"; py "root"; py "sub"] disk_wf eq_refl) as (_ & Hlist).
    destruct (Hlist eq_refl) as (children & Hrun & _ & _ & _ & Hlen & _).
    rewrite Hrun. by destruct children.
  - destruct (list_directory_sorted_entries srv disk (VStr (py "a.txt"))
                [py "srv"; py "root"; py "a.txt"] disk_wf eq_refl) as (Hfail & _).
    apply (Hfail eq_refl).
  - destruct (list_directory_sorted_entries srv disk (VStr (py "ghost"))
                [py "srv"; py "root"; py "ghost"] disk_wf eq_refl) as (Hfail & _).
    apply (Hfail eq_refl).
Defined.

(** The listing of [/srv/root]. *)
Example list_directory_root :
  list_directory srv disk (VStr (py ".")) =
    Ok [ Entry (py "/srv/root/a.txt") (py "a.txt") false (Some 5%nat) None;
         Entry (py "/srv/root/docs") (py "docs") true (Some 4096%nat) None;
         Entry (py "/srv/root/sub") (py "sub") true (Some 4096%nat) None ].
Proof. reflexivity. Qed.

(** * The searches *)

Section Searches.

Context (P : platform).

Lemma str_path_absolute (p : path) : is_absolute (str_path p) = true.
Proof. by destruct p. Qed.

Lemma not_a_directory_raised {A} fs root (k : result A) :
  is_dir P fs root = false →
  (if negb (exists_ P fs root) || negb (is_dir P fs root)
   then Raise (not_a_directory root) else k) = Raise (not_a_directory root).
Proof. intros ->. by rewrite orb_true_r. Qed.

Lemma directory_checked {A} fs root (k : result A) :
  is_dir P fs root = true →
  (if negb (exists_ P fs root) || negb (is_dir P fs root)
   then Raise (not_a_directory root) else k) = k.
Proof. intros Hd. by rewrite Hd, (is_dir_exists _ _ _ Hd). Qed.

Lemma scan_filter fs text encoding ps :
  scan P fs (VStr text) encoding ps =
    Ok ((λ p, Hit (str_path p)) <$> filter (λ p, holds_text P fs text encoding p) ps).
Proof.
  induction ps as [|p ps IH]; [done|]. simpl.
  rewrite IH, filter_cons.
  destruct (decide (holds_text P fs text encoding p)) as [H|H];
    unfold holds_text in H;
    destruct (is_file P fs p); simpl in *; try done;
    destruct (read_text P fs p encoding) as [content|e]; simpl in *; try done;
    by destruct (contains text content).
Qed.

End Searches.

(** C6: [search_files] fails when the root of the search is missing or not a
    directory.  Over a directory it returns the absolute paths of exactly
    the entries below it that are files and whose name, in lower case,
    contains the substring in lower case; when the substring is absent or
    empty these are all the files below the directory. *)
Theorem search_files_by_name (P : platform) (fs : fsys) (path_ : pyval) (root : path) :
  _resolve_safe P fs path_ = Ok root →
  (is_dir P fs root = false →
   ∀ name_contains,
     search_files P fs path_ name_contains =
       Raise (Exn FileNotFoundError (py "Not a directory: " ++ str_path root))) ∧
  (is_dir P fs root = true →
   ∀ s, ∃ found,
     search_files P fs path_ (VStr s) = Ok (str_path <$> found) ∧
     NoDup found ∧
     Forall (λ r, is_absolute r = true) (str_path <$> found) ∧
     ∀ q, q ∈ found ↔
       (below root q ∧ is_Some (fs !! q)) ∧ is_file P fs q = true ∧
       ∃ a b, str_lower P (name q) = a ++ str_lower P s ++ b) ∧
  (is_dir P fs root = true → str_lower P [] = [] →
   ∀ name_contains, name_contains = VNone ∨ name_contains = VStr [] →
   ∃ found,
     search_files P fs path_ name_contains = Ok (str_path <$> found) ∧
     ∀ q, q ∈ found ↔ (below root q ∧ is_Some (fs !! q)) ∧ is_file P fs q = true).
Proof.
  intros Hres. split; [|split].
  - intros Hd nc. unfold search_files, rbind. rewrite Hres.
    by apply not_a_directory_raised.
  - intros Hd s.
    exists (filter (λ p, is_file P fs p && contains (str_lower P s) (str_lower P (name p)))
                   (rglob fs root)).
    split; [|split; [|split]].
    + unfold search_files, rbind. rewrite Hres, directory_checked by done.
      unfold needle_of. by destruct s.
    + apply NoDup_filter, NoDup_rglob.
    + apply Forall_fmap, Forall_forall. intros q _. apply str_path_absolute.
    + intros q. rewrite list_elem_of_filter, elem_of_rglob.
      rewrite Is_true_true, andb_true_iff, contains_spec. tauto.
  - intros Hd Hlow nc Hnc.
    exists (filter (λ p, is_file P fs p && contains [] (str_lower P (name p)))
                   (rglob fs root)).
    split.
    + unfold search_files, rbind. rewrite Hres, directory_checked by done.
      unfold needle_of. destruct Hnc as [-> | ->]; simpl; by rewrite Hlow.
    + intros q. rewrite list_elem_of_filter, elem_of_rglob.
      rewrite Is_true_true, andb_true_iff, contains_nil. tauto.
Qed.

(** C6 under [/srv/root]: ["REPORT"] finds [docs/Report.md] alone, no substring
    finds the three files, and a file cannot be searched. *)
Lemma search_files_by_name_witness :
  (∃ found,
     search_files srv disk (VStr (py ".")) (VStr (py "REPORT")) = Ok (str_path <$> found) ∧
     ([py "srv"; py "root"; py "docs"; py "Report.md"] ∈ found) ∧
     ([py "srv"; py "root"; py "a.txt"] ∉ found)) ∧
  (∃ found,
     search_files srv disk (VStr (py ".")) VNone = Ok (str_path <$> found) ∧
     [py "srv"; py "root"; py "a.txt"] ∈ found) ∧
  search_files srv disk (VStr (py "a.txt")) VNone =
    Raise (Exn FileNotFoundError (py "Not a directory: /srv/root/a.txt")).
Proof.
  split; [|split].
  - destruct (search_files_by_name srv disk (VStr (py ".")) [py "srv"; py "root"]
                eq_refl) as (_ & Hfind & _).
    destruct (Hfind eq_refl (py "REPORT")) as (found & Hrun & _ & _ & Hin).
    exists found. split; [done|]. split.
    + apply Hin. split; [|split].
      * split; [split; [by exists [py "docs"; py "Report.md"]|done]|by eexists].
      * reflexivity.
      * by exists [], (py ".md").
    + intros (_ & _ & a & b & Hab)%Hin. vm_compute in Hab.
      destruct a as [|? [|? [|? [|? [|? [|? a]]]]]]; discriminate.
  - destruct (search_files_by_name srv disk (VStr (py ".")) [py "srv"; py "root"]
                eq_refl) as (_ & _ & Hall).
    destruct (Hall eq_refl eq_refl VNone (or_introl eq_refl)) as (found & Hrun & Hin).
    exists found. split; [done|]. apply Hin. split; [|reflexivity].
    split; [split; [by exists [py "a.txt"]|done]|by eexists].
  - destruct (search_files_by_name srv disk (VStr (py "a.txt"))
                [py "srv"; py "root"; py "a.txt"] eq_refl) as (Hfail & _).
    apply (Hfail eq_refl).
Defined.

(** The spec's example: among [report1.txt], [REPORT_final.csv] and
    [notes.md], the substring ["report"] finds the first two. *)
Example search_files_reports :
  ∃ l, search_files srv reports (VStr (py ".")) (VStr (py "report")) = Ok l ∧
       l ≡ₚ [py "/srv/root/report1.txt"; py "/srv/root/REPORT_final.csv"].
Proof.
  eexists. split; [reflexivity|]. vm_compute.
  first [reflexivity | apply perm_swap].
Qed.

(** C7, as stated, fails: the content of [w.txt], decoded as UTF-8, holds a
    carriage return followed by a line feed, and [search_in_files] does not
    find them there; it finds [a], a line feed and [b], which the decoded
    content does not hold. *)
Lemma search_in_files_line_ends :
  dos !! [py "srv"; py "root"; py "w.txt"] = Some (Reg [x61; x0d; x0a; x62]) ∧
  bytes_decode srv (VStr (py "utf-8")) [x61; x0d; x0a; x62] = Ok [97; 13; 10; 98] ∧
  contains [13; 10] [97; 13; 10; 98] = true ∧
  search_in_files srv dos (VStr (py ".")) (VStr [13; 10]) (VStr (py "utf-8")) = Ok [] ∧
  contains [97; 10; 98] [97; 13; 10; 98] = false ∧
  search_in_files srv dos (VStr (py ".")) (VStr [97; 10; 98]) (VStr (py "utf-8")) =
    Ok [Hit (py "/srv/root/w.txt")].
Proof. split; [|split; [|split; [|split; [|split]]]]; reflexivity. Qed.

(** C7, amended: [search_in_files] fails when the root of the search is
    missing or not a directory.  Over a directory, an empty text gives the
    empty result whatever the files hold; any other text gives exactly the
    entries below the directory that are regular files, whose bytes decode
    under the encoding, and whose decoded content, with its line ends made
    universal (a carriage return, alone or before a line feed, read as a
    line feed), contains the text as a substring: a file that cannot be
    decoded is left out and raises nothing. *)
Theorem search_in_files_by_content (P : platform) (fs : fsys) (path_ encoding : pyval)
    (root : path) :
  _resolve_safe P fs path_ = Ok root →
  (is_dir P fs root = false →
   ∀ text,
     search_in_files P fs path_ text encoding =
       Raise (Exn FileNotFoundError (py "Not a directory: " ++ str_path root))) ∧
  (is_dir P fs root = true →
   search_in_files P fs path_ (VStr []) encoding = Ok []) ∧
  (is_dir P fs root = true →
   ∀ text, text ≠ [] →
   ∃ found,
     search_in_files P fs path_ (VStr text) encoding =
       Ok ((λ q, Hit (str_path q)) <$> found) ∧
     NoDup found ∧
     ∀ q, q ∈ found ↔
       (below root q ∧ is_Some (fs !! q)) ∧
       ∃ data decoded,
         stat P fs q = Some (Reg data) ∧
         bytes_decode P encoding data = Ok decoded ∧
         ∃ a b, universal_newlines decoded = a ++ text ++ b).
Proof.
  intros Hres. split; [|split].
  - intros Hd text. unfold search_in_files, rbind. rewrite Hres.
    by apply not_a_directory_raised.
  - intros Hd. unfold search_in_files, rbind.
    by rewrite Hres, directory_checked.
  - intros Hd text Hne.
    exists (filter (λ p, holds_text P fs text encoding p) (rglob fs root)).
    split; [|split].
    + unfold search_in_files, rbind. rewrite Hres, directory_checked by done.
      destruct text; [done|]. simpl. apply scan_filter.
    + apply NoDup_filter, NoDup_rglob.
    + intros q. rewrite list_elem_of_filter, elem_of_rglob.
      unfold holds_text, is_file, read_text. rewrite Is_true_true, andb_true_iff.
      destruct (stat P fs q) as [[data| |l]|].
      * unfold rbind. destruct (bytes_decode P encoding data) as [decoded|e] eqn:Hbytes.
        -- rewrite contains_spec. split.
           ++ intros [[_ Hc] Hq]. split; [done|]. by exists data, decoded.
           ++ intros [Hq (data' & decoded' & Hdata & Hdec & Hc)].
              injection Hdata as <-. rewrite Hdec in Hbytes.
              injection Hbytes as <-. done.
        -- split; [by intros [[_ ?] _]|].
           intros [_ (data' & decoded' & Hdata & Hdec & _)].
           injection Hdata as <-. congruence.
      * split; [by intros [[? _] _]|]. by intros [_ (? & ? & ? & _)].
      * split; [by intros [[? _] _]|]. by intros [_ (? & ? & ? & _)].
      * split; [by intros [[? _] _]|]. by intros [_ (? & ? & ? & _)].
Qed.

(** C7, amended, under [/srv/root]: ["ell"] is found in [a.txt]; [docs/b.bin],
    which is not UTF-8, is passed over. *)
Lemma search_in_files_by_content_witness :
  (∃ found,
     search_in_files srv disk (VStr (py ".")) (VStr (py "ell")) (VStr (py "utf-8")) =
       Ok ((λ q, Hit (str_path q)) <$> found) ∧
     ([py "srv"; py "root"; py "a.txt"] ∈ found) ∧
     ([py "srv"; py "root"; py "docs"; py "b.bin"] ∉ found)) ∧
  search_in_files srv disk (VStr (py ".")) (VStr []) (VStr (py "utf-8")) = Ok [] ∧
  search_in_files srv disk (VStr (py "ghost")) (VStr (py "ell")) (VStr (py "utf-8")) =
    Raise (Exn FileNotFoundError (py "Not a directory: /srv/root/ghost")).
Proof.
  split; [|split].
  - destruct (search_in_files_by_content srv disk (VStr (py ".")) (VStr (py "utf-8"))
                [py "srv"; py "root"] eq_refl) as (_ & _ & Hfind).
    destruct (Hfind eq_refl (py "ell")) as (found & Hrun & _ & Hin); [done|].
    exists found. split; [done|]. split.
    + apply Hin. split.
      * split; [split; [by exists [py "a.txt"]|done]|by eexists].
      * exists (bytes "hello"), (py "hello"). split; [reflexivity|].
        split; [reflexivity|]. by exists (py "h"), (py "o").
    + intros (_ & data & decoded & Hstat & Hdec & _)%Hin.
      assert (data = [xff]) as -> by (by injection Hstat).
      discriminate Hdec.
  - destruct (search_in_files_by_content srv disk (VStr (py ".")) (VStr (py "utf-8"))
                [py "srv"; py "root"] eq_refl) as (_ & Hempty & _).
    apply (Hempty eq_refl).
  - destruct (search_in_files_by_content srv disk (VStr (py "ghost")) (VStr (py "utf-8"))
                [py "srv"; py "root"; py "ghost"] eq_refl) as (Hfail & _).
    apply (Hfail eq_refl).
Defined.

(** * [copy_file] *)

Section CopyFile.

Context (P : platform).

Lemma grown_on_refl p fs : grown_on p fs fs.
Proof. intros q. by left. Qed.

Lemma grown_on_trans p fs1 fs2 fs3 :
  grown_on p fs1 fs2 → grown_on p fs2 fs3 → grown_on p fs1 fs3.
Proof.
  intros H12 H23 q. destruct (H12 q) as [E12|(? & ? & ? & E12)],
    (H23 q) as [E23|(? & ? & ? & E23)]; rewrite ?E23, ?E12; auto; try congruence.
  right. repeat split; congruence.
Qed.

Lemma grown_on_prefix (p p' : path) fs fs' :
  p `prefix_of` p' → grown_on p fs fs' → grown_on p' fs fs'.
Proof.
  intros Hp H q. destruct (H q) as [?|(? & ? & ? & ?)]; [by left|].
  right. repeat split; try done. by etrans.
Qed.

Lemma os_mkdir_grown p fs r fs' : os_mkdir p fs = (r, fs') → grown_on p fs fs'.
Proof.
  unfold os_mkdir. intros H q.
  destruct (fs !! p) eqn:Ep; [left; congruence|].
  destruct (fs !! parent p) as [[]|] eqn:Epar; try (left; congruence).
  injection H as _ <-. destruct (decide (q = p)) as [->|Hne].
  - right. rewrite lookup_insert_eq. repeat split; try done.
    intros ->. simpl in Epar. congruence.
  - left. by rewrite lookup_insert_ne.
Qed.

Lemma mkdir_single_grown p exist_ok fs r fs' :
  mkdir_single P p exist_ok fs = (r, fs') → grown_on p fs fs'.
Proof.
  unfold mkdir_single, try_except.
  destruct (os_mkdir p fs) as [[[]|e] fs1] eqn:E; intros H.
  - injection H as _ <-. by eapply os_mkdir_grown.
  - apply os_mkdir_grown in E. case_decide.
    + injection H as _ <-. done.
    + unfold mkdir_exists in H. destruct (_ || _); injection H as _ <-; done.
Qed.

Lemma mkdir_parents_grown rp : ∀ exist_ok fs r fs',
  mkdir_parents P rp exist_ok fs = (r, fs') → grown_on (reverse rp) fs fs'.
Proof.
  induction rp as [|c rq IH]; intros exist_ok fs r fs'.
  - simpl. unfold try_except.
    destruct (os_mkdir (reverse []) fs) as [[[]|e] fs1] eqn:E; intros H;
      apply os_mkdir_grown in E.
    + by injection H as _ <-.
    + case_decide; [by injection H as _ <-|].
      unfold mkdir_exists in H. destruct (_ || _); by injection H as _ <-.
  - rewrite mkdir_parents_cons. unfold try_except.
    destruct (os_mkdir (reverse (c :: rq)) fs) as [[[]|e] fs1] eqn:E; intros H;
      apply os_mkdir_grown in E.
    + by injection H as _ <-.
    + case_decide.
      * unfold bind in H.
        destruct (mkdir_parents P rq true fs1) as [[[]|e'] fs2] eqn:E2.
        -- apply IH in E2. apply mkdir_single_grown in H.
           eapply grown_on_trans; [done|]. eapply grown_on_trans; [|done].
           eapply grown_on_prefix; [|done]. rewrite reverse_cons.
           by apply prefix_app_r.
        -- apply IH in E2. injection H as _ <-.
           eapply grown_on_trans; [done|].
           eapply grown_on_prefix; [|done]. rewrite reverse_cons.
           by apply prefix_app_r.
      * unfold mkdir_exists in H. destruct (_ || _); by injection H as _ <-.
Qed.

Lemma mkdir_grown p exist_ok fs r fs' :
  mkdir P p true exist_ok fs = (r, fs') → grown_on p fs fs'.
Proof.
  unfold mkdir. intros H%mkdir_parents_grown. by rewrite reverse_involutive in H.
Qed.

Lemma grown_on_same_links p fs fs' : grown_on p fs fs' → same_links fs fs'.
Proof.
  intros H q. unfold link_at.
  by destruct (H q) as [->|(_ & _ & -> & ->)].
Qed.

Lemma grown_on_keeps p fs fs' (q : path) x :
  grown_on p fs fs' → fs !! q = Some x → fs' !! q = Some x.
Proof. intros H Hq. destruct (H q) as [->|(_ & _ & ? & _)]; congruence. Qed.

Lemma grown_on_parent_target (d : path) fs fs' :
  grown_on (parent d) fs fs' → fs' !! d = fs !! d.
Proof.
  intros H. destruct (H d) as [->|(Hpre & Hne & _)]; [done|].
  by apply nonroot_not_prefix_parent in Hpre.
Qed.

Lemma read_file_regular fs v p data encoding :
  _resolve_safe P fs v = Ok p → fs !! p = Some (Reg data) →
  read_file P fs v encoding =
    (let? s := bytes_decode P encoding data in Ok (universal_newlines s)).
Proof.
  intros Hres Hp. pose proof (_resolve_safe_canonical _ _ _ _ Hres) as Hcan.
  unfold read_file. rewrite Hres. simpl.
  rewrite exists_canonical, is_file_canonical by done.
  rewrite bool_decide_eq_true_2 by (by rewrite Hp). rewrite Hp. simpl.
  unfold read_text. by rewrite stat_canonical, Hp.
Qed.

(** After a copy onto a path that is not a directory, the destination holds
    the bytes of the source, which is untouched. *)
Lemma copy_file_result fs src dst overwrite s d msg fs' :
  wf fs → _resolve_safe P fs src = Ok s → _resolve_safe P fs dst = Ok d →
  is_dir P fs d = false →
  copy_file P src dst overwrite fs = (Ok msg, fs') →
  ∃ data, fs !! s = Some (Reg data) ∧ fs' !! s = Some (Reg data) ∧
          fs' !! d = Some (Reg data) ∧ same_links fs fs'.
Proof.
  intros Hwf Hs Hd Hnd Hrun.
  pose proof (_resolve_safe_canonical _ _ _ _ Hs) as Hcs.
  pose proof (_resolve_safe_canonical _ _ _ _ Hd) as Hcd.
  unfold copy_file, bind, reading, get in Hrun. rewrite Hs, Hd in Hrun.
  destruct (negb (exists_ P fs s) || negb (is_file P fs s)) eqn:Hfile; [done|].
  apply orb_false_iff in Hfile as [_ Hfile]. apply negb_false_iff in Hfile.
  rewrite is_file_canonical in Hfile by done.
  destruct (fs !! s) as [[data| |]|] eqn:Es; try done. clear Hfile.
  destruct (mkdir P (parent d) true true fs) as [[[]|e] fs1] eqn:Emk; [|done].
  apply mkdir_grown in Emk.
  pose proof (grown_on_same_links _ _ _ Emk) as Hl1.
  pose proof (grown_on_keeps _ _ _ _ _ Emk Es) as Es1.
  pose proof (grown_on_parent_target _ _ _ Emk) as Ed1.
  pose proof (same_links_canonical _ _ _ Hl1 Hcs) as Hcs1.
  pose proof (same_links_canonical _ _ _ Hl1 Hcd) as Hcd1.
  destruct (exists_ P fs1 d && negb (truthy overwrite)); [done|].
  rewrite is_dir_canonical in Hnd by done. apply bool_decide_eq_false in Hnd.
  assert (d ≠ []) as Hne. { intros ->. by destruct Hwf. }
  unfold copy2, bind, get in Hrun. rewrite is_dir_canonical in Hrun by done.
  rewrite bool_decide_eq_false_2 in Hrun by (by rewrite Ed1).
  unfold copyfile, bind, reading, get, samefile, read_bytes in Hrun.
  rewrite !(realpath_id _ _ _ []) in Hrun by done. cbv beta iota in Hrun.
  rewrite !app_nil_l in Hrun.
  rewrite (bool_decide_eq_true_2 (is_Some _)), andb_true_r in Hrun by (by rewrite Es1).
  case_bool_decide as Hsd; [done|]. cbv beta in Hrun.
  rewrite stat_canonical, Es1 in Hrun by done.
  assert (is_lnk (fs1 !! d) = false) as Hnl.
  { apply Hcd1; [done|]. done. }
  unfold write_bytes in Hrun. rewrite Hnl in Hrun.
  assert (fs' = <[d := Reg data]> fs1) as ->.
  { destruct (fs1 !! d) as [[old| |]|] eqn:E1; try done.
    - by injection Hrun as _ <-.
    - destruct (fs1 !! parent d) as [[]|]; try done. by injection Hrun as _ <-. }
  exists data. split; [done|]. split; [by rewrite lookup_insert_ne|].
  split; [apply lookup_insert_eq|].
  eapply same_links_trans; [done|]. apply same_links_insert; [|done].
  unfold link_at. by destruct (fs1 !! d) as [[]|].
Qed.

(** When the copy goes through: the source is a regular file, nothing but
    directories lies on the way to the destination, and the destination is
    absent, or a regular file other than the source that may be
    overwritten. *)
Lemma copy_file_succeeds fs src dst overwrite s d data :
  wf fs → _resolve_safe P fs src = Ok s → _resolve_safe P fs dst = Ok d →
  fs !! s = Some (Reg data) → only_dirs_on fs (parent d) →
  (fs !! d = None ∨
   ((∃ old, fs !! d = Some (Reg old)) ∧ truthy overwrite = true ∧ d ≠ s)) →
  ∃ fs1, dirs_added (parent d) fs fs1 ∧
    copy_file P src dst overwrite fs =
      (Ok (py "Copied " ++ str_path s ++ py " -> " ++ str_path d),
       <[d := Reg data]> fs1).
Proof.
  intros Hwf Hs Hd Es Hdirs Hdst.
  pose proof (_resolve_safe_canonical _ _ _ _ Hs) as Hcs.
  pose proof (_resolve_safe_canonical _ _ _ _ Hd) as Hcd.
  assert (d ≠ []) as Hne.
  { intros ->. destruct Hwf as [Hr _].
    destruct Hdst as [?|[[old ?] _]]; congruence. }
  assert (d ≠ s) as Hds.
  { destruct Hdst as [?|(_ & _ & ?)]; [congruence|done]. }
  destruct (mkdir_spec P fs (parent d)) as (fs1 & Hmk & Hfs1); [done| |done|].
  { apply (canonical_parent _ _ Hcd). }
  pose proof (dirs_added_same_links _ _ _ Hdirs Hfs1) as Hl.
  assert (fs1 !! d = fs !! d) as Ed1.
  { rewrite Hfs1, decide_False; [done|by apply nonroot_not_prefix_parent]. }
  assert (fs1 !! s = Some (Reg data)) as Es1.
  { rewrite Hfs1. case_decide as Hpre; [|done].
    destruct (Hdirs s Hpre); congruence. }
  assert (fs1 !! parent d = Some Dir) as Ep1 by (by rewrite Hfs1, decide_True).
  pose proof (same_links_canonical _ _ _ Hl Hcs) as Hcs1.
  pose proof (same_links_canonical _ _ _ Hl Hcd) as Hcd1.
  exists fs1. split; [done|].
  unfold copy_file, bind, reading, get. rewrite Hs, Hd.
  rewrite exists_canonical, is_file_canonical by done.
  rewrite bool_decide_eq_true_2 by (by rewrite Es). rewrite Es. cbn [negb orb].
  rewrite Hmk.
  assert (exists_ P fs1 d && negb (truthy overwrite) = false) as ->.
  { rewrite exists_canonical by done.
    destruct Hdst as [E|(_ & -> & _)]; [|by rewrite andb_false_r].
    rewrite bool_decide_eq_false_2; [done|]. rewrite Ed1, E. by intros [? ?]. }
  unfold copy2, bind, get. rewrite is_dir_canonical by done.
  rewrite bool_decide_eq_false_2
    by (rewrite Ed1; destruct Hdst as [->|[[old ->] _]]; done).
  unfold copyfile, bind, reading, get, samefile, read_bytes.
  rewrite !(realpath_id _ _ _ []) by done. cbv beta iota. rewrite !app_nil_l.
  rewrite bool_decide_eq_false_2 by done. cbn [andb].
  rewrite stat_canonical, Es1 by done.
  destruct Hdst as [E|[[old E] _]].
  - rewrite write_bytes_new; [done|by rewrite Ed1|done].
  - by rewrite (write_bytes_old _ _ _ _ _ old) by (by rewrite Ed1).
Qed.

End CopyFile.

(** C9, as stated, fails: a copy of [a.txt] to the existing directory [sub]
    succeeds, putting the file at [sub/a.txt]; reading [sub] then fails while
    reading [a.txt] gives ["hello"]. *)
Lemma copy_file_into_directory :
  ∃ fs',
    copy_file srv (VStr (py "a.txt")) (VStr (py "sub")) (VBool true) disk =
      (Ok (py "Copied /srv/root/a.txt -> /srv/root/sub"), fs') ∧
    fs' !! [py "srv"; py "root"; py "sub"; py "a.txt"] = Some (Reg (bytes "hello")) ∧
    read_file srv fs' (VStr (py "sub")) (VStr (py "utf-8")) =
      Raise (Exn FileNotFoundError (py "File not found: /srv/root/sub")) ∧
    read_file srv disk (VStr (py "a.txt")) (VStr (py "utf-8")) = Ok (py "hello").
Proof.
  eexists. split; [reflexivity|]. split; [reflexivity|]. split; reflexivity.
Qed.

(** C9, amended: for a destination [b] that is not a directory that exists,
    when [copy_file(a, b)] succeeds, reading [b] afterwards gives what
    reading [a] gave before the copy, and what reading [a] gives after it.
    And it does succeed when [a] is a regular file, nothing but directories
    lies on the way to [b], and [b] is absent or may be overwritten and is
    not [a] itself. *)
Theorem copy_file_then_read_file (P : platform) (fs : fsys)
    (src dst overwrite : pyval) (s d : path) :
  wf fs → _resolve_safe P fs src = Ok s → _resolve_safe P fs dst = Ok d →
  is_dir P fs d = false →
  (∀ msg fs' encoding,
     copy_file P src dst overwrite fs = (Ok msg, fs') →
     read_file P fs' dst encoding = read_file P fs src encoding ∧
     read_file P fs' src encoding = read_file P fs src encoding) ∧
  (is_file P fs s = true → only_dirs_on fs (parent d) →
   fs !! d = None ∨ (truthy overwrite = true ∧ d ≠ s) →
   ∃ fs', copy_file P src dst overwrite fs =
            (Ok (py "Copied " ++ str_path s ++ py " -> " ++ str_path d), fs')).
Proof.
  intros Hwf Hs Hd Hnd. split.
  - intros msg fs' encoding Hrun.
    destruct (copy_file_result P fs src dst overwrite s d msg fs')
      as (data & Es & Es' & Ed' & Hl); [done..|].
    rewrite (read_file_regular P fs src s data) by done.
    rewrite (read_file_regular P fs' dst d data), (read_file_regular P fs' src s data);
      [done|by rewrite <-(_resolve_safe_same_links P fs)|done
      |by rewrite <-(_resolve_safe_same_links P fs)|done].
  - intros Hfile Hdirs Hdst.
    pose proof (_resolve_safe_canonical _ _ _ _ Hs) as Hcs.
    pose proof (_resolve_safe_canonical _ _ _ _ Hd) as Hcd.
    rewrite is_file_canonical in Hfile by done.
    destruct (fs !! s) as [[data| |]|] eqn:Es; try done.
    destruct (copy_file_succeeds P fs src dst overwrite s d data)
      as (fs1 & _ & Hrun); [done..| |by eexists].
    destruct Hdst as [?|[Hov Hds]]; [by left|].
    destruct (fs !! d) as [x|] eqn:Ed; [|by left]. right.
    split; [|done].
    rewrite is_dir_canonical in Hnd by done. apply bool_decide_eq_false in Hnd.
    assert (d ≠ []) as Hne. { intros ->. destruct Hwf as [Hr _]. congruence. }
    destruct Hcd as [_ Hcd]. specialize (Hcd d (reflexivity _) Hne).
    rewrite Ed in Hcd. destruct x; [by eexists|congruence|done].
Qed.

(** C9 amended, under [/srv/root]: [a.txt] copied to [docs/copy.txt]. *)
Lemma copy_file_then_read_file_witness :
  ∃ fs',
    copy_file srv (VStr (py "a.txt")) (VStr (py "docs/copy.txt")) (VBool true) disk =
      (Ok (py "Copied /srv/root/a.txt -> /srv/root/docs/copy.txt"), fs') ∧
    read_file srv fs' (VStr (py "docs/copy.txt")) (VStr (py "utf-8")) =
      read_file srv disk (VStr (py "a.txt")) (VStr (py "utf-8")) ∧
    read_file srv disk (VStr (py "a.txt")) (VStr (py "utf-8")) = Ok (py "hello").
Proof.
  destruct (copy_file_then_read_file srv disk (VStr (py "a.txt"))
              (VStr (py "docs/copy.txt")) (VBool true)
              [py "srv"; py "root"; py "a.txt"]
              [py "srv"; py "root"; py "docs"; py "copy.txt"]
              disk_wf eq_refl eq_refl eq_refl) as (Hread & Hrun).
  destruct (Hrun eq_refl
              (only_dirs_onb_true disk [py "srv"; py "root"; py "docs"] eq_refl)
              (or_introl eq_refl)) as (fs' & Hcopy).
  exists fs'. split; [done|]. split; [|reflexivity].
  by apply (Hread _ fs' (VStr (py "utf-8")) Hcopy).
Defined.

(** * The dispatcher *)

Section Dispatcher.

Context (P : platform).

Lemma is_str_false (v : pyval) (s : string) : v ≠ VStr (py s) → is_str v s = false.
Proof.
  intros Hv. destruct v; try done. simpl.
  apply bool_decide_eq_false_2. congruence.
Qed.

(** A name outside the catalog selects no call. *)
Lemma invoke_unsupported action args :
  (∀ n, n ∈ catalog → action ≠ VStr (py n)) → invoke P action args = None.
Proof.
  intros Hout. unfold invoke.
  rewrite !is_str_false; [done|apply Hout; unfold catalog..];
    repeat first [by left | right].
Qed.

(** Whatever the call does, the [try] turns it into a string. *)
Lemma nl_command_total text cmd fs :
  ∃ summary fs', nl_command P text cmd fs = (Ok summary, fs').
Proof.
  destruct cmd as [| | | | |d]; try by eexists _, _.
  unfold nl_command, try_except.
  destruct (invoke P (action_of d) (args_of d)) as [call|]; [|by eexists _, _].
  unfold bind, reading.
  destruct (call fs) as [[r|e] fs1]; [|by eexists _, _].
  destruct (summarize P (action_of d) (args_of d) r); by eexists _, _.
Qed.

End Dispatcher.

(** C3: whatever the command, the dispatcher returns a string and raises
    nothing.  For a command that is a descriptor: a name outside the catalog
    gives the "Unsupported action" string and changes nothing; an exception
    raised by the call the name selects, be it by the operation or by the
    binding of its arguments, is turned into the "Execution error" string;
    the result of a call that went through is summarized, and an exception
    of the summarizer is turned into that string too. *)
Theorem nl_command_returns_a_string (P : platform) (text : pystr)
    (d : list (pystr * pyval)) (fs : fsys) :
  (∀ cmd, ∃ summary fs', nl_command P text cmd fs = (Ok summary, fs')) ∧
  ((∀ n, n ∈ catalog → action_of d ≠ VStr (py n)) →
   nl_command P text (VDict d) fs =
     (Ok (py "Unsupported action: " ++ str_val P (action_of d)), fs)) ∧
  (∀ call e fs',
     invoke P (action_of d) (args_of d) = Some call →
     call fs = (Raise e, fs') →
     nl_command P text (VDict d) fs =
       (Ok (py "Execution error: " ++ str_exn e), fs')) ∧
  (∀ call r fs',
     invoke P (action_of d) (args_of d) = Some call →
     call fs = (Ok r, fs') →
     nl_command P text (VDict d) fs =
       (Ok match summarize P (action_of d) (args_of d) r with
           | Ok summary => summary
           | Raise e => py "Execution error: " ++ str_exn e
           end, fs')).
Proof.
  split; [intros cmd; apply nl_command_total|]. split; [|split].
  - intros Hout. unfold nl_command, try_except. by rewrite invoke_unsupported.
  - intros call e fs' Hcall Hrun. unfold nl_command, try_except, bind.
    by rewrite Hcall, Hrun.
  - intros call r fs' Hcall Hrun. unfold nl_command, try_except, bind, reading.
    rewrite Hcall, Hrun. by destruct (summarize _ _ _ _).
Qed.

(** C3 under [/srv/root]: an unknown action, a [read_file] without its
    [path], arguments that are not a mapping, and a [delete_file] of the
    non-empty directory [docs]. *)
Lemma nl_command_returns_a_string_witness :
  nl_command srv [] (VDict [(py "action", VStr (py "format_disk"))]) disk =
    (Ok (py "Unsupported action: format_disk"), disk) ∧
  nl_command srv [] (VDict [(py "action", VStr (py "read_file")); (py "args", VDict [])])
             disk =
    (Ok (py "Execution error: read_file() missing 1 required positional argument: 'path'"),
     disk) ∧
  nl_command srv [] (VDict [(py "action", VStr (py "read_file")); (py "args", VNum 7)])
             disk =
    (Ok (py "Execution error: __main__.read_file() argument after ** must be a mapping, not int"),
     disk) ∧
  nl_command srv [] (VDict [(py "action", VStr (py "delete_file"));
                            (py "args", VDict [(py "path", VStr (py "docs"))])]) disk =
    (Ok (py "Execution error: [Errno 39] Directory not empty: '/srv/root/docs'"), disk).
Proof.
  split; [|split; [|split]].
  - destruct (nl_command_returns_a_string srv []
                [(py "action", VStr (py "format_disk"))] disk) as (_ & Hout & _).
    apply Hout. intros n Hn. unfold catalog in Hn.
    repeat (apply elem_of_cons in Hn as [->|Hn]; [discriminate|]).
    by apply elem_of_nil in Hn.
  - destruct (nl_command_returns_a_string srv []
                [(py "action", VStr (py "read_file")); (py "args", VDict [])] disk)
      as (_ & _ & Herr & _).
    apply (Herr _ (Exn TypeError
                      (py "read_file() missing 1 required positional argument: 'path'"))
                disk eq_refl eq_refl).
  - destruct (nl_command_returns_a_string srv []
                [(py "action", VStr (py "read_file")); (py "args", VNum 7)] disk)
      as (_ & _ & Herr & _).
    apply (Herr _ (Exn TypeError
                      (py "__main__.read_file() argument after ** must be a mapping, not int"))
                disk eq_refl eq_refl).
  - destruct (nl_command_returns_a_string srv []
                [(py "action", VStr (py "delete_file"));
                 (py "args", VDict [(py "path", VStr (py "docs"))])] disk)
      as (_ & _ & Herr & _).
    apply (Herr _ (ENOTEMPTY [py "srv"; py "root"; py "docs"]) disk eq_refl eq_refl).
Defined.

(** The spec's example: listing a directory of three files. *)
Example nl_command_list_directory :
  nl_command srv [] (VDict [(py "action", VStr (py "list_directory"));
                            (py "args", VDict [(py "path", VStr (py "."))])]) disk =
    (Ok (py "Found 3 item(s) in .: a.txt, docs, sub."), disk).
Proof. reflexivity. Qed.

(** The binding of the arguments names every parameter that is missing, and
    the first key that is none. *)
Example nl_command_unbound_arguments :
  nl_command srv [] (VDict [(py "action", VStr (py "copy_file"))]) disk =
    (Ok (py "Execution error: copy_file() missing 2 required positional arguments: 'src' and 'dst'"),
     disk) ∧
  nl_command srv [] (VDict [(py "action", VStr (py "write_file"));
                            (py "args", VDict [(py "path", VStr (py "n.txt"))])]) disk =
    (Ok (py "Execution error: write_file() missing 1 required positional argument: 'content'"),
     disk) ∧
  nl_command srv [] (VDict [(py "action", VStr (py "read_file"));
                            (py "args", VDict [(py "paht", VStr (py "a.txt"));
                                               (py "zz", VNum 2)])]) disk =
    (Ok (py "Execution error: read_file() got an unexpected keyword argument 'paht'"),
     disk) ∧
  nl_command srv [] (VDict [(py "action", VStr (py "read_file"));
                            (py "args", VNum 0)]) disk =
    (Ok (py "Execution error: read_file() missing 1 required positional argument: 'path'"),
     disk).
Proof. split; [|split; [|split]]; reflexivity. Qed.

(** * The text of a path *)

Section PathText.

Context (P : platform).

Lemma split_on_nosep (s : pystr) : Forall nosep (split_on sep s).
Proof.
  induction s as [|x s IH]; simpl.
  - constructor; [|constructor]. unfold nosep. by intros ?%elem_of_nil.
  - destruct (x =? sep) eqn:E.
    + constructor; [|done]. unfold nosep. by intros ?%elem_of_nil.
    + apply N.eqb_neq in E. destruct (split_on sep s) as [|h t].
      * constructor; [|constructor]. unfold nosep.
        intros [?|?%elem_of_nil]%elem_of_cons; congruence.
      * inv IH. constructor; [|done]. unfold nosep in *.
        intros [?|?]%elem_of_cons; congruence.
Qed.

Lemma split_on_ne_nil (s : pystr) : split_on sep s ≠ [].
Proof.
  destruct s as [|x s]; simpl; [done|].
  destruct (x =? sep); [done|]. by destruct (split_on sep s).
Qed.

Lemma split_on_app_nosep (c r : pystr) :
  nosep c →
  split_on sep (c ++ r) =
    match split_on sep r with
    | h :: t => (c ++ h) :: t
    | [] => [c]
    end.
Proof.
  unfold nosep. induction c as [|x c IH]; intros Hc; simpl.
  - pose proof (split_on_ne_nil r). by destruct (split_on sep r).
  - rewrite (proj2 (N.eqb_neq x sep)).
    + rewrite IH; [by destruct (split_on sep r)|].
      intros ?. apply Hc. by right.
    + intros ->. apply Hc. by left.
Qed.

Lemma split_on_sep_cons (r : pystr) :
  split_on sep (sep :: r) = [] :: split_on sep r.
Proof. done. Qed.

(** Splitting the text of the components gives the components back. *)
Lemma split_on_concat (q : path) :
  Forall nosep q → split_on sep (concat ((λ c, sep :: c) <$> q)) = [] :: q.
Proof.
  induction q as [|c q IH]; intros Hq; [done|]. inv Hq.
  change (split_on sep (sep :: (c ++ concat ((λ c, sep :: c) <$> q))) = [] :: c :: q).
  rewrite split_on_sep_cons, split_on_app_nosep, IH by done. by rewrite app_nil_r.
Qed.

Lemma realpath_skip_empty (n : nat) (fs : fsys) cur rest :
  realpath n fs cur ([] :: rest) = realpath n fs cur rest.
Proof. rewrite realpath_cons. case_bool_decide as H; [done|]. exfalso. apply H. by left. Qed.

Lemma realpath_str_path (n : nat) (fs : fsys) (q : path) :
  canonical fs q → Forall nosep q →
  realpath n fs [] (split_on sep (str_path q)) = Some q.
Proof.
  intros Hc Hq. destruct q as [|c q].
  - change (split_on sep (str_path [])) with ([[]; []] : list pystr).
    by rewrite !realpath_skip_empty, realpath_nil.
  - unfold str_path. rewrite split_on_concat by done.
    rewrite realpath_skip_empty. by rewrite (realpath_id n fs (c :: q) []).
Qed.

Lemma elem_of_str_path (z : N) (q : path) :
  z ≠ sep → z ∈ str_path q → ∃ c, c ∈ q ∧ z ∈ c.
Proof.
  intros Hz. destruct q as [|c0 q0]; [by intros [?|?%elem_of_nil]%elem_of_cons|].
  unfold str_path. generalize (c0 :: q0). intros q. induction q as [|c q IH]; simpl.
  - by intros ?%elem_of_nil.
  - intros [?|[?|?]%elem_of_app]%elem_of_cons; [done| |].
    + exists c. split; [by left|done].
    + destruct IH as (c' & ? & ?); [done|]. exists c'. split; [by right|done].
Qed.

(** The text of a canonical path with valid names resolves to the path. *)
Lemma resolve_str_path fs (q : path) :
  canonical fs q → Forall valid_name q →
  resolve P fs [] (str_path q) = Ok q.
Proof.
  intros Hc Hq. unfold resolve.
  rewrite bool_decide_eq_false_2.
  - rewrite app_nil_l, realpath_str_path; [done..|].
    eapply Forall_impl; [done|]. by intros c (_ & _ & _ & ? & _).
  - intros (c & Hin & H0)%elem_of_str_path; [|done].
    rewrite Forall_forall in Hq. by destruct (Hq c Hin) as (_ & _ & _ & _ & ?).
Qed.

Lemma startswith_trans (a b c : pystr) :
  startswith a b = true → startswith b c = true → startswith a c = true.
Proof.
  rewrite !startswith_spec. intros [x ->] [y ->]. exists (y ++ x).
  by rewrite <-app_assoc.
Qed.

(** Where a separator-free piece ends. *)
Lemma nosep_app_inj (a b u v : pystr) :
  nosep a → nosep b → a ++ sep :: u = b ++ sep :: v → a = b ∧ u = v.
Proof.
  unfold nosep. revert b. induction a as [|x a IH]; intros [|y b] Ha Hb H; simpl in *.
  - by injection H as ->.
  - injection H as <- _. exfalso. apply Hb. by left.
  - injection H as -> _. exfalso. apply Ha. by left.
  - injection H as -> H. destruct (IH b) as [-> ->]; [| |done..].
    + intros ?. apply Ha. by right.
    + intros ?. apply Hb. by right.
Qed.

Lemma nosep_prefix (a b t r : pystr) :
  nosep b → (t = [] ∨ ∃ u, t = sep :: u) → a ++ t = b ++ r → ∃ x, a = b ++ x.
Proof.
  unfold nosep. revert a. induction b as [|y b IH]; intros a Hb Ht H.
  - by exists a.
  - destruct a as [|z a]; simpl in *.
    + destruct Ht as [->|[u ->]]; [done|]. injection H as <- _.
      exfalso. apply Hb. by left.
    + injection H as -> H. destruct (IH a) as [x ->]; [|done..|by exists x].
      intros ?. apply Hb. by right.
Qed.

Lemma concat_sep_head (q : path) :
  concat ((λ c, sep :: c) <$> q) = [] ∨
  ∃ u, concat ((λ c, sep :: c) <$> q) = sep :: u.
Proof. destruct q; [by left|right]. simpl. by eexists. Qed.

Lemma continues_name_cons (b : pystr) (base t : path) :
  base ≠ [] → continues_name base t → continues_name (b :: base) (b :: t).
Proof.
  intros Hne (x & rest & Hx & _ & ->). exists x, rest. split; [done|]. split; [done|].
  destruct base as [|c base _] using rev_ind; [done|].
  change (b :: base ++ [c]) with ((b :: base) ++ [c]).
  by rewrite !parent_snoc, !name_snoc.
Qed.

Lemma continues_name_cons_inv (b : pystr) (base t : path) :
  base ≠ [] → continues_name (b :: base) t → ∃ t', t = b :: t' ∧ continues_name base t'.
Proof.
  intros Hne (x & rest & Hx & _ & ->).
  destruct base as [|c base _] using rev_ind; [done|].
  change (b :: base ++ [c]) with ((b :: base) ++ [c]).
  rewrite !parent_snoc, !name_snoc. simpl.
  eexists. split; [done|]. exists x, rest. split; [done|]. split; [by destruct base|].
  by rewrite parent_snoc, name_snoc.
Qed.

Lemma concat_sep_cons (c : pystr) (q : path) :
  concat ((λ c, sep :: c) <$> (c :: q)) = sep :: c ++ concat ((λ c, sep :: c) <$> q).
Proof. done. Qed.

(** The textual check, on the components: the text of [t] starts with the
    text of [base] exactly when [t] is [base] or below it, or is, or is below,
    a path next to [base] whose name continues the name of [base]. *)
Lemma startswith_concat_iff (base t : path) :
  base ≠ [] → Forall nosep base → Forall nosep t →
  (∃ r, concat ((λ c, sep :: c) <$> t) = concat ((λ c, sep :: c) <$> base) ++ r) ↔
  base `prefix_of` t ∨ continues_name base t.
Proof.
  revert t. induction base as [|b base IH]; [done|]. intros t _ Hb Ht. inv Hb.
  destruct (decide (base = [])) as [->|Hne].
  - rewrite concat_sep_cons. change (concat ((λ c, sep :: c) <$> [])) with (@nil N).
    rewrite app_nil_r. split.
    + intros [r Hr]. destruct t as [|a t]; [done|]. inv Ht.
      rewrite concat_sep_cons in Hr. injection Hr as Hr.
      destruct (nosep_prefix a b _ r ltac:(done) (concat_sep_head t) Hr) as [x ->].
      destruct x as [|z x].
      * left. rewrite app_nil_r. by apply (prefix_app_r [b] [b] t).
      * right. exists (z :: x), t. done.
    + intros [[k ->]|(x & rest & _ & _ & ->)].
      * change ([b] ++ k) with (b :: k). rewrite concat_sep_cons. by eexists.
      * change (parent [b] ++ [name [b] ++ x] ++ rest) with ((b ++ x) :: rest).
        rewrite concat_sep_cons, <-app_assoc. by eexists.
  - split.
    + intros [r Hr]. destruct t as [|a t]; [done|]. inv Ht.
      rewrite !concat_sep_cons in Hr.
      injection Hr as Hr. rewrite <-app_assoc in Hr.
      destruct (concat_sep_head base) as [E|[u E]]; [by destruct base|].
      destruct (concat_sep_head t) as [E'|[u' E']].
      { exfalso. rewrite E', E, app_nil_r in Hr. subst a.
        match goal with H : nosep (b ++ _) |- _ => apply H end.
        apply elem_of_app. right. by left. }
      rewrite E, E' in Hr. change ((sep :: u) ++ r) with (sep :: (u ++ r)) in Hr.
      apply nosep_app_inj in Hr as [-> Hr]; [|done..].
      destruct (proj1 (IH t Hne ltac:(done) ltac:(done))) as [Hpre|Hcont].
      * exists r. rewrite E, E'. simpl. by rewrite Hr.
      * left. by apply prefix_cons.
      * right. by apply continues_name_cons.
    + intros [[k ->]|Hcont].
      * rewrite fmap_app, concat_app. by eexists.
      * apply continues_name_cons_inv in Hcont as (t' & -> & Hcont); [|done].
        inv Ht. destruct (proj2 (IH t' Hne ltac:(done) ltac:(done))) as [r Hr];
          [by right|].
        exists r. rewrite !concat_sep_cons, Hr. simpl. by rewrite <-!app_assoc.
Qed.

Lemma startswith_str_path_iff (base t : path) :
  Forall ordinary base → Forall nosep base → Forall nosep t →
  startswith (str_path t) (str_path base) = true ↔
  base `prefix_of` t ∨ continues_name base t.
Proof.
  intros Ho Hb Ht. rewrite startswith_spec.
  destruct base as [|b base].
  - split; [intros _; left; apply prefix_nil|]. intros _. destruct t; by eexists.
  - destruct t as [|a t].
    + split.
      * intros [r Hr]. simpl in Hr. injection Hr as Hr. inv Ho.
        symmetry in Hr. apply app_eq_nil in Hr as [Hr _].
        apply app_eq_nil in Hr as [-> _].
        match goal with H : ordinary [] |- _ => by destruct H end.
      * intros [[k Hk]|(x & rest & _ & _ & Hk)]; [done|].
        by destruct (parent (b :: base)).
    + unfold str_path. by apply startswith_concat_iff.
Qed.

End PathText.

(** * What the resolver accepts, and the paths the operations give out *)

Section Accepted.

Context (P : platform).

Lemma Forall_parent {Q : pystr → Prop} (p : path) : Forall Q p → Forall Q (parent p).
Proof.
  intros H. destruct (parent_prefix p) as [k Hk]. rewrite Hk in H.
  by apply Forall_app in H as [? _].
Qed.

(** Resolution never puts a separator into a component. *)
Lemma realpath_nosep (n : nat) fs : ∀ rest cur p,
  realpath n fs cur rest = Some p → Forall nosep cur → Forall nosep rest →
  Forall nosep p.
Proof.
  induction n as [|n IHn];
    (induction rest as [|c rest IH]; intros cur p;
     [rewrite realpath_nil; by intros [= ->]|]);
    rewrite realpath_cons; intros Hr Hcur Hrest; inv Hrest;
    (case_bool_decide; [by eapply IH|]);
    (case_bool_decide; [eapply IH; [done|by apply Forall_parent|done]|]).
  - destruct (fs !! (cur ++ [c])) as [[| |t]|] eqn:E; try done;
      (eapply IH; [done| |done]); apply Forall_app; split; try done;
      by constructor.
  - destruct (fs !! (cur ++ [c])) as [[| |t]|] eqn:E.
    1,2,4: (eapply IH; [done| |done]); apply Forall_app; split; try done;
      by constructor.
    eapply IHn; [done| |].
    + destruct (is_absolute t); [constructor|done].
    + apply Forall_app. split; [apply split_on_nosep|done].
Qed.

Lemma resolve_nosep fs start s p :
  resolve P fs start s = Ok p → Forall nosep start → Forall nosep p.
Proof.
  unfold resolve. case_bool_decide; [done|].
  destruct (realpath _ _ _ _) eqn:E; [|done]. intros [= <-] Hs.
  eapply realpath_nosep; [done|constructor|].
  apply Forall_app. split; [done|apply split_on_nosep].
Qed.

Lemma _get_fs_root_nosep fs base :
  Forall nosep (cwd P) → _get_fs_root P fs = Ok base → Forall nosep base.
Proof.
  intros Hcwd. unfold _get_fs_root. intros H.
  eapply resolve_nosep; [done|]. destruct (is_absolute _); [constructor|done].
Qed.

Lemma _get_fs_root_canonical fs base :
  _get_fs_root P fs = Ok base → canonical fs base.
Proof. unfold _get_fs_root. apply resolve_canonical. Qed.

(** What a successful call of [_resolve_safe] went through. *)
Lemma _resolve_safe_inv fs v t :
  _resolve_safe P fs v = Ok t →
  ∃ s base, v = VStr s ∧ _get_fs_root P fs = Ok base ∧
    resolve P fs (if is_absolute s then [] else base) s = Ok t ∧
    startswith (str_path t) (str_path base) = true.
Proof.
  unfold _resolve_safe. destruct (_get_fs_root P fs) as [base|] eqn:Hb; [|done].
  destruct v as [| | |s| |]; try done.
  destruct (resolve P fs _ s) as [target|] eqn:Ht; [|done].
  destruct (startswith _ _) eqn:Hs; [|done]. intros [= <-]. by exists s, base.
Qed.

Lemma startswith_below (base d q : path) :
  Forall ordinary base → startswith (str_path d) (str_path base) = true →
  d `prefix_of` q → startswith (str_path q) (str_path base) = true.
Proof.
  intros Ho Hd [k ->]. destruct d as [|c d].
  - apply startswith_spec in Hd as [b Hb]. destruct base as [|c base].
    + apply startswith_spec. destruct k; by eexists.
    + exfalso. inv Ho. change (str_path (c :: base)) with
        (sep :: c ++ concat ((λ c, sep :: c) <$> base)) in Hb.
      injection Hb as Hb. symmetry in Hb.
      apply app_eq_nil in Hb as [Hb _]. apply app_eq_nil in Hb as [-> _].
      match goal with H : ordinary [] |- _ => by destruct H end.
  - rewrite str_path_app by done. eapply startswith_trans; [|done].
    apply startswith_app.
Qed.

(** The text of a canonical path that passes the check resolves to the path
    and passes the check. *)
Lemma _resolve_safe_text fs base (q : path) :
  _get_fs_root P fs = Ok base → canonical fs q → Forall valid_name q →
  startswith (str_path q) (str_path base) = true →
  _resolve_safe P fs (VStr (str_path q)) = Ok q.
Proof.
  intros Hb Hc Hv Hs. unfold _resolve_safe.
  by rewrite Hb, str_path_absolute, resolve_str_path, Hs.
Qed.

Lemma wf_valid_names fs : wf fs → ∀ (p : path) x, fs !! p = Some x → Forall valid_name p.
Proof.
  intros Hwf. induction p as [|c p IH] using rev_ind; intros x Hp; [constructor|].
  pose proof (wf_lookup _ _ _ _ Hwf Hp) as [Hc Hd].
  apply Forall_app. split; [by eapply IH|]. by constructor.
Qed.

(** An entry that exists at or below an accepted path, and is no symbolic
    link, is accepted by its text. *)
Lemma _resolve_safe_entry fs v d (q : path) i :
  wf fs → _resolve_safe P fs v = Ok d → d `prefix_of` q →
  fs !! q = Some i → (∀ t, i ≠ Lnk t) →
  _resolve_safe P fs (VStr (str_path q)) = Ok q.
Proof.
  intros Hwf Hres Hq Hi Hl.
  apply _resolve_safe_inv in Hres as (s & base & _ & Hb & _ & Hs).
  eapply _resolve_safe_text; [done|by eapply wf_canonical|by eapply wf_valid_names|].
  eapply startswith_below; [|done..].
  by apply (_get_fs_root_canonical fs).
Qed.

Lemma read_file_text fs v p encoding :
  _resolve_safe P fs v = Ok p → is_file P fs p = true →
  read_file P fs v encoding = read_text P fs p encoding.
Proof.
  intros Hres Hf. unfold read_file. rewrite Hres. simpl. rewrite Hf.
  assert (exists_ P fs p = true) as ->; [|done].
  unfold is_file in Hf. unfold exists_. by destruct (stat P fs p).
Qed.

End Accepted.

(** [_resolve_safe] accepts a path exactly when the path it resolves to is
    the root or inside it, or is, or is inside, a neighbour of the root whose
    name continues the name of the root; every other path is refused with
    [ValueError].  (The components of the working directory hold no
    separator.) *)
Theorem _resolve_safe_accepts_exactly (P : platform) fs s base target :
  Forall nosep (cwd P) →
  _get_fs_root P fs = Ok base →
  resolve P fs (if is_absolute s then [] else base) s = Ok target →
  ((base `prefix_of` target ∨ continues_name base target) ∧
   _resolve_safe P fs (VStr s) = Ok target) ∨
  (¬ (base `prefix_of` target ∨ continues_name base target) ∧
   _resolve_safe P fs (VStr s) =
     Raise (Exn ValueError (py "Path escapes FS_ROOT: " ++ str_path target))).
Proof.
  intros Hcwd Hb Ht.
  pose proof (_get_fs_root_nosep P fs base Hcwd Hb) as Hbn.
  assert (Forall nosep target) as Htn.
  { eapply resolve_nosep; [done|]. destruct (is_absolute s); [constructor|done]. }
  pose proof (_get_fs_root_canonical P fs base Hb) as [Hbo _].
  pose proof (startswith_str_path_iff base target Hbo Hbn Htn) as Hiff.
  rewrite (_resolve_safe_escape P fs s base target Hb Ht).
  destruct (startswith (str_path target) (str_path base)).
  - left. split; [by apply Hiff|done].
  - right. split; [|done]. intros H. by apply Hiff in H.
Qed.

Lemma _resolve_safe_accepts_exactly_witness :
  let base := [py "srv"; py "root"] in
  let target := [py "srv"; py "root"; py "docs"; py "b.bin"] in
  ((base `prefix_of` target ∨ continues_name base target) ∧
   _resolve_safe srv disk (VStr (py "docs/./b.bin")) = Ok target) ∨
  (¬ (base `prefix_of` target ∨ continues_name base target) ∧
   _resolve_safe srv disk (VStr (py "docs/./b.bin")) =
     Raise (Exn ValueError (py "Path escapes FS_ROOT: " ++ str_path target))).
Proof.
  apply (_resolve_safe_accepts_exactly srv disk (py "docs/./b.bin")
           [py "srv"; py "root"] [py "srv"; py "root"; py "docs"; py "b.bin"]).
  - apply (bool_decide_unpack _). by vm_compute.
  - reflexivity.
  - reflexivity.
Defined.

(** The text of a path that [_resolve_safe] returned is accepted again and
    names the same path: what the operations print can be given back to
    them. *)
Theorem _resolve_safe_of_its_text (P : platform) fs v p :
  _resolve_safe P fs v = Ok p → Forall valid_name p →
  _resolve_safe P fs (VStr (str_path p)) = Ok p.
Proof.
  intros Hres Hv.
  pose proof (_resolve_safe_canonical P fs v p Hres) as Hc.
  apply _resolve_safe_inv in Hres as (s & base & _ & Hb & _ & Hs).
  by eapply _resolve_safe_text.
Qed.

Lemma _resolve_safe_of_its_text_witness :
  _resolve_safe srv disk (VStr (py "/srv/root/a.txt")) =
    Ok [py "srv"; py "root"; py "a.txt"].
Proof.
  apply (_resolve_safe_of_its_text srv disk (VStr (py "docs/../a.txt"))
           [py "srv"; py "root"; py "a.txt"]).
  - reflexivity.
  - apply (bool_decide_unpack _). by vm_compute.
Defined.

(** * From the results of one operation to the arguments of another *)

Section GivenOut.

Context (P : platform).

Lemma no_links_below_lookup fs (d q : path) i :
  no_links_below fs d → d `prefix_of` q → fs !! q = Some i → ∀ t, i ≠ Lnk t.
Proof. intros H Hq Hi t ->. by specialize (H q _ Hi Hq). Qed.

Lemma elem_of_sorted (l : list path) q : q ∈ sorted l ↔ q ∈ l.
Proof. unfold sorted. by rewrite merge_sort_Permutation. Qed.

Lemma _format_entry_name fs q : e_name (_format_entry P fs q) = name q.
Proof. unfold _format_entry. by destruct (stat P fs q). Qed.

Lemma _format_entry_path fs q : e_path (_format_entry P fs q) = str_path q.
Proof. unfold _format_entry. by destruct (stat P fs q). Qed.

(** A regular file found below an accepted directory, in a tree without
    symbolic links, is read by its text. *)
Lemma read_file_found fs v root q enc :
  wf fs → _resolve_safe P fs v = Ok root → no_links_below fs root →
  q ∈ rglob fs root → is_file P fs q = true →
  below root q ∧
  _resolve_safe P fs (VStr (str_path q)) = Ok q ∧
  read_file P fs (VStr (str_path q)) enc = read_text P fs q enc.
Proof.
  intros Hwf Hres Hno [[Hpre Hne] [i Hi]]%elem_of_rglob Hf.
  assert (_resolve_safe P fs (VStr (str_path q)) = Ok q) as Hq.
  { eapply _resolve_safe_entry; [done..|]. by eapply no_links_below_lookup. }
  split; [done|]. split; [done|]. by apply read_file_text.
Qed.

End GivenOut.

(** The [path] of an entry that [list_directory] returned, given to
    [get_file_info], gives the same entry with [exists] set, when the entry is
    not a symbolic link. *)
Theorem list_directory_then_get_file_info (P : platform) fs v d entries e :
  wf fs → _resolve_safe P fs v = Ok d →
  list_directory P fs v = Ok entries → e ∈ entries →
  is_lnk (fs !! (d ++ [e_name e])) = false →
  get_file_info P fs (VStr (e_path e)) =
    Ok (Entry (e_path e) (e_name e) (e_is_dir e) (e_size e) (Some true)).
Proof.
  intros Hwf Hres Hl He Hnl.
  unfold list_directory, rbind in Hl. rewrite Hres in Hl.
  destruct (negb _ || negb _); [done|]. injection Hl as <-.
  apply list_elem_of_fmap in He as (q & -> & Hq).
  apply elem_of_sorted, elem_of_iterdir in Hq as (Hne & Hpar & [i Hi]).
  rewrite _format_entry_name in Hnl. rewrite <-Hpar, <-(path_snoc_inv q Hne), Hi in Hnl.
  assert (∀ t, i ≠ Lnk t) as Hi' by (by intros t ->).
  assert (_resolve_safe P fs (VStr (str_path q)) = Ok q) as Hq.
  { eapply (_resolve_safe_entry P fs v d q i); try done.
    rewrite <-Hpar. apply parent_prefix. }
  pose proof (wf_canonical fs q i Hwf Hi Hi') as Hc.
  rewrite _format_entry_path. unfold get_file_info, rbind. rewrite Hq.
  rewrite (exists_canonical P fs q Hc), bool_decide_eq_true_2 by (by rewrite Hi).
  simpl. by rewrite _format_entry_path.
Qed.

Lemma list_directory_then_get_file_info_witness :
  get_file_info srv disk (VStr (py "/srv/root/docs/b.bin")) =
    Ok (Entry (py "/srv/root/docs/b.bin") (py "b.bin") false (Some 1%nat) (Some true)).
Proof.
  apply (list_directory_then_get_file_info srv disk (VStr (py "docs"))
           [py "srv"; py "root"; py "docs"]
           [Entry (py "/srv/root/docs/Report.md") (py "Report.md") false (Some 1%nat) None;
            Entry (py "/srv/root/docs/b.bin") (py "b.bin") false (Some 1%nat) None]
           (Entry (py "/srv/root/docs/b.bin") (py "b.bin") false (Some 1%nat) None)).
  - apply disk_wf.
  - reflexivity.
  - reflexivity.
  - apply elem_of_cons. right. apply elem_of_cons. by left.
  - reflexivity.
Defined.

(** Every path that [search_files] returns names a regular file below the
    directory searched, and [read_file] on that path reads that file, when no
    symbolic link lies below the directory. *)
Theorem search_files_then_read_file (P : platform) fs v nc root found s enc :
  wf fs → _resolve_safe P fs v = Ok root → no_links_below fs root →
  search_files P fs v nc = Ok found → s ∈ found →
  ∃ q data, s = str_path q ∧ below root q ∧ fs !! q = Some (Reg data) ∧
    read_file P fs (VStr s) enc =
      (let? x := bytes_decode P enc data in Ok (universal_newlines x)).
Proof.
  intros Hwf Hres Hno Hs Hin.
  unfold search_files, rbind in Hs. rewrite Hres in Hs.
  destruct (negb _ || negb _); [done|].
  destruct (needle_of P nc) as [needle|]; [|done]. injection Hs as <-.
  apply list_elem_of_fmap in Hin as (q & -> & Hq).
  apply list_elem_of_filter in Hq as [Hq Hrg].
  apply Is_true_true, andb_true_iff in Hq as [Hf _].
  destruct (read_file_found P fs v root q enc Hwf Hres Hno Hrg Hf) as (Hb & Hq & Hr).
  pose proof (_resolve_safe_canonical P fs _ q Hq) as Hc.
  rewrite (is_file_canonical P fs q Hc) in Hf.
  destruct (fs !! q) as [[data| |]|] eqn:E; try done.
  exists q, data. split; [done|]. split; [done|]. split; [done|].
  by apply (read_file_regular P fs (VStr (str_path q)) q).
Qed.

Lemma search_files_then_read_file_witness :
  ∃ q data, py "/srv/root/docs/Report.md" = str_path q ∧
    below [py "srv"; py "root"] q ∧ disk !! q = Some (Reg data) ∧
    read_file srv disk (VStr (py "/srv/root/docs/Report.md")) (VStr (py "utf-8")) =
      (let? x := bytes_decode srv (VStr (py "utf-8")) data in Ok (universal_newlines x)).
Proof.
  apply (search_files_then_read_file srv disk (VStr (py ".")) (VStr (py "report"))
           [py "srv"; py "root"] [py "/srv/root/docs/Report.md"]
           (py "/srv/root/docs/Report.md") (VStr (py "utf-8"))).
  - apply disk_wf.
  - reflexivity.
  - apply (bool_decide_unpack _). by vm_compute.
  - reflexivity.
  - apply elem_of_cons. by left.
Defined.

(** Every hit of [search_in_files], read back by [read_file] under the same
    encoding, gives a content that holds the text searched for, when no
    symbolic link lies below the directory. *)
Theorem search_in_files_then_read_file (P : platform) fs v text enc root hits h :
  wf fs → _resolve_safe P fs v = Ok root → no_links_below fs root →
  search_in_files P fs v (VStr text) enc = Ok hits → h ∈ hits →
  ∃ content, read_file P fs (VStr (hit_path h)) enc = Ok content ∧
             contains text content = true.
Proof.
  intros Hwf Hres Hno Hs Hin.
  unfold search_in_files, rbind in Hs. rewrite Hres in Hs.
  destruct (negb _ || negb _); [done|].
  destruct (negb (truthy (VStr text))).
  { injection Hs as <-. by apply elem_of_nil in Hin. }
  rewrite scan_filter in Hs. injection Hs as <-.
  apply list_elem_of_fmap in Hin as (q & -> & Hq).
  apply list_elem_of_filter in Hq as [Hq Hrg].
  apply Is_true_true in Hq. unfold holds_text in Hq.
  apply andb_true_iff in Hq as [Hf Hq].
  destruct (read_file_found P fs v root q enc Hwf Hres Hno Hrg Hf) as (_ & _ & Hr).
  simpl. rewrite Hr. destruct (read_text P fs q enc) as [content|]; [|done].
  by exists content.
Qed.

Lemma search_in_files_then_read_file_witness :
  ∃ content, read_file srv disk (VStr (py "/srv/root/a.txt")) (VStr (py "utf-8")) = Ok content ∧
             contains (py "ell") content = true.
Proof.
  apply (search_in_files_then_read_file srv disk (VStr (py ".")) (py "ell")
           (VStr (py "utf-8")) [py "srv"; py "root"] [Hit (py "/srv/root/a.txt")]
           (Hit (py "/srv/root/a.txt"))).
  - apply disk_wf.
  - reflexivity.
  - apply (bool_decide_unpack _). by vm_compute.
  - reflexivity.
  - apply elem_of_cons. by left.
Defined.

(** * [create_directory], and undoing with [delete_file] *)

Section CreateDelete.

Context (P : platform).

Lemma mkdir_existing fs p exist_ok x :
  canonical fs p → fs !! p = Some x →
  mkdir P p true exist_ok fs =
    (if exist_ok && bool_decide (x = Dir) then Ok () else Raise (EEXIST p), fs).
Proof.
  intros Hc Hp. unfold mkdir.
  assert (∀ rp, os_mkdir (reverse rp) fs = (Raise (EEXIST (reverse rp)), fs) →
                mkdir_parents P rp exist_ok fs =
                  mkdir_exists P (reverse rp) exist_ok (EEXIST (reverse rp)) fs) as Hgo.
  { intros rp Hos. destruct rp; simpl; unfold try_except; by rewrite Hos. }
  rewrite Hgo; rewrite reverse_involutive; [|by eapply os_mkdir_exist].
  unfold mkdir_exists. rewrite (is_dir_canonical P fs p Hc).
  assert (bool_decide (fs !! p = Some Dir) = bool_decide (x = Dir)) as ->.
  { apply bool_decide_ext. rewrite Hp. split; congruence. }
  by destruct exist_ok, (bool_decide (x = Dir)).
Qed.

(** A directory that is missing is made, with the directories missing above
    it, whatever [exist_ok] is. *)
Lemma mkdir_absent fs p exist_ok :
  wf fs → Forall ordinary p → only_dirs_on fs p → fs !! p = None →
  ∃ fs', mkdir P p true exist_ok fs = (Ok (), fs') ∧ dirs_added p fs fs'.
Proof.
  intros Hwf Ho Hdirs Hp. destruct exist_ok; [by apply mkdir_spec|].
  destruct p as [|c q _] using rev_ind.
  { destruct Hwf as [Hr _]. congruence. }
  apply Forall_app in Ho as [Hoq _].
  assert (only_dirs_on fs q) as Hdq.
  { eapply only_dirs_on_prefix; [done|]. by apply prefix_app_r. }
  unfold mkdir. rewrite reverse_snoc, mkdir_parents_cons.
  rewrite reverse_cons, reverse_involutive. unfold try_except.
  destruct (Hdirs q) as [Hq|Hq]; [by apply prefix_app_r| |].
  - rewrite os_mkdir_noent by (by rewrite ?parent_snoc).
    rewrite decide_True by done.
    destruct (mkdir_parents_spec P fs Hwf (reverse q)) as (fs1 & Hrun & Hfs1).
    { by apply Forall_reverse. }
    { by rewrite reverse_involutive. }
    rewrite reverse_involutive in Hfs1.
    unfold bind. rewrite Hrun. unfold mkdir_single, try_except.
    rewrite os_mkdir_new.
    + eexists. split; [done|]. intros r.
      destruct (decide (r = q ++ [c])) as [->|Hne].
      * by rewrite lookup_insert_eq, decide_True.
      * rewrite lookup_insert_ne, Hfs1 by done.
        destruct (decide (r `prefix_of` q)) as [Hr|Hr].
        -- rewrite decide_True; [done|]. by apply prefix_app_r.
        -- rewrite decide_False; [done|].
           by intros [?|?]%prefix_snoc_inv.
    + rewrite Hfs1, decide_False; [done|apply not_prefix_snoc].
    + by rewrite parent_snoc, Hfs1, decide_True.
  - rewrite os_mkdir_new by (by rewrite ?parent_snoc).
    eexists. split; [done|]. intros r.
    destruct (decide (r = q ++ [c])) as [->|Hne].
    + by rewrite lookup_insert_eq, decide_True.
    + rewrite lookup_insert_ne by done.
      destruct (decide (r `prefix_of` q ++ [c])) as [Hr|Hr]; [|done].
      apply prefix_snoc_inv in Hr as [?|Hr]; [done|].
      destruct (decide (r = q)) as [->|Hrq]; [done|].
      by apply (wf_ancestors fs Hwf q r Dir).
Qed.

(** Making one directory in a directory that exists: the filesystem with
    that one entry more. *)
Lemma dirs_added_one fs fs' (p : path) :
  wf fs → fs !! parent p = Some Dir → dirs_added p fs fs' → fs' = <[p := Dir]> fs.
Proof.
  intros Hwf Hpar Hfs'. apply map_eq. intros r. rewrite Hfs'.
  destruct (decide (r = p)) as [->|Hne].
  - by rewrite lookup_insert_eq, decide_True.
  - rewrite lookup_insert_ne by done.
    destruct (decide (r `prefix_of` p)) as [Hr|Hr]; [|done].
    destruct p as [|c q _] using rev_ind.
    { apply prefix_nil_inv in Hr. congruence. }
    rewrite parent_snoc in Hpar.
    apply prefix_snoc_inv in Hr as [?|Hr]; [done|].
    destruct (decide (r = q)) as [->|Hrq]; [done|].
    symmetry. by apply (wf_ancestors fs Hwf q r Dir).
Qed.


(** Nothing lies below a path that does not exist. *)
Lemma wf_nothing_below fs (p q : path) :
  wf fs → fs !! p = None → p `prefix_of` q → fs !! q = None.
Proof.
  intros Hwf Hp Hq. destruct (fs !! q) as [x|] eqn:E; [|done].
  destruct (decide (p = q)) as [->|Hne]; [congruence|].
  rewrite (wf_ancestors fs Hwf q p x E Hq Hne) in Hp. done.
Qed.

Lemma exists_absent fs p : canonical fs p → fs !! p = None → exists_ P fs p = false.
Proof.
  intros Hc Hp. rewrite exists_canonical by done.
  rewrite bool_decide_eq_false_2; [done|]. rewrite Hp. by intros [? ?].
Qed.

Lemma exists_present fs p x : canonical fs p → fs !! p = Some x → exists_ P fs p = true.
Proof.
  intros Hc Hp. rewrite exists_canonical by done.
  by rewrite bool_decide_eq_true_2 by (by rewrite Hp).
Qed.

Lemma is_dir_present fs p : canonical fs p → fs !! p = Some Dir → is_dir P fs p = true.
Proof.
  intros Hc Hp. rewrite is_dir_canonical by done. by rewrite bool_decide_eq_true_2.
Qed.

Lemma is_dir_other fs p : canonical fs p → fs !! p ≠ Some Dir → is_dir P fs p = false.
Proof.
  intros Hc Hp. rewrite is_dir_canonical by done. by rewrite bool_decide_eq_false_2.
Qed.

End CreateDelete.

(** [create_directory] on a path where nothing exists makes the directory and
    every directory missing above it and changes nothing else, whatever
    [exist_ok] is; [list_directory] on the same path then returns no entry. *)
Theorem create_directory_missing (P : platform) fs v exist_ok p :
  wf fs → _resolve_safe P fs v = Ok p → fs !! p = None → only_dirs_on fs p →
  ∃ fs', create_directory P v exist_ok fs =
           (Ok (py "Created directory: " ++ str_path p), fs') ∧
         dirs_added p fs fs' ∧
         list_directory P fs' v = Ok [].
Proof.
  intros Hwf Hres Hp Hdirs.
  pose proof (_resolve_safe_canonical P fs v p Hres) as Hc.
  destruct (mkdir_absent P fs p (truthy exist_ok) Hwf (proj1 Hc) Hdirs Hp)
    as (fs' & Hmk & Hfs').
  exists fs'. split; [|split; [done|]].
  - unfold create_directory, bind, reading, ret. by rewrite Hres, Hmk.
  - pose proof (dirs_added_same_links fs fs' p Hdirs Hfs') as Hl.
    assert (fs' !! p = Some Dir) as Hp' by (by rewrite Hfs', decide_True).
    rewrite (list_directory_listing P fs' v p).
    + rewrite iterdir_empty; [done|]. intros c.
      rewrite Hfs', decide_False by apply not_prefix_snoc.
      apply (wf_nothing_below fs p); [done..|by apply prefix_app_r].
    + by rewrite <-(_resolve_safe_same_links P fs fs').
    + apply is_dir_present; [by eapply same_links_canonical|done].
Qed.

Lemma create_directory_missing_witness :
  ∃ fs', create_directory srv (VStr (py "new/deep")) (VBool false) disk =
           (Ok (py "Created directory: /srv/root/new/deep"), fs') ∧
         dirs_added [py "srv"; py "root"; py "new"; py "deep"] disk fs' ∧
         list_directory srv fs' (VStr (py "new/deep")) = Ok [].
Proof.
  apply (create_directory_missing srv disk (VStr (py "new/deep")) (VBool false)
           [py "srv"; py "root"; py "new"; py "deep"]).
  - apply disk_wf.
  - reflexivity.
  - reflexivity.
  - apply only_dirs_onb_true. reflexivity.
Defined.

(** [create_directory] on a path that exists never changes the filesystem:
    it reports success when the path is a directory and [exist_ok] holds, and
    fails with [FileExistsError] when the path is a file or [exist_ok] is
    false. *)
Theorem create_directory_existing (P : platform) fs v exist_ok p x :
  _resolve_safe P fs v = Ok p → fs !! p = Some x →
  create_directory P v exist_ok fs =
    (if truthy exist_ok && bool_decide (x = Dir)
     then Ok (py "Created directory: " ++ str_path p)
     else Raise (EEXIST p), fs).
Proof.
  intros Hres Hp.
  pose proof (_resolve_safe_canonical P fs v p Hres) as Hc.
  unfold create_directory, bind, reading, ret.
  rewrite Hres, (mkdir_existing P fs p (truthy exist_ok) x Hc Hp).
  by destruct (truthy exist_ok && bool_decide (x = Dir)).
Qed.

Lemma create_directory_existing_witness :
  create_directory srv (VStr (py "a.txt")) (VBool true) disk =
    (Raise (EEXIST [py "srv"; py "root"; py "a.txt"]), disk).
Proof.
  apply (create_directory_existing srv disk (VStr (py "a.txt")) (VBool true)
           [py "srv"; py "root"; py "a.txt"] (Reg (bytes "hello"))).
  - reflexivity.
  - reflexivity.
Defined.

(** [delete_file] undoes [create_directory]: after a directory was made in a
    directory that exists, deleting it, recursively or not, gives back the
    filesystem as it was. *)
Theorem create_directory_then_delete_file (P : platform) fs v exist_ok recursive p :
  wf fs → _resolve_safe P fs v = Ok p → fs !! p = None →
  fs !! parent p = Some Dir →
  ∃ fs' msg,
    create_directory P v exist_ok fs = (Ok (py "Created directory: " ++ str_path p), fs') ∧
    fs' !! p = Some Dir ∧
    delete_file P v recursive fs' = (Ok msg, fs) ∧
    msg = (if truthy recursive then py "Removed directory tree: " else py "Removed directory: ")
          ++ str_path p.
Proof.
  intros Hwf Hres Hp Hpar.
  pose proof (_resolve_safe_canonical P fs v p Hres) as Hc.
  assert (p ≠ []) as Hne. { intros ->. destruct Hwf as [Hr _]. congruence. }
  assert (only_dirs_on fs p) as Hdirs.
  { intros r Hr. destruct (decide (r = p)) as [->|Hrp]; [by left|right].
    rewrite (path_snoc_inv p Hne) in Hr.
    apply prefix_snoc_inv in Hr as [Hr|Hr]; [by rewrite <-(path_snoc_inv p Hne) in Hr|].
    destruct (decide (r = parent p)) as [->|Hrq]; [done|].
    by apply (wf_ancestors fs Hwf (parent p) r Dir). }
  destruct (mkdir_absent P fs p (truthy exist_ok) Hwf (proj1 Hc) Hdirs Hp)
    as (fs' & Hmk & Hfs').
  pose proof (dirs_added_same_links fs fs' p Hdirs Hfs') as Hl.
  apply (dirs_added_one fs fs' p Hwf Hpar) in Hfs'. subst fs'.
  assert (canonical (<[p:=Dir]> fs) p) as Hc' by (by eapply same_links_canonical).
  assert (iterdir (<[p:=Dir]> fs) p = []) as Hempty.
  { apply iterdir_empty. intros c.
    rewrite lookup_insert_ne by (intros Heq; apply (not_prefix_snoc p c); by rewrite <-Heq).
    apply (wf_nothing_below fs p); [done..|by apply prefix_app_r]. }
  eexists _, _. split; [|split; [apply lookup_insert_eq|split; [|done]]].
  { unfold create_directory, bind, reading, ret. by rewrite Hres, Hmk. }
  unfold delete_file, bind, reading, get, ret.
  rewrite <-(_resolve_safe_same_links P fs (<[p:=Dir]> fs)), Hres by done.
  rewrite (exists_present P _ p Dir Hc') by apply lookup_insert_eq.
  rewrite (is_dir_present P _ p Hc') by apply lookup_insert_eq.
  cbn [negb]. destruct (truthy recursive).
  - unfold rmtree. rewrite lookup_insert_eq.
    assert (filter (λ kv : path * inode, ¬ below p kv.1) (<[p:=Dir]> fs) = <[p:=Dir]> fs) as ->.
    { apply map_eq. intros r. rewrite map_lookup_filter.
      destruct (<[p:=Dir]> fs !! r) as [y|] eqn:E; [|done]. simpl.
      rewrite option_guard_True; [done|]. simpl. intros [Hpre Hrp].
      rewrite lookup_insert_ne in E by done.
      by rewrite (wf_nothing_below fs p r Hwf Hp Hpre) in E. }
    unfold os_rmdir. rewrite lookup_insert_eq.
    rewrite decide_False by done. rewrite decide_True by done.
    by rewrite delete_insert_id.
  - unfold os_rmdir. rewrite lookup_insert_eq.
    rewrite decide_False by done. rewrite decide_True by done.
    by rewrite delete_insert_id.
Qed.

Lemma create_directory_then_delete_file_witness :
  ∃ fs' msg,
    create_directory srv (VStr (py "sub/new")) (VBool true) disk =
      (Ok (py "Created directory: /srv/root/sub/new"), fs') ∧
    fs' !! [py "srv"; py "root"; py "sub"; py "new"] = Some Dir ∧
    delete_file srv (VStr (py "sub/new")) (VBool false) fs' = (Ok msg, disk) ∧
    msg = py "Removed directory: /srv/root/sub/new".
Proof.
  apply (create_directory_then_delete_file srv disk (VStr (py "sub/new")) (VBool true)
           (VBool false) [py "srv"; py "root"; py "sub"; py "new"]).
  - apply disk_wf.
  - reflexivity.
  - reflexivity.
  - reflexivity.
Defined.

(** * Files: deleting, writing and reading back *)

Section Files.

Context (P : platform).

Lemma same_links_delete fs (p : path) :
  link_at fs p = None → same_links fs (delete p fs).
Proof.
  intros Hp q. unfold link_at in *. destruct (decide (p = q)) as [<-|].
  - by rewrite lookup_delete_eq.
  - by rewrite lookup_delete_ne.
Qed.



(** The parents of something that exists are there already. *)
Lemma mkdir_parent_of_existing fs (d : path) x :
  wf fs → canonical fs d → fs !! d = Some x →
  mkdir P (parent d) true true fs = (Ok (), fs).
Proof.
  intros Hwf Hc Hd. apply mkdir_present; [by apply canonical_parent|by eapply wf_parent].
Qed.

End Files.

(** [delete_file] on a regular file removes that entry and nothing else,
    whatever [recursive] is; a second call on the same path finds it gone and
    changes nothing. *)
Theorem delete_file_regular_file (P : platform) fs v recursive p data :
  _resolve_safe P fs v = Ok p → fs !! p = Some (Reg data) →
  delete_file P v recursive fs =
    (Ok (py "Removed file: " ++ str_path p), delete p fs) ∧
  delete_file P v recursive (delete p fs) =
    (Ok (py "Already gone: " ++ str_path p), delete p fs).
Proof.
  intros Hres Hp.
  pose proof (_resolve_safe_canonical P fs v p Hres) as Hc.
  assert (same_links fs (delete p fs)) as Hl.
  { apply same_links_delete. unfold link_at. by rewrite Hp. }
  split.
  - unfold delete_file, bind, reading, get, ret. rewrite Hres.
    rewrite (exists_present P fs p _ Hc Hp).
    rewrite (is_dir_other P fs p Hc) by (by rewrite Hp).
    cbn [negb]. unfold os_unlink. by rewrite Hp.
  - unfold delete_file, bind, reading, get, ret.
    rewrite <-(_resolve_safe_same_links P fs (delete p fs)), Hres by done.
    rewrite (exists_absent P (delete p fs) p); [done| |apply lookup_delete_eq].
    by eapply same_links_canonical.
Qed.

Lemma delete_file_regular_file_witness :
  delete_file srv (VStr (py "a.txt")) (VBool true) disk =
    (Ok (py "Removed file: /srv/root/a.txt"), delete [py "srv"; py "root"; py "a.txt"] disk) ∧
  delete_file srv (VStr (py "a.txt")) (VBool true)
      (delete [py "srv"; py "root"; py "a.txt"] disk) =
    (Ok (py "Already gone: /srv/root/a.txt"), delete [py "srv"; py "root"; py "a.txt"] disk).
Proof.
  apply (delete_file_regular_file srv disk (VStr (py "a.txt")) (VBool true)
           [py "srv"; py "root"; py "a.txt"] (bytes "hello")).
  - reflexivity.
  - reflexivity.
Defined.





(** [copy_file] refuses without touching the filesystem: a source that is
    missing or is not a regular file gives [FileNotFoundError], and a
    destination that exists, with [overwrite] false, gives
    [FileExistsError]. *)
Theorem copy_file_refusals (P : platform) fs src dst overwrite s d :
  wf fs → _resolve_safe P fs src = Ok s → _resolve_safe P fs dst = Ok d →
  (is_file P fs s = false →
   copy_file P src dst overwrite fs =
     (Raise (Exn FileNotFoundError (py "Source file not found: " ++ str_path s)), fs)) ∧
  (is_file P fs s = true → is_Some (fs !! d) → truthy overwrite = false →
   copy_file P src dst overwrite fs =
     (Raise (Exn FileExistsError (py "Destination exists: " ++ str_path d)), fs)).
Proof.
  intros Hwf Hs Hd.
  pose proof (_resolve_safe_canonical P fs dst d Hd) as Hcd.
  split.
  - intros Hf. unfold copy_file, bind, reading, get, raise.
    rewrite Hs, Hd, Hf. by rewrite orb_true_r.
  - intros Hf [x Hx] Ho. unfold copy_file, bind, reading, get, raise.
    rewrite Hs, Hd, Hf.
    assert (exists_ P fs s = true) as ->.
    { unfold is_file in Hf. unfold exists_. by destruct (stat P fs s). }
    cbn [negb orb]. rewrite (mkdir_parent_of_existing P fs d x Hwf Hcd Hx).
    by rewrite (exists_present P fs d x Hcd Hx), Ho.
Qed.

Lemma copy_file_refusals_witness :
  copy_file srv (VStr (py "docs")) (VStr (py "sub/x")) (VBool true) disk =
    (Raise (Exn FileNotFoundError (py "Source file not found: /srv/root/docs")), disk) ∧
  copy_file srv (VStr (py "a.txt")) (VStr (py "docs/b.bin")) (VBool false) disk =
    (Raise (Exn FileExistsError (py "Destination exists: /srv/root/docs/b.bin")), disk).
Proof.
  split.
  - apply (copy_file_refusals srv disk (VStr (py "docs")) (VStr (py "sub/x"))
             (VBool true) [py "srv"; py "root"; py "docs"]
             [py "srv"; py "root"; py "sub"; py "x"]).
    + apply disk_wf.
    + reflexivity.
    + reflexivity.
    + reflexivity.
  - apply (copy_file_refusals srv disk (VStr (py "a.txt")) (VStr (py "docs/b.bin"))
             (VBool false) [py "srv"; py "root"; py "a.txt"]
             [py "srv"; py "root"; py "docs"; py "b.bin"]).
    + apply disk_wf.
    + reflexivity.
    + reflexivity.
    + reflexivity.
    + exists (Reg [xff]). reflexivity.
    + reflexivity.
Defined.

(** [move_file] refuses without touching the filesystem: a source that does
    not exist gives [FileNotFoundError], and a destination that exists, with
    [overwrite] false, gives [FileExistsError]. *)
Theorem move_file_refusals (P : platform) fs src dst overwrite s d :
  wf fs → _resolve_safe P fs src = Ok s → _resolve_safe P fs dst = Ok d →
  (fs !! s = None →
   move_file P src dst overwrite fs =
     (Raise (Exn FileNotFoundError (py "Source not found: " ++ str_path s)), fs)) ∧
  (is_Some (fs !! s) → is_Some (fs !! d) → truthy overwrite = false →
   move_file P src dst overwrite fs =
     (Raise (Exn FileExistsError (py "Destination exists: " ++ str_path d)), fs)).
Proof.
  intros Hwf Hs Hd.
  pose proof (_resolve_safe_canonical P fs src s Hs) as Hcs.
  pose proof (_resolve_safe_canonical P fs dst d Hd) as Hcd.
  split.
  - intros Hn. unfold move_file, bind, reading, get, raise.
    by rewrite Hs, Hd, (exists_absent P fs s Hcs Hn).
  - intros [y Hy] [x Hx] Ho. unfold move_file, bind, reading, get, raise.
    rewrite Hs, Hd, (exists_present P fs s y Hcs Hy).
    cbn [negb]. rewrite (mkdir_parent_of_existing P fs d x Hwf Hcd Hx).
    by rewrite (exists_present P fs d x Hcd Hx), Ho.
Qed.

Lemma move_file_refusals_witness :
  move_file srv (VStr (py "gone")) (VStr (py "sub")) (VBool true) disk =
    (Raise (Exn FileNotFoundError (py "Source not found: /srv/root/gone")), disk) ∧
  move_file srv (VStr (py "docs")) (VStr (py "sub")) (VBool false) disk =
    (Raise (Exn FileExistsError (py "Destination exists: /srv/root/sub")), disk).
Proof.
  split.
  - apply (move_file_refusals srv disk (VStr (py "gone")) (VStr (py "sub")) (VBool true)
             [py "srv"; py "root"; py "gone"] [py "srv"; py "root"; py "sub"]).
    + apply disk_wf.
    + reflexivity.
    + reflexivity.
    + reflexivity.
  - apply (move_file_refusals srv disk (VStr (py "docs")) (VStr (py "sub")) (VBool false)
             [py "srv"; py "root"; py "docs"] [py "srv"; py "root"; py "sub"]).
    + apply disk_wf.
    + reflexivity.
    + reflexivity.
    + exists Dir. reflexivity.
    + exists Dir. reflexivity.
    + reflexivity.
Defined.

(** * [move_file] *)

Section MoveFile.

Context (P : platform).

(** What [os.rename] leaves: the tree that was at [src] is at [dst], nothing
    is at [src], and the rest is as it was. *)
Lemma relocate_lookup (src dst : path) (fs : fsys) (q : path) :
  relocate src dst fs !! q =
    if decide (dst `prefix_of` q) then fs !! (src ++ drop (length dst) q)
    else if decide (src `prefix_of` q) then None else fs !! q.
Proof.
  unfold relocate.
  set (f := λ kv : path * inode, (dst ++ drop (length src) kv.1, kv.2)).
  set (L := filter (λ kv : path * inode, src `prefix_of` kv.1) (map_to_list fs)).
  assert (∀ k v, (k, v) ∈ f <$> L ↔ ∃ r, k = dst ++ r ∧ fs !! (src ++ r) = Some v) as Hin.
  { intros k v. rewrite list_elem_of_fmap. split.
    - intros ([k0 v0] & [= -> ->] & Hkv). apply list_elem_of_filter in Hkv as [Hpre Hkv].
      simpl in Hpre. destruct Hpre as [r ->].
      apply elem_of_map_to_list in Hkv. exists r. simpl.
      by rewrite drop_app_length.
    - intros (r & -> & Hr). exists (src ++ r, v). split.
      + unfold f. simpl. by rewrite drop_app_length.
      + apply list_elem_of_filter. split; [by apply prefix_app_r|].
        by apply elem_of_map_to_list. }
  assert (NoDup (f <$> L).*1) as Hnd.
  { rewrite <-list_fmap_compose. apply NoDup_fmap_2_strong.
    - intros [k1 v1] [k2 v2] H1 H2 Heq. simpl in Heq.
      apply list_elem_of_filter in H1 as [Hp1 H1].
      apply list_elem_of_filter in H2 as [Hp2 H2].
      simpl in Hp1, Hp2. destruct Hp1 as [r1 ->]. destruct Hp2 as [r2 ->].
      rewrite !drop_app_length in Heq. apply app_inv_head in Heq as ->.
      apply elem_of_map_to_list in H1, H2. congruence.
    - apply NoDup_filter, NoDup_map_to_list. }
  destruct (decide (dst `prefix_of` q)) as [[r ->]|Hd].
  - rewrite drop_app_length.
    destruct (fs !! (src ++ r)) as [v|] eqn:E.
    + assert ((list_to_map (f <$> L) : fsys) !! (dst ++ r) = Some v) as Hl.
      { apply elem_of_list_to_map; [done|]. apply Hin. by exists r. }
      by rewrite (lookup_union_Some_raw _ _ _ v); left.
    + assert ((list_to_map (f <$> L) : fsys) !! (dst ++ r) = None) as Hl.
      { apply eq_None_not_Some. intros [v Hv].
        apply elem_of_list_to_map in Hv; [|done].
        apply Hin in Hv as (r' & Heq & Hv). apply app_inv_head in Heq as <-.
        congruence. }
      rewrite lookup_union_r by done.
      apply map_lookup_filter_None. right. intros x _ [_ Hnot]. simpl in Hnot.
      apply Hnot. by apply prefix_app_r.
  - assert ((list_to_map (f <$> L) : fsys) !! q = None) as Hl.
    { apply eq_None_not_Some. intros [v Hv].
      apply elem_of_list_to_map in Hv; [|done].
      apply Hin in Hv as (r' & -> & Hv). apply Hd. by apply prefix_app_r. }
    rewrite lookup_union_r by done.
    destruct (decide (src `prefix_of` q)) as [Hs|Hs].
    + apply map_lookup_filter_None. right. intros x _ [Hnot _]. by apply Hnot.
    + destruct (fs !! q) as [x|] eqn:E.
      * by apply map_lookup_filter_Some.
      * apply map_lookup_filter_None. by left.
Qed.

(** The run of [move_file] onto a path where nothing exists, from a source
    that is not above it. *)
Lemma move_file_run fs src dst overwrite s d i :
  wf fs → _resolve_safe P fs src = Ok s → _resolve_safe P fs dst = Ok d →
  fs !! s = Some i → s ≠ [] → ¬ s `prefix_of` d →
  fs !! d = None → only_dirs_on fs (parent d) →
  ∃ fs1, dirs_added (parent d) fs fs1 ∧ same_links fs fs1 ∧
    fs1 !! s = Some i ∧ fs1 !! d = None ∧ fs1 !! parent d = Some Dir ∧
    move_file P src dst overwrite fs =
      (Ok (py "Moved " ++ str_path s ++ py " -> " ++ str_path d), relocate s d fs1).
Proof.
  intros Hwf Hs Hd Hi Hsne Hnp Hdn Hdirs.
  pose proof (_resolve_safe_canonical P fs src s Hs) as Hcs.
  pose proof (_resolve_safe_canonical P fs dst d Hd) as Hcd.
  assert (d ≠ []) as Hdne. { intros ->. destruct Hwf as [Hr _]. congruence. }
  destruct (mkdir_spec P fs (parent d) Hwf) as (fs1 & Hmk & Hfs1); [|done|].
  { apply (canonical_parent _ _ Hcd). }
  pose proof (dirs_added_same_links fs fs1 (parent d) Hdirs Hfs1) as Hl.
  assert (fs1 !! s = Some i) as Hi1.
  { rewrite Hfs1, decide_False; [done|]. intros Hpre. apply Hnp.
    etrans; [done|apply parent_prefix]. }
  assert (fs1 !! d = None) as Hd1.
  { rewrite Hfs1, decide_False; [done|by apply nonroot_not_prefix_parent]. }
  assert (fs1 !! parent d = Some Dir) as Hp1 by (by rewrite Hfs1, decide_True).
  assert (canonical fs1 d) as Hcd1 by (by eapply same_links_canonical).
  exists fs1. do 5 (split; [done|]).
  unfold move_file, bind, reading, get, ret. rewrite Hs, Hd.
  rewrite (exists_present P fs s i Hcs Hi). cbn [negb]. rewrite Hmk.
  rewrite (exists_absent P fs1 d Hcd1 Hd1). cbn [andb].
  unfold shutil_move, bind, get.
  rewrite (is_dir_other P fs1 d Hcd1) by (by rewrite Hd1). cbn [andb].
  unfold try_except, os_rename. rewrite Hi1.
  rewrite decide_False by (by intros [?|?]).
  rewrite decide_False by (intros ->; congruence).
  rewrite decide_False by done.
  unfold rename_onto. by rewrite Hd1, Hp1.
Qed.

End MoveFile.

(** [move_file] onto a path where nothing exists moves the whole tree: after
    it, what was at the source or below it is found at the same place under
    the destination, nothing is left at the source, and everything else is as
    it was once the missing parents of the destination were made. *)
Theorem move_file_moves_the_tree (P : platform) fs src dst overwrite s d i :
  wf fs → _resolve_safe P fs src = Ok s → _resolve_safe P fs dst = Ok d →
  fs !! s = Some i → s ≠ [] → ¬ s `prefix_of` d →
  fs !! d = None → only_dirs_on fs (parent d) →
  ∃ fs1 fs',
    move_file P src dst overwrite fs =
      (Ok (py "Moved " ++ str_path s ++ py " -> " ++ str_path d), fs') ∧
    dirs_added (parent d) fs fs1 ∧
    ∀ q, fs' !! q =
      if decide (d `prefix_of` q) then fs !! (s ++ drop (length d) q)
      else if decide (s `prefix_of` q) then None else fs1 !! q.
Proof.
  intros Hwf Hs Hd Hi Hsne Hnp Hdn Hdirs.
  destruct (move_file_run P fs src dst overwrite s d i) as
    (fs1 & Hfs1 & _ & _ & _ & _ & Hrun); try done.
  exists fs1, (relocate s d fs1). split; [done|]. split; [done|].
  intros q. rewrite relocate_lookup.
  destruct (decide (d `prefix_of` q)) as [[r ->]|]; [|done].
  rewrite drop_app_length, Hfs1, decide_False; [done|].
  intros Hpre. apply Hnp. etrans; [|apply parent_prefix].
  etrans; [|done]. by apply prefix_app_r.
Qed.

Lemma move_file_moves_the_tree_witness :
  ∃ fs1 fs',
    move_file srv (VStr (py "docs")) (VStr (py "new/papers")) (VBool true) disk =
      (Ok (py "Moved /srv/root/docs -> /srv/root/new/papers"), fs') ∧
    dirs_added [py "srv"; py "root"; py "new"] disk fs1 ∧
    ∀ q, fs' !! q =
      if decide ([py "srv"; py "root"; py "new"; py "papers"] `prefix_of` q)
      then disk !! ([py "srv"; py "root"; py "docs"] ++ drop 4 q)
      else if decide ([py "srv"; py "root"; py "docs"] `prefix_of` q) then None
      else fs1 !! q.
Proof.
  apply (move_file_moves_the_tree srv disk (VStr (py "docs")) (VStr (py "new/papers"))
           (VBool true) [py "srv"; py "root"; py "docs"]
           [py "srv"; py "root"; py "new"; py "papers"] Dir).
  - apply disk_wf.
  - reflexivity.
  - reflexivity.
  - reflexivity.
  - discriminate.
  - apply (bool_decide_unpack _). by vm_compute.
  - reflexivity.
  - apply only_dirs_onb_true. reflexivity.
Defined.

Section MovedFile.

Context (P : platform).

(** Nothing lies below a regular file. *)
Lemma wf_below_file fs (s q : path) data :
  wf fs → fs !! s = Some (Reg data) → s `prefix_of` q → q ≠ s → fs !! q = None.
Proof.
  intros Hwf Hs Hq Hne. destruct (fs !! q) as [x|] eqn:E; [|done].
  rewrite (wf_ancestors fs Hwf q s x E Hq) in Hs; [done|]. by intros ->.
Qed.

Lemma file_not_above fs (s d : path) data :
  fs !! s = Some (Reg data) → fs !! d = None → only_dirs_on fs (parent d) →
  ¬ s `prefix_of` d.
Proof.
  intros Hs Hd Hdirs Hpre.
  assert (d ≠ []) as Hdne.
  { intros ->. apply prefix_nil_inv in Hpre. congruence. }
  rewrite (path_snoc_inv d Hdne) in Hpre.
  apply prefix_snoc_inv in Hpre as [Heq|Hpre].
  - rewrite <-(path_snoc_inv d Hdne) in Heq. congruence.
  - destruct (Hdirs s Hpre); congruence.
Qed.

End MovedFile.

(** A regular file moved onto a path where nothing exists is read at the
    destination as it was read at the source, and is no longer found at the
    source. *)
Theorem move_file_then_read_file (P : platform) fs src dst overwrite enc s d data :
  wf fs → _resolve_safe P fs src = Ok s → _resolve_safe P fs dst = Ok d →
  fs !! s = Some (Reg data) → fs !! d = None → only_dirs_on fs (parent d) →
  ∃ fs',
    move_file P src dst overwrite fs =
      (Ok (py "Moved " ++ str_path s ++ py " -> " ++ str_path d), fs') ∧
    read_file P fs' dst enc = read_file P fs src enc ∧
    read_file P fs' src enc =
      Raise (Exn FileNotFoundError (py "File not found: " ++ str_path s)).
Proof.
  intros Hwf Hs Hd Hi Hdn Hdirs.
  pose proof (_resolve_safe_canonical P fs src s Hs) as Hcs.
  pose proof (file_not_above fs s d data Hi Hdn Hdirs) as Hnp.
  assert (s ≠ []) as Hsne. { intros ->. destruct Hwf as [Hr _]. congruence. }
  destruct (move_file_run P fs src dst overwrite s d (Reg data)) as
    (fs1 & Hfs1 & Hl1 & Hi1 & Hd1 & Hp1 & Hrun); try done.
  assert (∀ q, s `prefix_of` q → q ≠ s → fs1 !! q = None) as Hbelow.
  { intros q Hq Hne. rewrite Hfs1, decide_False.
    - by apply (wf_below_file fs s q data).
    - intros Hpre. apply Hnp. etrans; [done|]. etrans; [done|apply parent_prefix]. }
  assert (∀ q, d `prefix_of` q → fs1 !! q = None) as Hbelow_d.
  { intros q Hq. destruct (decide (q = d)) as [->|Hne]; [done|].
    rewrite Hfs1, decide_False; [by apply (wf_nothing_below fs d)|].
    intros Hpre. apply (nonroot_not_prefix_parent d).
    - intros ->. destruct Hwf as [Hr _]. congruence.
    - by etrans. }
  assert (same_links fs1 (relocate s d fs1)) as Hl2.
  { intros q. unfold link_at. rewrite relocate_lookup.
    destruct (decide (d `prefix_of` q)) as [Hq|Hq].
    - rewrite (Hbelow_d q Hq). destruct Hq as [r ->]. rewrite drop_app_length.
      destruct r as [|c r].
      + by rewrite app_nil_r, Hi1.
      + rewrite Hbelow; [done|by apply prefix_app_r|].
        intros Heq. rewrite <-(app_nil_r s) in Heq at 2. by apply app_inv_head in Heq.
    - destruct (decide (s `prefix_of` q)) as [Hsq|]; [|done].
      destruct (decide (q = s)) as [->|Hne]; [by rewrite Hi1|].
      by rewrite Hbelow. }
  assert (same_links fs (relocate s d fs1)) as Hl by (by eapply same_links_trans).
  exists (relocate s d fs1). split; [done|]. split.
  - rewrite (read_file_regular P fs src s data enc Hs Hi).
    apply (read_file_regular P _ dst d data enc).
    + by rewrite <-(_resolve_safe_same_links P fs _ dst Hl).
    + rewrite relocate_lookup, decide_True by done.
      by rewrite drop_all, app_nil_r.
  - unfold read_file, rbind.
    rewrite <-(_resolve_safe_same_links P fs _ src Hl), Hs.
    rewrite (exists_absent P _ s); [done|by eapply same_links_canonical|].
    rewrite relocate_lookup, decide_False, decide_True; [done..|].
    intros Hpre. specialize (Hbelow_d s Hpre). congruence.
Qed.

Lemma move_file_then_read_file_witness :
  ∃ fs',
    move_file srv (VStr (py "a.txt")) (VStr (py "new/b.txt")) (VBool false) disk =
      (Ok (py "Moved /srv/root/a.txt -> /srv/root/new/b.txt"), fs') ∧
    read_file srv fs' (VStr (py "new/b.txt")) (VStr (py "utf-8")) =
      read_file srv disk (VStr (py "a.txt")) (VStr (py "utf-8")) ∧
    read_file srv fs' (VStr (py "a.txt")) (VStr (py "utf-8")) =
      Raise (Exn FileNotFoundError (py "File not found: /srv/root/a.txt")).
Proof.
  apply (move_file_then_read_file srv disk (VStr (py "a.txt")) (VStr (py "new/b.txt"))
           (VBool false) (VStr (py "utf-8")) [py "srv"; py "root"; py "a.txt"]
           [py "srv"; py "root"; py "new"; py "b.txt"] (bytes "hello")).
  - apply disk_wf.
  - reflexivity.
  - reflexivity.
  - reflexivity.
  - reflexivity.
  - apply only_dirs_onb_true. reflexivity.
Defined.

(** Moving a directory to a path below itself fails, and by then the missing
    directories above the destination have been made inside the source: the
    failing call leaves them behind. *)
Theorem move_file_into_itself (P : platform) fs src dst overwrite s d :
  wf fs → _resolve_safe P fs src = Ok s → _resolve_safe P fs dst = Ok d →
  fs !! s = Some Dir → s ≠ [] → below s d →
  fs !! d = None → only_dirs_on fs (parent d) →
  ∃ fs1,
    move_file P src dst overwrite fs =
      (Raise (Exn ShutilError (py "Cannot move a directory '" ++ str_path s
                               ++ py "' into itself '" ++ str_path d ++ py "'.")), fs1) ∧
    dirs_added (parent d) fs fs1 ∧
    (fs !! parent d = None → fs1 ≠ fs).
Proof.
  intros Hwf Hs Hd Hi Hsne [Hpre Hne] Hdn Hdirs.
  pose proof (_resolve_safe_canonical P fs src s Hs) as Hcs.
  pose proof (_resolve_safe_canonical P fs dst d Hd) as Hcd.
  assert (d ≠ []) as Hdne. { intros ->. destruct Hwf as [Hr _]. congruence. }
  destruct (mkdir_spec P fs (parent d) Hwf) as (fs1 & Hmk & Hfs1); [|done|].
  { apply (canonical_parent _ _ Hcd). }
  pose proof (dirs_added_same_links fs fs1 (parent d) Hdirs Hfs1) as Hl.
  assert (s `prefix_of` parent d) as Hsp.
  { rewrite (path_snoc_inv d Hdne) in Hpre.
    apply prefix_snoc_inv in Hpre as [Heq|?]; [|done].
    by rewrite <-(path_snoc_inv d Hdne) in Heq. }
  assert (fs1 !! s = Some Dir) as Hi1 by (by rewrite Hfs1, decide_True).
  assert (fs1 !! d = None) as Hd1.
  { rewrite Hfs1, decide_False; [done|by apply nonroot_not_prefix_parent]. }
  assert (canonical fs1 d) as Hcd1 by (by eapply same_links_canonical).
  assert (canonical fs1 s) as Hcs1 by (by eapply same_links_canonical).
  exists fs1. split; [|split; [done|]].
  - unfold move_file, bind, reading, get, ret. rewrite Hs, Hd.
    rewrite (exists_present P fs s Dir Hcs Hi). cbn [negb]. rewrite Hmk.
    rewrite (exists_absent P fs1 d Hcd1 Hd1). cbn [andb].
    unfold shutil_move, bind, get.
    rewrite (is_dir_other P fs1 d Hcd1) by (by rewrite Hd1). cbn [andb].
    unfold try_except, os_rename. rewrite Hi1.
    rewrite decide_False by (by intros [?|?]).
    rewrite decide_False by done.
    rewrite decide_True by done.
    rewrite Hi1. rewrite (is_dir_present P fs1 s Hcs1 Hi1).
    by rewrite decide_True.
  - intros Hpn Heq. subst fs1.
    specialize (Hfs1 (parent d)). rewrite decide_True in Hfs1 by done. congruence.
Qed.

Lemma move_file_into_itself_witness :
  ∃ fs1,
    move_file srv (VStr (py "docs")) (VStr (py "docs/old/docs")) (VBool true) disk =
      (Raise (Exn ShutilError (py "Cannot move a directory '/srv/root/docs' into itself '/srv/root/docs/old/docs'.")), fs1) ∧
    dirs_added [py "srv"; py "root"; py "docs"; py "old"] disk fs1 ∧
    fs1 ≠ disk.
Proof.
  destruct (move_file_into_itself srv disk (VStr (py "docs")) (VStr (py "docs/old/docs"))
              (VBool true) [py "srv"; py "root"; py "docs"]
              [py "srv"; py "root"; py "docs"; py "old"; py "docs"])
    as (fs1 & Hrun & Hfs1 & Hne).
  - apply disk_wf.
  - reflexivity.
  - reflexivity.
  - reflexivity.
  - discriminate.
  - apply (bool_decide_unpack _). by vm_compute.
  - reflexivity.
  - apply only_dirs_onb_true. reflexivity.
  - exists fs1. split; [exact Hrun|]. split; [exact Hfs1|]. apply Hne. reflexivity.
Defined.

(** * [read_file] and [get_file_info] *)

(** [read_file] on an accepted path: a regular file is decoded under the
    encoding, with universal newlines, and a failure of the decoding is
    raised as it is; a directory, like a path where nothing exists, is "File
    not found". *)
Theorem read_file_outcomes (P : platform) fs v enc p :
  _resolve_safe P fs v = Ok p →
  read_file P fs v enc =
    match fs !! p with
    | Some (Reg data) => let? s := bytes_decode P enc data in Ok (universal_newlines s)
    | _ => Raise (Exn FileNotFoundError (py "File not found: " ++ str_path p))
    end.
Proof.
  intros Hres. pose proof (_resolve_safe_canonical P fs v p Hres) as Hc.
  destruct (fs !! p) as [[data| |t]|] eqn:E.
  - by apply (read_file_regular P fs v p data enc).
  - unfold read_file, rbind. rewrite Hres, (is_file_canonical P fs p Hc), E.
    by rewrite orb_true_r.
  - destruct Hc as [_ Hc]. destruct (decide (p = [])) as [->|Hne].
    + unfold read_file, rbind. rewrite Hres.
      rewrite (is_file_canonical P fs []), E; [by rewrite orb_true_r|apply canonical_nil].
    + specialize (Hc p (reflexivity p) Hne). by rewrite E in Hc.
  - unfold read_file, rbind. by rewrite Hres, (exists_absent P fs p Hc E).
Qed.

Lemma read_file_outcomes_witness :
  read_file srv disk (VStr (py "docs")) (VStr (py "utf-8")) =
    Raise (Exn FileNotFoundError (py "File not found: /srv/root/docs")).
Proof.
  apply (read_file_outcomes srv disk (VStr (py "docs")) (VStr (py "utf-8"))
           [py "srv"; py "root"; py "docs"]).
  reflexivity.
Defined.

(** [get_file_info] describes the path its argument resolves to, not the
    argument: for an accepted path [p] where something exists the result
    carries the text of [p], the last component of [p], whether [p] is a
    directory, its size, and [exists] true; where nothing exists the call
    fails with "Not found". *)
Theorem get_file_info_outcomes (P : platform) fs v p :
  _resolve_safe P fs v = Ok p →
  get_file_info P fs v =
    match fs !! p with
    | Some i =>
        Ok (Entry (str_path p) (name p) (bool_decide (i = Dir))
                  (Some (st_size P fs p i)) (Some true))
    | None => Raise (Exn FileNotFoundError (py "Not found: " ++ str_path p))
    end.
Proof.
  intros Hres. pose proof (_resolve_safe_canonical P fs v p Hres) as Hc.
  unfold get_file_info, rbind. rewrite Hres.
  destruct (fs !! p) as [i|] eqn:E.
  - rewrite (exists_present P fs p i Hc E). cbn [negb].
    by rewrite (_format_entry_canonical P fs p i Hc E).
  - by rewrite (exists_absent P fs p Hc E).
Qed.

Lemma get_file_info_outcomes_witness :
  get_file_info srv linked (VStr (py "peer")) =
    Ok (Entry (py "/srv/root2") (py "root2") true (Some 4096%nat) (Some true)).
Proof.
  apply (get_file_info_outcomes srv linked (VStr (py "peer")) [py "srv"; py "root2"]).
  reflexivity.
Defined.

(** * Arguments the dispatcher refuses *)

Section Refused.

Context (P : platform).

Lemma keywords_refuses (f : string) (params required : list string) (args : pyval) :
  (∀ x, x ∈ params → x ∈ all_parameters) →
  (∀ d, args ≠ VDict d) ∨
  (∃ d k, args = VDict d ∧ k ∈ d.*1 ∧ k ∉ py <$> all_parameters) →
  ∃ e, keywords P f params required args = Raise e.
Proof.
  intros Hsub [Hnd|(d & k & -> & Hk & Hout)].
  - destruct args as [| | | | |d]; try by eexists. by destruct (Hnd d).
  - unfold keywords.
    destruct (filter (λ kv : pystr * pyval, kv.1 ∉ py <$> params) d)
      as [|[k' v'] l] eqn:E; [|by eexists].
    exfalso. apply list_elem_of_fmap in Hk as ([k0 v0] & -> & Hk).
    assert ((k0, v0) ∈ filter (λ kv : pystr * pyval, kv.1 ∉ py <$> params) d) as Hin.
    { apply list_elem_of_filter. split; [|done].
      change ((k0, v0).1) with k0 in *. intros Hp. apply Hout.
      apply list_elem_of_fmap in Hp as (x & -> & Hx).
      apply (list_elem_of_fmap_2 py). by apply Hsub. }
    rewrite E in Hin. by apply elem_of_nil in Hin.
Qed.

End Refused.

(** A command for an operation of the catalog whose ["args"] is a value that
    is true and not a mapping, or a mapping with a key that is no parameter
    of any operation, is answered with an "Execution error" and leaves the
    filesystem as it was: the arguments are bound before the operation
    starts.  (An ["args"] that is false, such as [0], an empty text or an
    empty list, is replaced by the empty mapping on line 267 and is not
    refused.) *)
Theorem nl_command_refused_arguments (P : platform) text cmd fs n :
  n ∈ catalog → action_of cmd = VStr (py n) →
  (∃ a, dict_get (py "args") cmd = Some a ∧ truthy a = true ∧ ∀ d, a ≠ VDict d) ∨
  (∃ d k, dict_get (py "args") cmd = Some (VDict d) ∧
          k ∈ d.*1 ∧ k ∉ py <$> all_parameters) →
  ∃ msg, nl_command P text (VDict cmd) fs = (Ok (py "Execution error: " ++ msg), fs).
Proof.
  intros Hn Ha Hgiven. unfold nl_command, try_except. rewrite Ha.
  assert ((∀ d, args_of cmd ≠ VDict d) ∨
          (∃ d k, args_of cmd = VDict d ∧ k ∈ d.*1 ∧ k ∉ py <$> all_parameters))
    as Hbad.
  { unfold args_of. destruct Hgiven as [(a & -> & Ht & Hnd)|(d & k & -> & Hk & Hout)].
    - rewrite Ht. by left.
    - right. exists d, k. destruct d; [by apply elem_of_nil in Hk|done]. }
  assert (∀ f params required, (∀ x, x ∈ params → x ∈ all_parameters) →
            ∃ e, keywords P f params required (args_of cmd) = Raise e) as Hkw.
  { intros f params required Hsub. by apply keywords_refuses. }
  unfold catalog in Hn.
  repeat (apply elem_of_cons in Hn as [->|Hn]);
    [..|by apply elem_of_nil in Hn];
    unfold invoke;
    repeat match goal with
    | |- context [is_str (VStr (py ?a)) ?b] =>
        let r := eval vm_compute in (is_str (VStr (py a)) b) in
        change (is_str (VStr (py a)) b) with r
    end; cbv iota;
    match goal with
    | |- context [keywords P ?f ?ps ?rs (args_of cmd)] =>
        destruct (Hkw f ps rs) as [e He];
        [ intros x Hx; unfold all_parameters;
          repeat (apply elem_of_cons in Hx as [->|Hx];
                  [repeat first [by left | right]|]);
          by apply elem_of_nil in Hx
        | unfold bind, reading; rewrite He; by exists (str_exn e) ]
    end.
Qed.

(** [delete_file] with a key [force], and [read_file] with the number 7 for
    its arguments. *)
Lemma nl_command_refused_arguments_witness :
  (∃ msg,
    nl_command srv []
      (VDict [(py "action", VStr (py "delete_file"));
              (py "args", VDict [(py "path", VStr (py "a.txt")); (py "force", VBool true)])])
      disk = (Ok (py "Execution error: " ++ msg), disk)) ∧
  (∃ msg,
    nl_command srv []
      (VDict [(py "action", VStr (py "read_file")); (py "args", VNum 7)])
      disk = (Ok (py "Execution error: " ++ msg), disk)).
Proof.
  split.
  - apply (nl_command_refused_arguments srv []
             [(py "action", VStr (py "delete_file"));
              (py "args", VDict [(py "path", VStr (py "a.txt")); (py "force", VBool true)])]
             disk "delete_file").
    + unfold catalog. do 4 right. left.
    + reflexivity.
    + right. exists [(py "path", VStr (py "a.txt")); (py "force", VBool true)], (py "force").
      split; [reflexivity|]. split.
      * right. left.
      * apply (bool_decide_unpack _). by vm_compute.
  - apply (nl_command_refused_arguments srv []
             [(py "action", VStr (py "read_file")); (py "args", VNum 7)]
             disk "read_file").
    + unfold catalog. do 1 right. left.
    + reflexivity.
    + left. exists (VNum 7). split; [reflexivity|]. split; [reflexivity|]. done.
Defined.

(** * The answer of the planner *)

Section Planner.

Context (json_loads : pystr → option pyval).

Lemma lstrip_head (s : pystr) :
  lstrip s = [] ∨ ∃ c r, lstrip s = c :: r ∧ isspace c = false.
Proof.
  induction s as [|c s IH]; [by left|]. simpl.
  destruct (isspace c) eqn:E; [done|]. right. by exists c, s.
Qed.

Lemma lstrip_suffix (s : pystr) : ∃ a, s = a ++ lstrip s.
Proof.
  induction s as [|c s [a IH]]; [by exists []|]. simpl.
  destruct (isspace c); [|by exists []]. exists (c :: a). simpl. by rewrite <-IH.
Qed.

Lemma lstrip_spaces (ws s : pystr) :
  Forall (λ c, isspace c = true) ws → lstrip (ws ++ s) = lstrip s.
Proof. induction 1 as [|c ws Hc _ IH]; [done|]. simpl. by rewrite Hc. Qed.

Lemma lstrip_fixed_app (s r : pystr) : s ≠ [] → lstrip s = s → lstrip (s ++ r) = s ++ r.
Proof.
  destruct s as [|c s]; [done|]. intros _. simpl.
  destruct (isspace c) eqn:E; [|done]. intros H.
  destruct (lstrip_suffix s) as [a Ha]. rewrite H in Ha.
  apply (f_equal length) in Ha. rewrite length_app in Ha. simpl in Ha. lia.
Qed.

(** Leading white space goes, whatever follows a text that starts with
    none. *)
Lemma lstrip_app (a m r : pystr) :
  m ≠ [] → lstrip m = m → lstrip (a ++ m ++ r) = lstrip a ++ m ++ r.
Proof.
  intros Hm Hfix. induction a as [|c a IH]; simpl; [by apply lstrip_fixed_app|].
  by destruct (isspace c).
Qed.

Lemma rstrip_app (a m r : pystr) :
  m ≠ [] → lstrip (reverse m) = reverse m →
  rstrip (a ++ m ++ r) = a ++ m ++ rstrip r.
Proof.
  intros Hm Hfix. unfold rstrip. rewrite !reverse_app, <-app_assoc.
  rewrite lstrip_app; [|by intros ?%(f_equal reverse); rewrite reverse_involutive in *|done].
  by rewrite !reverse_app, !reverse_involutive, <-app_assoc.
Qed.

Lemma rstrip_spaces (ws : pystr) : Forall (λ c, isspace c = true) ws → rstrip ws = [].
Proof.
  intros H. unfold rstrip. rewrite <-(app_nil_r (reverse ws)).
  rewrite lstrip_spaces; [done|by apply Forall_reverse].
Qed.

Lemma lstrip_all_spaces (ws : pystr) : Forall (λ c, isspace c = true) ws → lstrip ws = [].
Proof. intros H. rewrite <-(app_nil_r ws). by rewrite lstrip_spaces. Qed.

(** [strip] takes the white space off both ends of a tight text. *)
Lemma strip_tight (pre m post : pystr) :
  Forall (λ c, isspace c = true) pre → Forall (λ c, isspace c = true) post →
  m ≠ [] → tight m → strip (pre ++ m ++ post) = m.
Proof.
  intros Hpre Hpost Hm [Hl Hr]. unfold strip.
  rewrite lstrip_app, lstrip_all_spaces by done. simpl.
  rewrite <-(app_nil_l (m ++ post)), rstrip_app by done.
  by rewrite rstrip_spaces, app_nil_r.
Qed.

Lemma piece_of_refl (s : pystr) : piece_of s s.
Proof. exists [], []. by rewrite app_nil_r. Qed.

Lemma piece_of_trans (a b c : pystr) : piece_of a b → piece_of b c → piece_of a c.
Proof.
  intros (x & y & ->) (x' & y' & ->). exists (x' ++ x), (y ++ y').
  by rewrite <-!app_assoc.
Qed.

Lemma piece_of_suffix (a s : pystr) : piece_of s (a ++ s).
Proof. exists a, []. by rewrite app_nil_r. Qed.

Lemma piece_of_prefix (s b : pystr) : piece_of s (s ++ b).
Proof. by exists [], b. Qed.

Lemma piece_of_contains (m s : pystr) : piece_of m s ↔ contains m s = true.
Proof. by rewrite contains_spec. Qed.

Lemma lstrip_piece (s : pystr) : piece_of (lstrip s) s.
Proof. destruct (lstrip_suffix s) as [a Ha]. rewrite Ha at 2. apply piece_of_suffix. Qed.

Lemma rstrip_prefix (s : pystr) : ∃ b, s = rstrip s ++ b.
Proof.
  unfold rstrip. destruct (lstrip_suffix (reverse s)) as [a Ha].
  exists (reverse a). rewrite <-reverse_app, <-Ha. by rewrite reverse_involutive.
Qed.

Lemma strip_piece (s : pystr) : piece_of (strip s) s.
Proof.
  unfold strip. eapply piece_of_trans; [|apply lstrip_piece].
  destruct (rstrip_prefix (lstrip s)) as [b Hb]. rewrite Hb at 2.
  apply piece_of_prefix.
Qed.

Lemma skip_letters_suffix (s : pystr) : ∃ a, s = a ++ skip_letters s.
Proof.
  induction s as [|c s [a IH]]; [by exists []|]. simpl.
  destruct (isletter c); [|by exists []]. exists (c :: a). simpl. by rewrite <-IH.
Qed.

Lemma sub_opening_fence_piece (s : pystr) : piece_of (sub_opening_fence s) s.
Proof.
  unfold sub_opening_fence. destruct (startswith s fence); [|apply piece_of_refl].
  destruct (skip_letters_suffix (drop 3 s)) as [a Ha].
  rewrite <-(take_drop 3 s) at 2. rewrite Ha at 2. rewrite app_assoc.
  apply piece_of_suffix.
Qed.

(** A stripped text does not end with a line feed. *)
Lemma strip_no_final_newline (s r : pystr) : endswith (strip s) (r ++ [10]) = false.
Proof.
  unfold endswith, strip, rstrip. rewrite reverse_involutive, reverse_app.
  change (reverse [10]) with [10 : N]. cbn [app].
  destruct (lstrip_head (reverse (lstrip s))) as [->|(c & t & -> & Hc)]; [done|].
  cbn [startswith]. destruct (10 =? c) eqn:E; [|done].
  apply N.eqb_eq in E. by subst c.
Qed.

Lemma sub_closing_fence_piece (s : pystr) :
  piece_of (sub_closing_fence (strip s)) (strip s).
Proof.
  unfold sub_closing_fence. destruct (endswith (strip s) fence).
  - rewrite <-(take_drop (length (strip s) - 3) (strip s)) at 3. apply piece_of_prefix.
  - rewrite strip_no_final_newline. apply piece_of_refl.
Qed.

Lemma from_first_suffix (c : N) (s t : pystr) : from_first c s = Some t → ∃ a, s = a ++ t.
Proof.
  induction s as [|x s IH]; [done|]. simpl. destruct (x =? c).
  - intros [= <-]. by exists [].
  - intros (a & ->)%IH. by exists (x :: a).
Qed.

Lemma brace_span_piece (s m : pystr) : brace_span s = Some m → piece_of m s.
Proof.
  unfold brace_span. destruct (from_first 123 s) as [[|b t]|] eqn:E; try done.
  apply from_first_suffix in E as [a ->]. unfold upto_last.
  destruct (from_first 125 (reverse t)) as [u|] eqn:E'; [|done].
  apply from_first_suffix in E' as [z Hz]. intros [= <-].
  apply (f_equal reverse) in Hz. rewrite reverse_involutive, reverse_app in Hz.
  rewrite Hz. by exists a, (reverse z).
Qed.

(** What [_extract_json] returns, when it is not [None], is what [json.loads]
    made of a piece of the text. *)
Lemma _extract_json_piece (s : pystr) :
  _extract_json json_loads s = VNone ∨
  ∃ m, piece_of m s ∧ json_loads m = Some (_extract_json json_loads s).
Proof.
  unfold _extract_json.
  set (s1 := strip s). set (s2 := strip (sub_opening_fence s1)).
  set (s3 := strip (sub_closing_fence s2)).
  assert (piece_of s3 s) as H3.
  { eapply piece_of_trans; [apply strip_piece|].
    eapply piece_of_trans; [apply sub_closing_fence_piece|].
    eapply piece_of_trans; [apply strip_piece|].
    eapply piece_of_trans; [apply sub_opening_fence_piece|apply strip_piece]. }
  destruct (json_loads s3) as [v|] eqn:E; [right; by exists s3|].
  destruct (brace_span s3) as [m|] eqn:Em; [|by left].
  destruct (json_loads m) as [v|] eqn:Ev; [|by left].
  right. exists m. split; [|done].
  eapply piece_of_trans; [by apply brace_span_piece|done].
Qed.

Lemma from_first_found (c : N) (a r : pystr) :
  c ∉ a → from_first c (a ++ c :: r) = Some (c :: r).
Proof.
  induction a as [|x a IH]; intros Ha; simpl; [by rewrite N.eqb_refl|].
  rewrite (proj2 (N.eqb_neq x c)).
  - apply IH. intros ?. apply Ha. by right.
  - intros ->. apply Ha. by left.
Qed.

Lemma upto_last_found (c : N) (r b : pystr) :
  c ∉ b → upto_last c (r ++ c :: b) = Some (r ++ [c]).
Proof.
  intros Hb. unfold upto_last.
  rewrite reverse_app, reverse_cons, <-app_assoc. simpl.
  rewrite from_first_found; [|by rewrite elem_of_reverse].
  simpl. by rewrite reverse_cons, reverse_involutive.
Qed.

Lemma not_elem_of_piece (c : N) (m s : pystr) : piece_of m s → c ∉ s → c ∉ m.
Proof.
  intros (a & b & ->) Hs Hm. apply Hs. apply elem_of_app. right.
  apply elem_of_app. by left.
Qed.

End Planner.

Section Fences.

Context (json_loads : pystr → option pyval).

Lemma isspace_not_letter (c : N) : isspace c = true → isletter c = false.
Proof.
  unfold isspace, isletter. intros H. apply not_true_is_false. intros H'.
  rewrite !orb_true_iff in H. rewrite !andb_true_iff in H.
  rewrite !N.leb_le, !N.eqb_eq in H.
  rewrite !orb_true_iff, !andb_true_iff, !N.leb_le in H'. lia.
Qed.

Lemma skip_letters_letters (tag r : pystr) :
  Forall (λ c, isletter c = true) tag → skip_letters (tag ++ r) = skip_letters r.
Proof. induction 1 as [|c tag Hc _ IH]; [done|]. simpl. by rewrite Hc. Qed.

Lemma skip_letters_fixed (r : pystr) :
  (∀ c, head r = Some c → isletter c = false) → skip_letters r = r.
Proof. destruct r as [|c r]; [done|]. intros H. simpl. by rewrite (H c). Qed.

Lemma lstrip_idemp (s : pystr) : lstrip (lstrip s) = lstrip s.
Proof.
  destruct (lstrip_head s) as [->|(c & r & -> & Hc)]; [done|]. simpl. by rewrite Hc.
Qed.

Lemma tight_strip (s : pystr) : tight (strip s).
Proof.
  split.
  - unfold strip. destruct (rstrip_prefix (lstrip s)) as [b Hb].
    destruct (rstrip (lstrip s)) as [|c r] eqn:E; [done|].
    simpl. destruct (lstrip_head s) as [H0|(c' & r' & H1 & Hc)].
    + rewrite H0 in Hb. done.
    + rewrite H1 in Hb. injection Hb as -> _. by rewrite Hc.
  - unfold strip, rstrip. rewrite reverse_involutive. apply lstrip_idemp.
Qed.

Lemma strip_fixed (s : pystr) : tight s → strip s = s.
Proof.
  intros [Hl Hr]. unfold strip, rstrip. by rewrite Hl, Hr, reverse_involutive.
Qed.

Lemma startswith_fence_false (s : pystr) :
  (∀ c, head s = Some c → c ≠ 96) → startswith s fence = false.
Proof.
  destruct s as [|c s]; [done|]. intros H. cbn [fence startswith].
  rewrite (proj2 (N.eqb_neq 96 c)); [done|]. intros Heq. by apply (H c).
Qed.

Lemma endswith_fence_false (s : pystr) :
  (∀ c, last s = Some c → c ≠ 96) → endswith s fence = false.
Proof.
  intros H. unfold endswith. change (reverse fence) with fence.
  apply startswith_fence_false. intros c Hc. apply H.
  by rewrite <-head_reverse.
Qed.

Lemma endswith_app (s p : pystr) : endswith (s ++ p) p = true.
Proof. unfold endswith. rewrite reverse_app. apply startswith_app. Qed.

Lemma tight_fenced (x : pystr) : tight (fence ++ x ++ fence).
Proof.
  split; [done|]. rewrite !reverse_app. change (reverse fence) with fence.
  by rewrite <-app_assoc.
Qed.

Lemma tight_before_fence (body ws : pystr) :
  body ≠ [] → tight body → tight (body ++ ws ++ fence).
Proof.
  intros Hne [Hl _]. split; [by apply lstrip_fixed_app|].
  rewrite !reverse_app. change (reverse fence) with fence.
  by rewrite <-app_assoc.
Qed.

End Fences.

(** A fenced answer is parsed as its body: white space around the fences, a
    language tag of letters after the opening fence, and white space around
    the body are dropped before [json.loads] sees the text. *)
Theorem _extract_json_fenced (json_loads : pystr → option pyval)
    (pre tag ws1 body ws2 post : pystr) (v : pyval) :
  Forall (λ c, isspace c = true) pre → Forall (λ c, isletter c = true) tag →
  Forall (λ c, isspace c = true) ws1 → Forall (λ c, isspace c = true) ws2 →
  Forall (λ c, isspace c = true) post →
  body ≠ [] → tight body → (∀ c, head body = Some c → isletter c = false) →
  json_loads body = Some v →
  _extract_json json_loads
    (pre ++ (fence ++ (tag ++ ws1 ++ body ++ ws2) ++ fence) ++ post) = v.
Proof.
  intros Hpre Htag Hws1 Hws2 Hpost Hne Ht Hhead Hv. unfold _extract_json.
  rewrite (strip_tight pre _ post Hpre Hpost) by (done || apply tight_fenced).
  unfold sub_opening_fence. rewrite startswith_app.
  change 3%nat with (length fence). rewrite drop_app_length.
  rewrite <-!app_assoc, skip_letters_letters by done.
  rewrite skip_letters_fixed.
  2: { intros c. destruct ws1 as [|w ws1]; simpl.
       - destruct body; [done|]. apply Hhead.
       - intros [= <-]. inv Hws1. by apply isspace_not_letter. }
  assert (strip (ws1 ++ body ++ ws2 ++ fence) = body ++ ws2 ++ fence) as ->.
  { rewrite <-(app_nil_r (ws1 ++ body ++ ws2 ++ fence)), <-!app_assoc.
    rewrite (app_assoc body), (app_assoc (body ++ ws2)), <-(app_assoc body).
    apply (strip_tight ws1 (body ++ ws2 ++ fence) []);
      [done|constructor|by destruct body|by apply tight_before_fence]. }
  unfold sub_closing_fence. rewrite !app_assoc, endswith_app.
  rewrite length_app. change (length fence) with 3%nat.
  rewrite Nat.add_sub, take_app_length.
  rewrite <-(app_nil_l (body ++ ws2)), (strip_tight [] body ws2) by (done || constructor).
  by rewrite Hv.
Qed.

Lemma _extract_json_fenced_witness :
  let loads := λ m : pystr,
    if bool_decide (m = py "{}") then Some (VDict []) else None in
  _extract_json loads
    (py " " ++ (fence ++ (py "json" ++ [10] ++ py "{}" ++ [10]) ++ fence) ++ [10])
    = VDict [].
Proof.
  apply (_extract_json_fenced
           (λ m : pystr, if bool_decide (m = py "{}") then Some (VDict []) else None)
           (py " ") (py "json") [10] (py "{}") [10] [10] (VDict [])).
  - apply (bool_decide_unpack _). by vm_compute.
  - apply (bool_decide_unpack _). by vm_compute.
  - apply (bool_decide_unpack _). by vm_compute.
  - apply (bool_decide_unpack _). by vm_compute.
  - apply (bool_decide_unpack _). by vm_compute.
  - discriminate.
  - split; reflexivity.
  - intros c [= <-]. reflexivity.
  - reflexivity.
Defined.

(** An object in the middle of prose is found: when [json.loads] refuses the
    whole answer, the text from the first opening brace to the last closing
    brace is parsed instead.  (No backquote in the prose.) *)
Theorem _extract_json_embedded (json_loads : pystr → option pyval)
    (a inner b : pystr) (v : pyval) :
  123 ∉ a → 125 ∉ b → 96 ∉ a → 96 ∉ b →
  json_loads (strip (a ++ ([123] ++ inner ++ [125]) ++ b)) = None →
  json_loads ([123] ++ inner ++ [125]) = Some v →
  _extract_json json_loads (a ++ ([123] ++ inner ++ [125]) ++ b) = v.
Proof.
  intros Ha Hb Ha' Hb' Hwhole Hobj.
  set (m := [123] ++ inner ++ [125]) in *.
  assert (m ≠ []) as Hm by done.
  assert (lstrip m = m) as Hml by done.
  assert (lstrip (reverse m) = reverse m) as Hmr.
  { unfold m. by rewrite !reverse_app. }
  assert (strip (a ++ m ++ b) = lstrip a ++ m ++ rstrip b) as Hs.
  { unfold strip. by rewrite lstrip_app, rstrip_app. }
  unfold _extract_json.
  set (s1 := strip (a ++ m ++ b)) in *.
  assert (sub_opening_fence s1 = s1) as ->.
  { unfold sub_opening_fence. rewrite startswith_fence_false; [done|].
    rewrite Hs. intros c Hc ->.
    destruct (lstrip a) as [|x r] eqn:E.
    - by injection Hc.
    - injection Hc as ->. apply Ha'. destruct (lstrip_suffix a) as [z Hz].
      rewrite Hz, E. apply elem_of_app. right. by left. }
  rewrite (strip_fixed s1) by apply tight_strip.
  assert (sub_closing_fence s1 = s1) as ->.
  { unfold sub_closing_fence. rewrite endswith_fence_false.
    - unfold s1. by rewrite (strip_no_final_newline (a ++ m ++ b) fence).
    - rewrite Hs. intros c Hc ->. rewrite !app_assoc in Hc.
      destruct (rstrip b) as [|x r _] eqn:E using rev_ind.
      + rewrite app_nil_r in Hc. unfold m in Hc. rewrite !app_assoc, last_snoc in Hc.
        by injection Hc.
      + rewrite app_assoc, last_snoc in Hc. injection Hc as ->. apply Hb'.
        destruct (rstrip_prefix b) as [z Hz]. rewrite Hz, E.
        apply elem_of_app. left. apply elem_of_app. right. by left. }
  rewrite (strip_fixed s1) by apply tight_strip.
  rewrite Hwhole, Hs.
  unfold brace_span, m. cbn [app].
  rewrite from_first_found.
  2: { intros H. apply Ha. destruct (lstrip_suffix a) as [z Hz].
       rewrite Hz. apply elem_of_app. by right. }
  rewrite <-app_assoc. cbn [app]. rewrite upto_last_found.
  2: { intros H. apply Hb. destruct (rstrip_prefix b) as [z Hz].
       rewrite Hz. apply elem_of_app. by left. }
  cbn [fmap option_fmap option_map].
  change (123 :: inner ++ [125]) with m. by rewrite Hobj.
Qed.

Lemma _extract_json_embedded_witness :
  let loads := λ m : pystr,
    if bool_decide (m = py "{}") then Some (VDict []) else None in
  _extract_json loads (py "Sure: " ++ ([123] ++ [] ++ [125]) ++ py " - done.") = VDict [].
Proof.
  apply (_extract_json_embedded
           (λ m : pystr, if bool_decide (m = py "{}") then Some (VDict []) else None)
           (py "Sure: ") [] (py " - done.") (VDict [])).
  - apply (bool_decide_unpack _). by vm_compute.
  - apply (bool_decide_unpack _). by vm_compute.
  - apply (bool_decide_unpack _). by vm_compute.
  - apply (bool_decide_unpack _). by vm_compute.
  - reflexivity.
  - reflexivity.
Defined.

(** When [json.loads] makes a dict of no piece of the answer, [nl_command]
    replies that it could not parse the answer, quoting its first 200
    characters, and leaves the filesystem as it was. *)
Theorem nl_command_answer_unparsed (json_loads : pystr → option pyval)
    (P : platform) (text : pystr) (fs : fsys) :
  (∀ m d, contains m text = true → json_loads m ≠ Some (VDict d)) →
  nl_command_answer json_loads P text fs =
    (Ok (py "Could not parse model output as JSON command: " ++ take 200 text), fs).
Proof.
  intros Hno. unfold nl_command_answer.
  destruct (_extract_json_piece json_loads text) as [->|(m & Hm & Hv)]; [done|].
  destruct (_extract_json json_loads text) as [| | | | |d]; try done.
  exfalso. apply (Hno m d); [by apply piece_of_contains|done].
Qed.

Lemma nl_command_answer_unparsed_witness :
  let loads := λ m : pystr,
    if bool_decide (m = py "[1]") then Some (VList [VNum 1]) else None in
  nl_command_answer loads srv (py "I think [1] is the answer") disk =
    (Ok (py "Could not parse model output as JSON command: I think [1] is the answer"),
     disk).
Proof.
  apply (nl_command_answer_unparsed
           (λ m : pystr, if bool_decide (m = py "[1]") then Some (VList [VNum 1]) else None)
           srv (py "I think [1] is the answer") disk).
  intros m d _. by case_bool_decide.
Defined.

(** * The planner of the chat application *)

Section ProcessQuery.

Context (P : platform) (json_loads : pystr → loaded).

Lemma find_from_found (c : N) (a r : pystr) (i : Z) :
  c ∉ a → find_from c (a ++ c :: r) i = (i + Z.of_nat (length a))%Z.
Proof.
  revert i. induction a as [|x a IH]; intros i Ha; simpl.
  - rewrite N.eqb_refl. lia.
  - rewrite (proj2 (N.eqb_neq x c)).
    + rewrite IH; [lia|]. intros ?. apply Ha. by right.
    + intros ->. apply Ha. by left.
Qed.

Lemma find_from_none (c : N) (s : pystr) (i : Z) : c ∉ s → find_from c s i = (-1)%Z.
Proof.
  revert i. induction s as [|x s IH]; intros i Hs; simpl; [done|].
  rewrite (proj2 (N.eqb_neq x c)).
  - apply IH. intros ?. apply Hs. by right.
  - intros ->. apply Hs. by left.
Qed.

Lemma rfind_from_none (c : N) (s : pystr) (i found : Z) :
  c ∉ s → rfind_from c s i found = found.
Proof.
  revert i found. induction s as [|x s IH]; intros i found Hs; simpl; [done|].
  rewrite (proj2 (N.eqb_neq x c)).
  - apply IH. intros ?. apply Hs. by right.
  - intros ->. apply Hs. by left.
Qed.

Lemma rfind_from_app (c : N) (u t : pystr) (i found : Z) :
  rfind_from c (u ++ t) i found =
    rfind_from c t (i + Z.of_nat (length u))%Z (rfind_from c u i found).
Proof.
  revert i found. induction u as [|x u IH]; intros i found; simpl.
  - by rewrite Z.add_0_r.
  - rewrite IH. f_equal. lia.
Qed.

Lemma rfind_from_found (c : N) (u b : pystr) (i found : Z) :
  c ∉ b → rfind_from c (u ++ c :: b) i found = (i + Z.of_nat (length u))%Z.
Proof.
  intros Hb. rewrite rfind_from_app. simpl. rewrite N.eqb_refl.
  by rewrite rfind_from_none.
Qed.

Lemma rfind_from_bound (c : N) (s : pystr) (i found : Z) :
  (found < i)%Z → (rfind_from c s i found < i + Z.of_nat (length s))%Z.
Proof.
  revert i found. induction s as [|x s IH]; intros i found Hf; simpl; [lia|].
  specialize (IH (i + 1)%Z (if x =? c then i else found)).
  destruct (x =? c); lia.
Qed.

Lemma from_first_none (c : N) (s : pystr) : c ∉ s → from_first c s = None.
Proof.
  induction s as [|x s IH]; intros Hs; simpl; [done|].
  rewrite (proj2 (N.eqb_neq x c)).
  - apply IH. intros ?. apply Hs. by right.
  - intros ->. apply Hs. by left.
Qed.

(** The slice that [process_query] hands to [json.loads] is the span that
    [_extract_json] searches for, and the empty text when there is no such
    span. *)
Lemma slice_brace_span (s : pystr) :
  123 ∈ s →
  slice s (find 123 s) (rfind 125 s + 1) = default [] (brace_span s).
Proof.
  intros (a & r & -> & Ha)%list_elem_of_split_l.
  unfold find, rfind, slice, brace_span.
  rewrite find_from_found, from_first_found by done.
  rewrite Z.add_0_l, Nat2Z.id.
  destruct (decide (125 ∈ r)) as [(u & b & -> & Hb)%list_elem_of_split_r|Hr].
  - rewrite upto_last_found by done.
    change (a ++ 123 :: u ++ 125 :: b) with (a ++ (123 :: u) ++ 125 :: b).
    rewrite app_assoc, rfind_from_found by done.
    replace (Z.to_nat (0 + Z.of_nat (length (a ++ 123 :: u)) + 1)) with
      (length ((a ++ 123 :: u) ++ [125])) by (rewrite !length_app; simpl; lia).
    change (125 :: b) with ([125] ++ b). rewrite app_assoc, take_app_length.
    rewrite <-!app_assoc. by rewrite drop_app_length.
  - unfold upto_last. rewrite from_first_none by (by rewrite elem_of_reverse).
    simpl. apply drop_ge. rewrite length_take.
    assert (rfind_from 125%N (a ++ 123%N :: r) 0 (-1) < 0 + Z.of_nat (length a))%Z.
    { rewrite rfind_from_app, (rfind_from_none 125 (123 :: r)).
      - by apply rfind_from_bound.
      - intros [?|?]%elem_of_cons; done. }
    lia.
Qed.

Lemma is_str_eq (v : pyval) (s : string) : is_str v s = true → v = VStr (py s).
Proof. destruct v; try done. simpl. by intros ->%bool_decide_eq_true. Qed.

End ProcessQuery.

(** Whatever the language model answers, [process_query] returns either the
    tool ["error"] with no arguments, or one of the ten tools of
    [available_tools]; and each of those is an action that the dispatcher of
    the server has a call for. *)
Theorem process_query_tool_is_known (P : platform) (json_loads : pystr → loaded)
    (content : pystr) :
  let '(tool, arguments, _) := process_query P json_loads content in
  (tool = VStr (py "error") ∧ arguments = VDict []) ∨
  (∃ n, n ∈ available_tools ∧ tool = VStr (py n) ∧
        ∀ args, invoke P tool args ≠ None).
Proof.
  unfold process_query.
  destruct (negb _ && negb _); [|by left].
  destruct (json_loads _) as [[| | | | |d]|msg|msg]; try by left.
  unfold tool_call.
  destruct (existsb _ available_tools) eqn:E; [|by left]. cbn [negb].
  right. apply existsb_exists in E as (n & Hn & His).
  apply list_elem_of_In in Hn. apply is_str_eq in His.
  exists n. split; [done|]. split; [done|]. rewrite His. intros args.
  unfold available_tools in Hn.
  repeat (apply elem_of_cons in Hn as [->|Hn]);
    [..|by apply elem_of_nil in Hn];
    unfold invoke;
    repeat match goal with
    | |- context [is_str (VStr (py ?a)) ?b] =>
        let r := eval vm_compute in (is_str (VStr (py a)) b) in
        change (is_str (VStr (py a)) b) with r
    end; done.
Qed.

(** Which text [process_query] parses: without an opening brace in the
    answer it reports that it found no JSON; with one, it parses the text
    from the first opening brace to the last closing brace after it, and the
    empty text when no closing brace follows: the test on the end index never
    fails, the index being that of the last closing brace plus one. *)
Theorem process_query_braces (P : platform) (json_loads : pystr → loaded)
    (content : pystr) :
  (123 ∉ strip content →
   process_query P json_loads content =
     error_reply (py "Could not find JSON response in LLM output")) ∧
  (123 ∈ strip content →
   process_query P json_loads content =
     tool_call P (json_loads (default [] (brace_span (strip content))))).
Proof.
  unfold process_query. split.
  - intros Hno. unfold find. by rewrite find_from_none.
  - intros Hin. rewrite slice_brace_span by done.
    assert (find 123%N (strip content) ≠ -1)%Z as H1.
    { apply list_elem_of_split_l in Hin as (a & r & -> & Ha).
      unfold find. rewrite find_from_found by done. lia. }
    assert (rfind 125%N (strip content) + 1 ≠ -1)%Z as H2.
    { unfold rfind.
      assert (∀ s i found, (found ≤ rfind_from 125%N s i found ∨
                             i ≤ rfind_from 125%N s i found)%Z) as Hlow.
      { induction s as [|x s IH]; intros i found; simpl; [lia|].
        specialize (IH (i + 1)%Z (if x =? 125 then i else found)).
        destruct (x =? 125); lia. }
      specialize (Hlow (strip content) 0%Z (-1)%Z). lia. }
    apply Z.eqb_neq in H1, H2. by rewrite H1, H2.
Qed.

Lemma process_query_braces_witness :
  let loads := λ m : pystr,
    if bool_decide (m = []) then JSONDecodeError (py "Expecting value")
    else Loaded (VDict [(py "tool", VStr (py "read_file"))]) in
  process_query srv loads (py "no object here") =
    error_reply (py "Could not find JSON response in LLM output") ∧
  process_query srv loads (py "{ never closed") =
    error_reply (py "Failed to parse JSON response: Expecting value").
Proof.
  split.
  - apply (proj1 (process_query_braces srv
             (λ m : pystr,
                if bool_decide (m = []) then JSONDecodeError (py "Expecting value")
                else Loaded (VDict [(py "tool", VStr (py "read_file"))]))
             (py "no object here"))).
    apply (bool_decide_unpack _). by vm_compute.
  - etrans.
    + apply (proj2 (process_query_braces srv
               (λ m : pystr,
                  if bool_decide (m = []) then JSONDecodeError (py "Expecting value")
                  else Loaded (VDict [(py "tool", VStr (py "read_file"))]))
               (py "{ never closed"))).
      apply (bool_decide_unpack _). by vm_compute.
    + reflexivity.
Defined.

(** * The root itself, and a file next to its listing *)

Section RootAndListing.

Context (P : platform).

(** Resolution walks a canonical prefix as it is. *)
Lemma realpath_walk (n : nat) fs : ∀ p cur rest,
  canonical fs (cur ++ p) →
  realpath n fs cur (p ++ rest) = realpath n fs (cur ++ p) rest.
Proof.
  induction p as [|c p IH]; intros cur rest Hc.
  - by rewrite app_nil_r.
  - simpl. rewrite realpath_cons.
    assert (ordinary c) as (Hc1 & Hc2 & Hc3).
    { destruct Hc as [Ho _]. apply Forall_app in Ho as [_ Ho]. by inv Ho. }
    rewrite bool_decide_eq_false_2 by (by intros [?|?]).
    rewrite bool_decide_eq_false_2 by done.
    rewrite is_lnk_false_match.
    + rewrite (IH (cur ++ [c])); by rewrite <-app_assoc.
    + apply Hc; [|by destruct cur].
      exists p. by rewrite <-app_assoc.
Qed.

(** ["."] names the root. *)
Lemma _resolve_safe_dot fs base :
  _get_fs_root P fs = Ok base → _resolve_safe P fs (VStr (py ".")) = Ok base.
Proof.
  intros Hb. pose proof (_get_fs_root_canonical P fs base Hb) as Hc.
  apply (_resolve_safe_within P fs (py ".") base base Hb); [|done].
  unfold resolve.
  rewrite bool_decide_eq_false_2 by (apply (bool_decide_unpack _); by vm_compute).
  change (is_absolute (py ".")) with false. cbv iota.
  change (split_on sep (py ".")) with [py "."].
  rewrite (realpath_walk _ fs base [] [py "."]) by done.
  rewrite realpath_cons, bool_decide_eq_true_2 by (by right).
  by rewrite realpath_nil.
Qed.


End RootAndListing.

(** With [FS_ROOT] unset or empty, the root is the working directory. *)
Theorem _get_fs_root_default (P : platform) fs :
  env_FS_ROOT P = None ∨ env_FS_ROOT P = Some [] →
  canonical fs (cwd P) → Forall valid_name (cwd P) →
  _get_fs_root P fs = Ok (cwd P).
Proof.
  intros Henv Hc Hv. unfold _get_fs_root.
  assert (match env_FS_ROOT P with
          | Some (c :: r) => c :: r
          | _ => str_path (cwd P)
          end = str_path (cwd P)) as ->.
  { by destruct Henv as [-> | ->]. }
  rewrite str_path_absolute. by apply resolve_str_path.
Qed.

Lemma _get_fs_root_default_witness :
  _get_fs_root (posix (Some []) [py "srv"; py "root"]) disk = Ok [py "srv"; py "root"].
Proof.
  apply (_get_fs_root_default (posix (Some []) [py "srv"; py "root"]) disk).
  - by right.
  - apply (wf_canonical disk [py "srv"; py "root"] Dir disk_wf eq_refl). done.
  - apply (bool_decide_unpack _). by vm_compute.
Defined.

(** Nothing protects the root: [delete_file] on ["."] with [recursive]
    removes the root directory itself and everything in it. *)
Theorem delete_file_of_the_root (P : platform) fs base :
  _get_fs_root P fs = Ok base → fs !! base = Some Dir → base ≠ [] →
  ∃ fs', delete_file P (VStr (py ".")) (VBool true) fs =
           (Ok (py "Removed directory tree: " ++ str_path base), fs') ∧
         tree_removed base fs fs'.
Proof.
  intros Hb Hd Hne.
  pose proof (_get_fs_root_canonical P fs base Hb) as Hc.
  destruct (rmtree_spec fs base Hd Hne) as (fs' & Hrun & Hfs').
  exists fs'. split; [|done].
  unfold delete_file, bind, reading, get, ret.
  rewrite (_resolve_safe_dot P fs base Hb).
  rewrite (exists_present P fs base Dir Hc Hd), (is_dir_present P fs base Hc Hd).
  cbn [negb truthy]. by rewrite Hrun.
Qed.

Lemma delete_file_of_the_root_witness :
  ∃ fs', delete_file srv (VStr (py ".")) (VBool true) disk =
           (Ok (py "Removed directory tree: /srv/root"), fs') ∧
         tree_removed [py "srv"; py "root"] disk fs'.
Proof.
  apply (delete_file_of_the_root srv disk [py "srv"; py "root"]).
  - reflexivity.
  - reflexivity.
  - discriminate.
Defined.



(** Copying a file onto itself fails and changes nothing. *)
Theorem copy_file_onto_itself (P : platform) fs src dst overwrite s data :
  wf fs → _resolve_safe P fs src = Ok s → _resolve_safe P fs dst = Ok s →
  fs !! s = Some (Reg data) → truthy overwrite = true →
  ∃ e, kind e = ShutilError ∧ copy_file P src dst overwrite fs = (Raise e, fs).
Proof.
  intros Hwf Hs Hd Hi Ho.
  pose proof (_resolve_safe_canonical P fs src s Hs) as Hc.
  eexists. split; [|unfold copy_file, bind, reading, get, raise; rewrite Hs, Hd].
  2: { rewrite (exists_present P fs s _ Hc Hi).
       rewrite (is_file_canonical P fs s Hc), Hi. cbn [negb orb].
       rewrite (mkdir_parent_of_existing P fs s _ Hwf Hc Hi).
       rewrite (exists_present P fs s _ Hc Hi), Ho. cbn [negb andb].
       unfold copy2, bind, get.
       rewrite (is_dir_other P fs s Hc) by (by rewrite Hi).
       unfold copyfile, bind, get, raise.
       assert (samefile P fs s s = true) as ->; [|done].
       unfold samefile. rewrite (realpath_id _ fs s []) by done. cbn [app].
       rewrite bool_decide_eq_true_2 by done.
       by rewrite bool_decide_eq_true_2 by (by rewrite Hi). }
  done.
Qed.

Lemma copy_file_onto_itself_witness :
  ∃ e, kind e = ShutilError ∧
       copy_file srv (VStr (py "a.txt")) (VStr (py "docs/../a.txt")) (VBool true) disk =
         (Raise e, disk).
Proof.
  apply (copy_file_onto_itself srv disk (VStr (py "a.txt")) (VStr (py "docs/../a.txt"))
           (VBool true) [py "srv"; py "root"; py "a.txt"] (bytes "hello")).
  - apply disk_wf.
  - reflexivity.
  - reflexivity.
  - reflexivity.
  - reflexivity.
Defined.

(** * [move_file] onto what exists *)

(** [move_file] with [overwrite] onto a regular file replaces it: the
    destination holds what the source held, the source is gone, and nothing
    else changes. *)
Theorem move_file_overwrites (P : platform) fs src dst overwrite s d data old :
  wf fs → _resolve_safe P fs src = Ok s → _resolve_safe P fs dst = Ok d →
  fs !! s = Some (Reg data) → fs !! d = Some (Reg old) → s ≠ d →
  truthy overwrite = true →
  move_file P src dst overwrite fs =
    (Ok (py "Moved " ++ str_path s ++ py " -> " ++ str_path d),
     <[d := Reg data]> (delete s fs)).
Proof.
  intros Hwf Hs Hd Hi Ho Hne Hov.
  pose proof (_resolve_safe_canonical P fs src s Hs) as Hcs.
  pose proof (_resolve_safe_canonical P fs dst d Hd) as Hcd.
  assert (s ≠ []) as Hsne. { intros ->. destruct Hwf as [Hr _]. congruence. }
  assert (d ≠ []) as Hdne. { intros ->. destruct Hwf as [Hr _]. congruence. }
  assert (¬ s `prefix_of` d) as Hnp.
  { intros Hpre. rewrite (wf_below_file fs s d data Hwf Hi Hpre) in Ho; [done|].
    by intros ->. }
  assert (¬ d `prefix_of` s) as Hnp'.
  { intros Hpre. by rewrite (wf_below_file fs d s old Hwf Ho Hpre) in Hi. }
  unfold move_file, bind, reading, get, ret. rewrite Hs, Hd.
  rewrite (exists_present P fs s _ Hcs Hi). cbn [negb].
  rewrite (mkdir_parent_of_existing P fs d _ Hwf Hcd Ho).
  rewrite (exists_present P fs d _ Hcd Ho), Hov. cbn [negb andb].
  unfold shutil_move, bind, get.
  rewrite (is_dir_other P fs d Hcd) by (by rewrite Ho). cbn [andb].
  unfold try_except, os_rename. rewrite Hi.
  rewrite decide_False by (by intros [?|?]).
  rewrite decide_False by done. rewrite decide_False by done.
  unfold rename_onto. rewrite Ho.
  do 2 f_equal. apply map_eq. intros q. rewrite relocate_lookup.
  destruct (decide (d `prefix_of` q)) as [[r ->]|Hdq].
  - rewrite drop_app_length. destruct r as [|c r].
    + by rewrite !app_nil_r, lookup_insert_eq.
    + assert (d ++ c :: r ≠ d) as Hq.
      { intros Heq. rewrite <-(app_nil_r d) in Heq at 2. by apply app_inv_head in Heq. }
      rewrite lookup_insert_ne by done.
      rewrite (wf_below_file fs s (s ++ c :: r) data Hwf Hi); [|by apply prefix_app_r|].
      2: { intros Heq. rewrite <-(app_nil_r s) in Heq at 2. by apply app_inv_head in Heq. }
      symmetry. apply lookup_delete_None. right.
      apply (wf_below_file fs d _ old Hwf Ho); [by apply prefix_app_r|done].
  - rewrite lookup_insert_ne by (intros ->; by apply Hdq).
    destruct (decide (s `prefix_of` q)) as [Hsq|Hsq].
    + symmetry. apply lookup_delete_None.
      destruct (decide (s = q)) as [->|Hsq']; [by left|right].
      apply (wf_below_file fs s q data Hwf Hi Hsq). by intros ->.
    + rewrite lookup_delete_ne; [done|]. intros ->. by apply Hsq.
Qed.

Lemma move_file_overwrites_witness :
  move_file srv (VStr (py "a.txt")) (VStr (py "docs/Report.md")) (VBool true) disk =
    (Ok (py "Moved /srv/root/a.txt -> /srv/root/docs/Report.md"),
     <[ [py "srv"; py "root"; py "docs"; py "Report.md"] := Reg (bytes "hello") ]>
       (delete [py "srv"; py "root"; py "a.txt"] disk)).
Proof.
  apply (move_file_overwrites srv disk (VStr (py "a.txt")) (VStr (py "docs/Report.md"))
           (VBool true) [py "srv"; py "root"; py "a.txt"]
           [py "srv"; py "root"; py "docs"; py "Report.md"] (bytes "hello") (bytes "x")).
  - apply disk_wf.
  - reflexivity.
  - reflexivity.
  - reflexivity.
  - reflexivity.
  - discriminate.
  - reflexivity.
Defined.

(** [move_file] onto a directory moves into it: the tree of the source is
    put under the name of the source inside the destination, when nothing of
    that name is there.  The report names the destination as it was given. *)
Theorem move_file_into_directory (P : platform) fs src dst overwrite s d i :
  wf fs → _resolve_safe P fs src = Ok s → _resolve_safe P fs dst = Ok d →
  fs !! s = Some i → s ≠ [] → ¬ s `prefix_of` d →
  fs !! d = Some Dir → fs !! (d ++ [name s]) = None → truthy overwrite = true →
  ∃ fs',
    move_file P src dst overwrite fs =
      (Ok (py "Moved " ++ str_path s ++ py " -> " ++ str_path d), fs') ∧
    ∀ q, fs' !! q =
      if decide (d ++ [name s] `prefix_of` q)
      then fs !! (s ++ drop (S (length d)) q)
      else if decide (s `prefix_of` q) then None else fs !! q.
Proof.
  intros Hwf Hs Hd Hi Hsne Hnp Ho Ht Hov.
  pose proof (_resolve_safe_canonical P fs src s Hs) as Hcs.
  pose proof (_resolve_safe_canonical P fs dst d Hd) as Hcd.
  assert (s ≠ d) as Hne by (by intros ->).
  assert (canonical fs (d ++ [name s])) as Hct.
  { apply canonical_snoc; [done| |by rewrite Ht].
    destruct Hcs as [Ho' _]. rewrite (path_snoc_inv s Hsne) in Ho'.
    apply Forall_app in Ho' as [_ Ho']. by inv Ho'. }
  exists (relocate s (d ++ [name s]) fs). split.
  - unfold move_file, bind, reading, get, ret. rewrite Hs, Hd.
    rewrite (exists_present P fs s _ Hcs Hi). cbn [negb].
    rewrite (mkdir_parent_of_existing P fs d _ Hwf Hcd Ho).
    rewrite (exists_present P fs d _ Hcd Ho), Hov. cbn [negb andb].
    unfold shutil_move, bind, get.
    rewrite (is_dir_present P fs d Hcd Ho). cbn [andb].
    assert (samefile P fs s d = false) as ->.
    { unfold samefile. rewrite (realpath_id _ fs s []), (realpath_id _ fs d []) by done.
      cbn [app]. by rewrite bool_decide_eq_false_2. }
    rewrite (exists_absent P fs _ Hct Ht).
    unfold try_except, os_rename. rewrite Hi.
    rewrite decide_False by (intros [?|?]; [done|by destruct d]).
    rewrite decide_False by (intros Heq; rewrite Heq in Hi; congruence).
    rewrite decide_False.
    2: { intros [Heq|Hpre]%prefix_snoc_inv; [|done]. rewrite Heq in Hi. congruence. }
    unfold rename_onto. by rewrite Ht, parent_snoc, Ho.
  - intros q. rewrite relocate_lookup, length_app. simpl.
    by rewrite Nat.add_1_r.
Qed.

Lemma move_file_into_directory_witness :
  ∃ fs',
    move_file srv (VStr (py "a.txt")) (VStr (py "sub")) (VBool true) disk =
      (Ok (py "Moved /srv/root/a.txt -> /srv/root/sub"), fs') ∧
    ∀ q, fs' !! q =
      if decide ([py "srv"; py "root"; py "sub"] ++ [name [py "srv"; py "root"; py "a.txt"]]
                 `prefix_of` q)
      then disk !! ([py "srv"; py "root"; py "a.txt"] ++ drop 4 q)
      else if decide ([py "srv"; py "root"; py "a.txt"] `prefix_of` q) then None
      else disk !! q.
Proof.
  apply (move_file_into_directory srv disk (VStr (py "a.txt")) (VStr (py "sub"))
           (VBool true) [py "srv"; py "root"; py "a.txt"] [py "srv"; py "root"; py "sub"]
           (Reg (bytes "hello"))).
  - apply disk_wf.
  - reflexivity.
  - reflexivity.
  - reflexivity.
  - discriminate.
  - apply (bool_decide_unpack _). by vm_compute.
  - reflexivity.
  - reflexivity.
  - reflexivity.
Defined.
